(** * Photomosaic: a shallow embedding of [mosaic.py]

    The program builds a photomosaic: the target picture is scaled and
    trimmed, cut into a grid of tile-sized cells, every cell is replaced
    by the best matching tile of a directory, and the result is saved.

    The embedding follows [mosaic.py] function by function.  Pillow,
    numpy and the operating system are external to the program: their
    geometric behaviour (sizes of resized and cropped images, paste
    positions) is written out, while the resampling filter, the colour
    conversion and the file system are operations of an environment the
    definitions take as a parameter.

    Numbers.  Python integers are [Z]; [//] and [%] are floor division
    and its remainder, which [Z.div] and [Z.modulo] are for every sign
    of the operands.  Pixel samples are integers (the 8-bit channels of
    most modes, one 32-bit value in mode 'I').  numpy computes [error]
    in binary64.  [error] below is that computation in exact integers;
    [error64] is the one with the roundings of binary64, whatever the
    order numpy adds the terms in, and the two agree on operands of
    8-bit samples ([eight_bit]), where nothing exceeds 2^53.
    [float('inf')] is kept as a separate value. *)

From Stdlib Require Import ZArith Ascii String List Bool Lia Permutation.
Import ListNotations.
Local Open Scope Z_scope.

(** ** Python values and exceptions *)

Module Py.

(** The exceptions a run of the program can end with. *)
Inductive exn : Type :=
| SystemExit                 (* sys.exit() *)
| ZeroDivisionError          (* // or % by zero *)
| IndexError                 (* list index out of range *)
| ValueError_index           (* list.index: value not in list *)
| ValueError_int             (* int(): invalid literal *)
| ValueError_shape           (* numpy: operands of different shapes *)
| ValueError_paste           (* Image.paste of something that is no image *)
| ValueError_size            (* Image.resize to a width or height below 1 *)
| OSError (what : string).   (* a file that cannot be read or written *)

Inductive outcome (A : Type) : Type :=
| Ok (a : A)
| Raise (e : exn).
Arguments Ok {A} a.
Arguments Raise {A} e.

Definition floordiv (a b : Z) : outcome Z :=
  if b =? 0 then Raise ZeroDivisionError else Ok (a / b).

Definition modulo (a b : Z) : outcome Z :=
  if b =? 0 then Raise ZeroDivisionError else Ok (a mod b).

(** Truth value of an integer: [if n:] *)
Definition truthy (n : Z) : bool := negb (n =? 0).

(** [float('inf')] and the finite values [error] returns. *)
Inductive number : Type :=
| Inf
| Fin (z : Z).

(** [err < min_err] for a finite [err]. *)
Definition lt (err : Z) (min_err : number) : bool :=
  match min_err with
  | Inf => true
  | Fin m => err <? m
  end.

(** A colour as [getpixel] returns it: the tuple of channel values. *)
Definition colour : Type := list Z.

Definition colour_eqb (a b : colour) : bool :=
  if list_eq_dec Z.eq_dec a b then true else false.

(** [l.index(x)]: the position of the first element equal to [x]. *)
Fixpoint index (x : colour) (l : list colour) : option nat :=
  match l with
  | [] => None
  | y :: l' => if colour_eqb y x then Some O
               else option_map S (index x l')
  end.

(** [range(n)] as the list of its values; empty when [n <= 0]. *)
Definition range (n : Z) : list Z :=
  map Z.of_nat (seq 0 (Z.to_nat n)).

Fixpoint ends_with_sep (s : string) : bool :=
  match s with
  | EmptyString => false
  | String c EmptyString => Ascii.eqb c "/"%char
  | String _ s' => ends_with_sep s'
  end.

(** [os.path.join(a, b)] of [posixpath]. *)
Definition path_join (a b : string) : string :=
  if String.prefix "/"%string b then b
  else if String.eqb a ""%string || ends_with_sep a then String.append a b
  else String.append a (String.append "/"%string b).

End Py.
Import Py.

(** ** numpy arrays and the dissimilarity [error] *)

Module Np.

(** An array as [np.asarray] builds it: its shape and its values in
    row-major order. *)
Record ndarray : Type := mk_ndarray {
  shape : list Z;
  values : list Z
}.

Definition shape_eqb (s t : list Z) : bool :=
  if list_eq_dec Z.eq_dec s t then true else false.

(** Two arrays the element-wise operations accept as they are.  numpy
    also accepts some unequal shapes by broadcasting and raises
    [ValueError] on the others.  The program only ever compares
    regions of one tile size and colours of one mode; the embedding
    stops with [ValueError_shape] on every unequal pair. *)
Definition same_shape (x y : ndarray) : bool :=
  shape_eqb (shape x) (shape y)
  && (length (values x) =? length (values y))%nat.

(** [np.subtract(x, y)] on the values of equally shaped arrays. *)
Fixpoint subtract (x y : list Z) : list Z :=
  match x, y with
  | a :: x', b :: y' => (a - b) :: subtract x' y'
  | _, _ => []
  end.

(** [a ** 2], element-wise. *)
Definition square (a : list Z) : list Z := map (fun d => d * d) a.

(** [np.sum(a)] *)
Definition sum (a : list Z) : Z := fold_left Z.add a 0.

End Np.
Import Np.

(** [error(x, y)], lines 80-83, in exact arithmetic: what binary64
    computes as long as no value exceeds 2^53 (see [error64] and
    [eight_bit] below). *)
Definition error (x y : ndarray) : outcome Z :=
  if same_shape x y
  then Ok (Np.sum (square (subtract (values x) (values y))))
  else Raise ValueError_shape.

(** ** [error] in binary64

    [np.asarray(x, dtype=float)] converts every sample to binary64, and
    the subtraction, the square and every addition of [np.sum] round
    their result to binary64.  All these values are integers. *)

(** The binary64 value nearest to an integer, ties to the even
    significand: an integer of magnitude below 2^53 is kept, a larger
    one keeps its 53 leading bits.  (Magnitudes from 2^1024 on, which
    binary64 does not hold, do not occur: samples have at most 32
    bits.) *)
Definition binary64 (z : Z) : Z :=
  let a := Z.abs z in
  if a <? 2 ^ 53 then z
  else
    let e := Z.log2 a - 52 in
    let q := a / 2 ^ e in
    let r := a mod 2 ^ e in
    let half := 2 ^ (e - 1) in
    let q' := if r <? half then q
              else if half <? r then q + 1
              else if Z.even q then q else q + 1 in
    Z.sgn z * (q' * 2 ^ e).

(** One element of [np.subtract(x, y) ** 2]: both samples converted,
    their difference, its square. *)
Definition squared_difference64 (a b : Z) : Z :=
  let d := binary64 (binary64 a - binary64 b) in
  binary64 (d * d).

(** The elements of [np.subtract(x, y) ** 2], in row-major order. *)
Fixpoint terms64 (x y : list Z) : list Z :=
  match x, y with
  | a :: x', b :: y' => squared_difference64 a b :: terms64 x' y'
  | _, _ => []
  end.

(** [np.sum] of binary64 values.  numpy adds them in an order of its
    own (in blocks, with several accumulators), rounding after every
    addition; [sum64 l s] holds when [s] is the result of adding the
    elements of [l] in some order and grouping. *)
Inductive sum64 : list Z -> Z -> Prop :=
| sum64_nil : sum64 [] 0
| sum64_one (v : Z) : sum64 [v] v
| sum64_add (l1 l2 : list Z) (s1 s2 : Z) :
    l1 <> [] -> l2 <> [] -> sum64 l1 s1 -> sum64 l2 s2 ->
    sum64 (l1 ++ l2) (binary64 (s1 + s2))
| sum64_perm (l l' : list Z) (s : Z) :
    Permutation l l' -> sum64 l s -> sum64 l' s.

(** [r] is what [error(x, y)] returns in binary64, for operands of one
    shape. *)
Definition error64 (x y : ndarray) (r : Z) : Prop :=
  same_shape x y = true /\ sum64 (terms64 (values x) (values y)) r.

(** The sum of a list of integers, without rounding. *)
Definition exact_sum (l : list Z) : Z := fold_right Z.add 0 l.

(** Samples of 8 bits, few enough for the sum of their squared
    differences to stay below 2^53: every value [error] computes on
    such operands is an integer binary64 holds exactly. *)
Definition eight_bit (l : list Z) : Prop :=
  Forall (fun v => 0 <= v <= 255) l
  /\ 65025 * Z.of_nat (length l) < 2 ^ 53.

(** Samples of at most 32 bits, signed: all that Pillow's integer
    modes hold. *)
Definition int32 (l : list Z) : Prop :=
  Forall (fun v => - 2 ^ 31 <= v < 2 ^ 31) l.

(** ** What the statements below are phrased with *)

(** The sum, over all positions, of the squared difference of the
    values the two sequences hold there: what the specification calls
    the dissimilarity. *)
Definition sum_sq_diff (a b : list Z) : Z :=
  fold_right Z.add 0
    (map (fun i => (nth i a 0 - nth i b 0) ^ 2) (seq 0 (length a))).

(** The tile a scan has to return: the one at the lowest position
    among those of minimal score. *)
Definition first_min {A : Type} (score : A -> Z) (l : list A)
    (k : nat) (x : A) : Prop :=
  nth_error l k = Some x
  /\ (forall j y, nth_error l j = Some y -> score x <= score y)
  /\ (forall j y, (j < k)%nat -> nth_error l j = Some y ->
                  score x < score y).

(** The scans of [find_best_match] without their effects: the element
    a loop with the strict [<] update keeps, from a running minimum
    [min_err] and its holder [best]. *)
Fixpoint best_of {A : Type} (score : A -> Z) (l : list A)
    (min_err : number) (best : option A) : option A :=
  match l with
  | [] => best
  | x :: l' =>
      if lt (score x) min_err
      then best_of score l' (Fin (score x)) (Some x)
      else best_of score l' min_err best
  end.

(** What a scan knows after the elements [seen]: nothing yet, or the
    first minimum of [seen] and its score. *)
Definition scanned {A : Type} (score : A -> Z) (seen : list A)
    (min_err : number) (best : option A) : Prop :=
  (seen = [] /\ min_err = Inf /\ best = None)
  \/ (exists k x, first_min score seen k x
                 /\ min_err = Fin (score x) /\ best = Some x).

(** ** Pillow images *)

Module PIL.

(** An image: its mode, its size, the number of bands of the mode and
    the samples, row by row, the bands of a pixel next to each
    other (the values of [np.asarray(img)]). *)
Record Image : Type := mk_image {
  mode : string;
  width : Z;
  height : Z;
  bands : nat;
  data : list Z
}.

Definition size (img : Image) : Z * Z := (width img, height img).

(** A box [(left, upper, right, lower)]. *)
Definition box : Type := (Z * Z * Z * Z)%type.

Definition full_box (img : Image) : box := (0, 0, width img, height img).

(** [np.asarray(img)] has the shape (height, width, bands). *)
Definition asarray (img : Image) : ndarray :=
  {| shape := [height img; width img; Z.of_nat (bands img)];
     values := data img |}.

(** [np.asarray] of a colour tuple. *)
Definition asarray_colour (c : colour) : ndarray :=
  {| shape := [Z.of_nat (length c)]; values := c |}.

Definition inside (img : Image) (x y : Z) : bool :=
  (0 <=? x) && (x <? width img) && (0 <=? y) && (y <? height img).

(** [img.getpixel((x, y))] for a position inside the image. *)
Definition getpixel (img : Image) (xy : Z * Z) : colour :=
  let '(x, y) := xy in
  firstn (bands img)
    (skipn (Z.to_nat (y * width img + x) * bands img) (data img)).

(** [Image.new(mode, size)] of an image with [n] bands: all zero. *)
Definition new (m : string) (n : nat) (sz : Z * Z) : Image :=
  {| mode := m; width := fst sz; height := snd sz; bands := n;
     data := repeat 0 (Z.to_nat (fst sz * snd sz) * n) |}.

(** [img.crop(box)]: the region of the box, of size
    (right - left, lower - upper); what lies outside the image is
    zero.  Every box the program builds has left <= right and
    upper <= lower. *)
Definition crop (img : Image) (b : box) : Image :=
  let '(l, u, r, lo) := b in
  {| mode := mode img; width := r - l; height := lo - u;
     bands := bands img;
     data :=
       flat_map (fun y =>
         flat_map (fun x =>
           if inside img x y then getpixel img (x, y)
           else repeat 0 (bands img))
           (map (Z.add l) (range (r - l))))
         (map (Z.add u) (range (lo - u))) |}.

(** [out.paste(im, (x0, y0))] writes [im] into [out] at the offset
    and leaves the size of [out] as it is.  The samples are copied as
    they are: [im] has the mode of [out], as the tiles of a run have
    ([get_tiles] converts them to the mode of the target); an image of
    another mode Pillow converts first.  Pasting something that is no
    image ([None]) with a two-item box raises [ValueError]. *)
Definition paste (out : Image) (im : option Image) (xy : Z * Z)
  : outcome Image :=
  match im with
  | None => Raise ValueError_paste
  | Some t =>
      let '(x0, y0) := xy in
      Ok {| mode := mode out; width := width out; height := height out;
            bands := bands out;
            data :=
              flat_map (fun y =>
                flat_map (fun x =>
                  if inside t (x - x0) (y - y0)
                  then getpixel t (x - x0, y - y0)
                  else getpixel out (x, y))
                  (range (width out)))
                (range (height out)) |}
  end.

End PIL.
Import PIL.

(** ** The environment: Pillow's filters, the file system, [int] *)

Class Env : Type := {
  (** the samples [img.resize(size, Image.ANTIALIAS, box)] computes *)
  resample : Image -> Z * Z -> box -> list Z;
  (** [img.convert(mode)] *)
  convert : Image -> string -> Image;
  (** [Image.open(path)] *)
  image_open : string -> outcome Image;
  (** [os.listdir(path)] *)
  listdir : string -> outcome (list string);
  (** [img.save(path)] *)
  image_save : Image -> string -> outcome unit;
  (** [int(s)] *)
  int : string -> outcome Z
}.

(** ** State of a run: the module-global cache and what was done *)

Inductive event : Type :=
| Print (s : string)            (* print(s) *)
| Percent (p : Z)               (* sys.stdout.write of a percentage *)
| Print_run_time                (* the closing run-time line *)
| Opened (path : string)        (* Image.open *)
| Listed (path : string)        (* os.listdir *)
| Saved (path : string) (img : Image).   (* img.save *)

Record state : Type := mk_state {
  cached_avgs : list colour;    (* line 10 *)
  trace : list event
}.

(** A fresh process: [cached_avgs = []], nothing done yet. *)
Definition initial : state := {| cached_avgs := []; trace := [] |}.

(** Computations that read and extend the state and may raise; the
    state survives an exception, as a module global does. *)
Definition M (A : Type) : Type := state -> outcome A * state.

Definition ret {A} (a : A) : M A := fun s => (Ok a, s).

Definition bind {A B} (c : M A) (k : A -> M B) : M B :=
  fun s => match c s with
           | (Ok a, s') => k a s'
           | (Raise e, s') => (Raise e, s')
           end.

Definition lift {A} (o : outcome A) : M A := fun s => (o, s).

Definition raise {A} (e : exn) : M A := fun s => (Raise e, s).

Definition emit (e : event) : M unit :=
  fun s => (Ok tt, {| cached_avgs := cached_avgs s;
                      trace := trace s ++ [e] |}).

Definition print (s : string) : M unit := emit (Print s).

Definition get_cached : M (list colour) :=
  fun s => (Ok (cached_avgs s), s).

(** [cached_avgs.append(c)] *)
Definition cached_append (c : colour) : M unit :=
  fun s => (Ok tt, {| cached_avgs := cached_avgs s ++ [c];
                      trace := trace s |}).

Declare Scope py_scope.
Delimit Scope py_scope with py.
Notation "x <- c ;; k" := (bind c (fun x => k))
  (at level 61, c at next level, right associativity) : py_scope.
Notation "c ;; k" := (bind c (fun _ => k))
  (at level 61, right associativity) : py_scope.
Local Open Scope py_scope.

(** Binding an outcome that touches no state. *)
Definition obind {A B} (o : outcome A) (k : A -> outcome B) : outcome B :=
  match o with
  | Ok a => k a
  | Raise e => Raise e
  end.

(** ** The program *)

Section Mosaic.

Context {E : Env}.

(** [img.resize(size, Image.ANTIALIAS, box=box)]: an image of the
    requested size in the mode of [img]; Pillow refuses a width or a
    height below 1.  The boxes the program passes lie inside the
    image. *)
Definition resize (img : Image) (sz : Z * Z) (b : box) : outcome Image :=
  if (fst sz <? 1) || (snd sz <? 1) then Raise ValueError_size
  else Ok {| mode := mode img; width := fst sz; height := snd sz;
             bands := bands img; data := resample img sz b |}.

(** [class ProgressCounter], lines 13-21. *)
Record ProgressCounter : Type := mk_progress {
  total : Z;
  counter : Z
}.

Definition ProgressCounter_init (n : Z) : ProgressCounter :=
  {| total := n; counter := 0 |}.

Definition update (p : ProgressCounter) : M ProgressCounter :=
  let p' := {| total := total p; counter := counter p + 1 |} in
  pct <- lift (floordiv (100 * counter p') (total p')) ;;
  emit (Percent pct) ;;
  ret p'.

(** [get_target(image, tile_size, scale)], lines 24-34. *)
Definition get_target (image : string) (tile_size : Z * Z) (scale : Z)
  : M Image :=
  emit (Opened image) ;;
  img <- lift (image_open image) ;;
  let w := width img * scale in
  let h := height img * scale in
  img_large <- lift (resize img (w, h) (full_box img)) ;;
  w_mod <- lift (modulo w (fst tile_size)) ;;
  let w_rem := w_mod / 2 in
  h_mod <- lift (modulo h (fst tile_size)) ;;
  let h_rem := h_mod / 2 in
  if truthy w_rem || truthy h_rem
  then ret (crop img_large (w_rem, h_rem, w - w_rem, h - h_rem))
  else ret img_large.

(** The box [process_tile] hands to [resize], lines 38-42. *)
Definition process_tile_box (tile : Image) : box :=
  let w := width tile in
  let h := height tile in
  let min_dim := Z.min w h in
  let w_crop := (w - min_dim) / 2 in
  let h_crop := (h - min_dim) / 2 in
  (w_crop, h_crop, w - w_crop, h - h_crop).

(** [process_tile(tile, tile_size)], lines 37-44. *)
Definition process_tile (tile : Image) (tile_size : Z * Z)
  : outcome Image :=
  resize tile tile_size (process_tile_box tile).

(** The loop of [get_tiles], lines 52-56. *)
Fixpoint get_tiles_loop (tiles_path : string) (tile_size : Z * Z)
    (m : string) (files : list string) (tiles : list Image)
    (progress : ProgressCounter) : M (list Image) :=
  match files with
  | [] => ret tiles
  | file :: files' =>
      let path := path_join tiles_path file in
      emit (Opened path) ;;
      opened <- lift (image_open path) ;;
      let tile := convert opened m in
      tile <- lift (process_tile tile tile_size) ;;
      progress <- update progress ;;
      get_tiles_loop tiles_path tile_size m files' (tiles ++ [tile])
        progress
  end.

(** [get_tiles(tiles_path, tile_size, mode)], lines 47-58. *)
Definition get_tiles (tiles_path : string) (tile_size : Z * Z)
    (m : string) : M (list Image) :=
  print "Getting tiles..." ;;
  emit (Listed tiles_path) ;;
  files <- lift (listdir tiles_path) ;;
  tiles <- get_tiles_loop tiles_path tile_size m files []
             (ProgressCounter_init (Z.of_nat (length files))) ;;
  print "Done." ;;
  ret tiles.

(** [avg_rgb(image)], lines 61-63. *)
Definition avg_rgb (image : Image) : outcome colour :=
  obind (resize image (1, 1) (full_box image))
        (fun img => Ok (getpixel img (0, 0))).

(** [gridify(image, tile_size)], lines 66-77. *)
Definition gridify (image : Image) (tile_size : Z * Z)
  : outcome (list (list Image)) :=
  let '(w, h) := tile_size in
  obind (floordiv (height image) h) (fun rows =>
  obind (floordiv (width image) w) (fun cols =>
  Ok (map (fun i =>
        map (fun j =>
          crop image (j * w, i * h, (j + 1) * w, (i + 1) * h))
          (range cols))
        (range rows)))).

(** The first scan of the 'avg' branch, lines 93-99: every tile's
    average is computed and appended to the cache. *)
Fixpoint scan_first (target_avg : colour) (tiles : list Image)
    (min_err : number) (best_match : option Image)
  : M (option Image) :=
  match tiles with
  | [] => ret best_match
  | tile :: tiles' =>
      tile_avg <- lift (avg_rgb tile) ;;
      cached_append tile_avg ;;
      err <- lift (error (asarray_colour target_avg)
                         (asarray_colour tile_avg)) ;;
      if lt err min_err
      then scan_first target_avg tiles' (Fin err) (Some tile)
      else scan_first target_avg tiles' min_err best_match
  end.

(** The scan over a populated cache, lines 101-105; [cached] is the
    whole of [cached_avgs], [avgs] what the loop still has to visit. *)
Fixpoint scan_cached (target_avg : colour) (tiles : list Image)
    (cached avgs : list colour) (min_err : number)
    (best_match : option Image) : outcome (option Image) :=
  match avgs with
  | [] => Ok best_match
  | avg :: avgs' =>
      obind (error (asarray_colour target_avg) (asarray_colour avg))
        (fun err =>
           if lt err min_err
           then match index avg cached with
                | None => Raise ValueError_index
                | Some i =>
                    match nth_error tiles i with
                    | None => Raise IndexError
                    | Some tile =>
                        scan_cached target_avg tiles cached avgs'
                          (Fin err) (Some tile)
                    end
                end
           else scan_cached target_avg tiles cached avgs'
                  min_err best_match)
  end.

(** The scan of the 'diff' branch, lines 111-115. *)
Fixpoint scan_diff (target : Image) (tiles : list Image)
    (min_err : number) (best_match : option Image)
  : outcome (option Image) :=
  match tiles with
  | [] => Ok best_match
  | tile :: tiles' =>
      obind (error (asarray target) (asarray tile))
        (fun err =>
           if lt err min_err
           then scan_diff target tiles' (Fin err) (Some tile)
           else scan_diff target tiles' min_err best_match)
  end.

(** [find_best_match(target, tiles, method)], lines 86-120. *)
Definition find_best_match (target : Image) (tiles : list Image)
    (method : string) : M (option Image) :=
  if String.eqb method "avg" then
    target_avg <- lift (avg_rgb target) ;;
    cached <- get_cached ;;
    match cached with
    | [] => scan_first target_avg tiles Inf None
    | _ :: _ => lift (scan_cached target_avg tiles cached cached Inf None)
    end
  else if String.eqb method "diff" then
    lift (scan_diff target tiles Inf None)
  else
    print "Unknown method. Exiting..." ;;
    raise SystemExit.

(** The matching of one row of the grid, lines 129-132. *)
Fixpoint match_row (row : list Image) (tiles : list Image)
    (method : string) (mosaic_row : list (option Image))
  : M (list (option Image)) :=
  match row with
  | [] => ret mosaic_row
  | grid_tile :: row' =>
      best_match <- find_best_match grid_tile tiles method ;;
      match_row row' tiles method (mosaic_row ++ [best_match])
  end.

(** The matching of the whole grid, lines 128-134. *)
Fixpoint match_grid (grid : list (list Image)) (tiles : list Image)
    (method : string) (mosaic_tiles : list (list (option Image)))
    (progress : ProgressCounter) : M (list (list (option Image))) :=
  match grid with
  | [] => ret mosaic_tiles
  | row :: grid' =>
      mosaic_row <- match_row row tiles method [] ;;
      progress <- update progress ;;
      match_grid grid' tiles method (mosaic_tiles ++ [mosaic_row])
        progress
  end.

(** The pasting of one row, lines 141-142; [j] counts the columns. *)
Fixpoint paste_row (output : Image) (row : list (option Image))
    (tile_w tile_h : Z) (i j : Z) : outcome Image :=
  match row with
  | [] => Ok output
  | tile :: row' =>
      obind (paste output tile (j * tile_w, i * tile_h))
        (fun output' => paste_row output' row' tile_w tile_h i (j + 1))
  end.

(** The pasting of all rows, lines 140-142; [i] counts the rows. *)
Fixpoint paste_grid (output : Image)
    (mosaic_tiles : list (list (option Image)))
    (tile_w tile_h : Z) (i : Z) : outcome Image :=
  match mosaic_tiles with
  | [] => Ok output
  | row :: rows' =>
      obind (paste_row output row tile_w tile_h i 0)
        (fun output' => paste_grid output' rows' tile_w tile_h (i + 1))
  end.

(** The buffer line 139 allocates, [Image.new(mode, image.size)].
    [main] passes the mode of the picture itself (lines 178 and 180),
    and the bands of a new image of that mode are the bands of the
    picture; for another mode Pillow takes the bands from the mode. *)
Definition mosaic_output (m : string) (image : Image) : Image :=
  new m (bands image) (size image).

(** [mosaic(image, tiles, tile_size, out_file, mode, method)],
    lines 123-144. *)
Definition mosaic (image : Image) (tiles : list Image)
    (tile_size : Z * Z) (out_file : string) (m : string)
    (method : string) : M unit :=
  grid <- lift (gridify image tile_size) ;;
  print "Finding best matches..." ;;
  mosaic_tiles <- match_grid grid tiles method []
                    (ProgressCounter_init (Z.of_nat (length grid))) ;;
  print "Done." ;;
  print "Creating mosaic..." ;;
  let '(tile_w, tile_h) := tile_size in
  let output := mosaic_output m image in
  output <- lift (paste_grid output mosaic_tiles tile_w tile_h 0) ;;
  lift (image_save output out_file) ;;
  emit (Saved out_file output) ;;
  print "Done.".

(** The usage text, lines 151-159. *)
Definition usage (prog : string) : M unit :=
  print (String.append "Usage: "
           (String.append prog
              " <image> <tiles directory> <output> <tile size> <scale> <method>")) ;;
  print "image - image from which the mosaic is created" ;;
  print "tiles directory - directory containing the images to be used as tiles for the mosaic" ;;
  print "output - name of the output image" ;;
  print "tile size - size of the tiles in px" ;;
  print "scale - positive integer used for scaling the image" ;;
  print "method - the method used for finding the best matches: 'avg' or 'diff'".

Definition unknown_method (method : string) : string :=
  String.append "Unknown method '"
    (String.append method "'. Available methods are 'avg' and 'diff'").

(** [1 if scale < 1 else scale], line 170. *)
Definition clamp_scale (scale : Z) : Z := if scale <? 1 then 1 else scale.

(** [main(argv)], lines 147-183. *)
Definition main (argv : list string) : M unit :=
  match argv with
  | [_; image; tiles_path; out_file; a4; a5; method] =>
      size <- lift (int a4) ;;
      scale <- lift (int a5) ;;
      let tile_size := (size, size) in
      let scale := if scale <? 1 then 1 else scale in
      if negb (String.eqb method "avg") && negb (String.eqb method "diff")
      then print (unknown_method method) ;; raise SystemExit
      else
        target <- get_target image tile_size scale ;;
        if size >? Z.min (width target) (height target)
        then print "Tiles cannot be larger than the image" ;;
             raise SystemExit
        else
          let m := mode target in
          tiles <- get_tiles tiles_path tile_size m ;;
          mosaic target tiles tile_size out_file m method ;;
          emit Print_run_time
  | [] => raise IndexError
  | prog :: _ => usage prog ;; raise SystemExit
  end.

(** *** The quantities of the statements *)

(** The colour [avg_rgb] returns: the one pixel of the image resized
    to 1 x 1. *)
Definition avg_colour (image : Image) : colour :=
  getpixel {| mode := mode image; width := 1; height := 1;
              bands := bands image;
              data := resample image (1, 1) (full_box image) |} (0, 0).

(** The dissimilarity of a tile to a target cell under a method:
    between the two average colours in 'avg' mode, between the two
    pixel contents otherwise. *)
Definition dissimilarity (method : string) (target tile : Image) : Z :=
  if String.eqb method "avg"
  then sum_sq_diff (avg_colour target) (avg_colour tile)
  else sum_sq_diff (data target) (data tile).

(** A tile [error] can compare with the target cell under a method:
    average colours with as many channels, or regions of one shape. *)
Definition comparable (method : string) (target tile : Image) : Prop :=
  if String.eqb method "avg"
  then length (avg_colour tile) = length (avg_colour target)
  else same_shape (asarray target) (asarray tile) = true.

(** The cache as the first scan over [tiles] leaves it. *)
Definition averages (tiles : list Image) : list colour :=
  map avg_colour tiles.

(** The percentages the progress counter writes for [n] items. *)
Definition percents (n : nat) : list event :=
  map (fun c => Percent (100 * Z.of_nat (S c) / Z.of_nat n)) (seq 0 n).

End Mosaic.

(** ** A small concrete environment

    A crude resampling filter (every pixel of the result is the mean of
    the source, channel by channel), a file system holding one target
    picture and a directory of tiles, and decimal [int]. *)

Module Demo.

Definition channel_mean (img : Image) (k : nat) : Z :=
  let n := (length (data img) / bands img)%nat in
  fold_right Z.add 0
    (map (fun i => nth (i * bands img + k) (data img) 0) (seq 0 n))
  / Z.of_nat n.

Definition mean_colour (img : Image) : colour :=
  map (channel_mean img) (seq 0 (bands img)).

Definition mean_resample (img : Image) (sz : Z * Z) (_ : box) : list Z :=
  concat (repeat (mean_colour img) (Z.to_nat (fst sz * snd sz))).

Definition digit (c : ascii) : option Z :=
  let n := Z.of_nat (nat_of_ascii c) in
  if (48 <=? n) && (n <=? 57) then Some (n - 48) else None.

Fixpoint digits (s : string) (acc : Z) : outcome Z :=
  match s with
  | EmptyString => Ok acc
  | String c s' =>
      match digit c with
      | Some d => digits s' (10 * acc + d)
      | None => Raise ValueError_int
      end
  end.

Definition decimal (s : string) : outcome Z :=
  match s with
  | EmptyString => Raise ValueError_int
  | String "-" s' =>
      match s' with
      | EmptyString => Raise ValueError_int
      | _ => obind (digits s' 0) (fun n => Ok (- n))
      end
  | _ => digits s 0
  end.

Fixpoint lookup (path : string) (files : list (string * Image))
  : outcome Image :=
  match files with
  | [] => Raise (OSError path)
  | (name, img) :: files' =>
      if String.eqb name path then Ok img else lookup path files'
  end.

(** A file system with the pictures [files] and the directory
    [tiles] listing [names]. *)
Definition env (files : list (string * Image)) (names : list string)
  : Env :=
  {| resample := mean_resample;
     convert := fun img m =>
       {| mode := m; width := width img; height := height img;
          bands := bands img; data := data img |};
     image_open := fun path => lookup path files;
     listdir := fun path =>
       if String.eqb path "tiles" then Ok names
       else Raise (OSError path);
     image_save := fun _ _ => Ok tt;
     int := decimal |}.

(** A picture of one colour. *)
Definition solid (w h : Z) (c : colour) : Image :=
  {| mode := "RGB"; width := w; height := h; bands := length c;
     data := concat (repeat c (Z.to_nat (w * h))) |}.

Definition red : Image := solid 2 2 [255; 0; 0].
Definition blue : Image := solid 2 2 [0; 0; 255].

(** Two tiles with different pixels and one average colour. *)
Definition grey_a : Image :=
  {| mode := "RGB"; width := 2; height := 2; bands := 3;
     data := [100; 100; 100; 100; 100; 100;
              100; 100; 100; 100; 100; 100] |}.
Definition grey_b : Image :=
  {| mode := "RGB"; width := 2; height := 2; bands := 3;
     data := [0; 0; 0; 200; 200; 200;
              200; 200; 200; 0; 0; 0] |}.

Definition dark_cell : Image := solid 2 2 [90; 90; 90].

Definition palette : list Image := [red; grey_a; grey_b; blue].

(** An environment without files. *)
Definition plain : Env := env [] [].

(** A 7 x 7 picture, a 5 x 2 picture and a 4 x 4 tile. *)
Definition picture : Image := solid 7 7 [10; 20; 30].
Definition banner : Image := solid 5 2 [10; 20; 30].
Definition tile4 : Image := solid 4 4 [12; 18; 33].

(** A file system with the picture and an empty directory of tiles. *)
Definition bare : Env := env [("target.png"%string, picture)] [].

(** A file system with the picture and a directory of one tile. *)
Definition studio : Env :=
  env [("target.png"%string, picture); ("tiles/a.png"%string, tile4)]
      ["a.png"%string].

(** A file system whose directory of tiles lists a file that is not
    there. *)
Definition broken : Env :=
  env [("target.png"%string, picture); ("tiles/a.png"%string, tile4)]
      ["a.png"%string; "missing.png"%string; "b.png"%string].

(** A cache left by a scan over [red; blue]. *)
Definition stale : state :=
  {| cached_avgs := [[255; 0; 0]; [0; 0; 255]]; trace := [] |}.

Definition reddish_cell : Image := solid 2 2 [250; 0; 0].

(** The target [get_target] prepares from the picture for tiles of
    size 4. *)
Definition prepared : Image := solid 5 5 [10; 20; 30].

End Demo.

(** ** The cache across calls *)

(** A computation that leaves the cache as it is or appends to it, and
    leaves a populated cache untouched. *)
Definition stable {A : Type} (c : M A) : Prop :=
  forall s, exists added,
    cached_avgs (snd (c s)) = cached_avgs s ++ added
    /\ (cached_avgs s <> [] -> added = []).

(** ** Notions of the further properties *)

(** The tile a scan from [float('inf')] keeps for a cell: the first of
    minimal dissimilarity, [None] when there are no tiles. *)
Definition best_tile {E : Env} (method : string) (tiles : list Image)
    (cell : Image) : option Image :=
  best_of (dissimilarity method cell) tiles Inf None.

(** An image whose samples fill its size: [bands] values for each of
    its [width * height] pixels. *)
Definition well_formed (img : Image) : Prop :=
  0 <= width img /\ 0 <= height img
  /\ length (data img)
     = (Z.to_nat (width img * height img) * bands img)%nat.

(** A directory entry and the tile [get_tiles] makes of it: the
    file opens, and the converted picture is processed to the tile. *)
Definition loaded {E : Env} (tiles_path : string) (tile_size : Z * Z)
    (m : string) (file : string) (tile : Image) : Prop :=
  exists opened,
    image_open (path_join tiles_path file) = Ok opened
    /\ process_tile (convert opened m) tile_size = Ok tile.

(** What the loop of [get_tiles] does for the entries [files], the
    first of them being entry number [k] of [n]: each file is opened,
    then the percentage is written. *)
Definition load_events (tiles_path : string) (n : Z) (k : nat)
    (files : list string) : list event :=
  flat_map (fun '(i, file) =>
              [Opened (path_join tiles_path file);
               Percent (100 * Z.of_nat (S i) / n)])
    (combine (seq k (length files)) files).

(** The tile in row [i] and column [j] of a matched grid. *)
Definition tile_at (mosaic_tiles : list (list (option Image))) (i j : Z)
  : option Image :=
  match nth_error mosaic_tiles (Z.to_nat i) with
  | Some row =>
      match nth_error row (Z.to_nat j) with
      | Some tile => tile
      | None => None
      end
  | None => None
  end.

(** A tile the compositor can paste into a picture of [b] bands: a
    well-formed picture of the tile size [w] x [h] with [b] bands. *)
Definition fits (w h : Z) (b : nat) (tile : option Image) : Prop :=
  exists t, tile = Some t /\ well_formed t /\ size t = (w, h)
            /\ bands t = b.

(** What [find_best_match] hands to [error] for a picture under a
    method: its average colour in 'avg' mode, the picture otherwise;
    and the values of that operand. *)
Definition operand {E : Env} (method : string) (img : Image) : ndarray :=
  if String.eqb method "avg" then asarray_colour (avg_colour img)
  else asarray img.

Definition compared {E : Env} (method : string) (img : Image) : list Z :=
  if String.eqb method "avg" then avg_colour img else data img.

(** The cell of row [i] and column [j] of the grid, line 74. *)
Definition grid_cell (image : Image) (w h i j : Z) : Image :=
  crop image (j * w, i * h, (j + 1) * w, (i + 1) * h).

(** A computation that only adds events of a kind to the trace. *)
Definition emits_only {A : Type} (P : event -> Prop) (c : M A) : Prop :=
  forall s, exists tr,
    trace (snd (c s)) = trace s ++ tr /\ Forall P tr.

(** What a run on the picture [image], the directory [tiles_path] and
    the output [out_file] may do: open the picture and the entries the
    directory lists, list that directory, save under the output name,
    and print anything but the message of the last branch of
    [find_best_match]. *)
Definition permitted {E : Env} (image tiles_path out_file : string)
    (e : event) : Prop :=
  match e with
  | Opened path =>
      path = image
      \/ exists files file,
           listdir tiles_path = Ok files /\ In file files
           /\ path = path_join tiles_path file
  | Listed path => path = tiles_path
  | Saved path _ => path = out_file
  | Print text => text <> "Unknown method. Exiting..."%string
  | Percent _ => True
  | Print_run_time => True
  end.

(** * Properties *)

(** ** The dissimilarity *)

Lemma sum_sq_diff_cons (x y : Z) (a b : list Z) :
  sum_sq_diff (x :: a) (y :: b) = (x - y) ^ 2 + sum_sq_diff a b.
Proof.
  unfold sum_sq_diff. cbn [length seq]. rewrite <- seq_shift.
  cbn [map fold_right nth]. rewrite map_map. reflexivity.
Qed.

Lemma sum_sq_diff_nil (b : list Z) : sum_sq_diff [] b = 0.
Proof. reflexivity. Qed.

Lemma sum_sq_diff_nonneg (a b : list Z) : 0 <= sum_sq_diff a b.
Proof.
  unfold sum_sq_diff.
  induction (seq 0 (length a)) as [|i l IH]; cbn [map fold_right].
  - lia.
  - assert (0 <= (nth i a 0 - nth i b 0) ^ 2)
      by (rewrite Z.pow_2_r; apply Z.square_nonneg).
    lia.
Qed.

Lemma np_sum_acc (l : list Z) (acc : Z) :
  fold_left Z.add l acc = acc + fold_right Z.add 0 l.
Proof.
  revert acc. induction l as [|x l IH]; intros acc; cbn.
  - lia.
  - rewrite IH. lia.
Qed.

Lemma np_sum_square_subtract (a b : list Z) :
  length a = length b ->
  Np.sum (square (subtract a b)) = sum_sq_diff a b.
Proof.
  unfold Np.sum. rewrite np_sum_acc, Z.add_0_l.
  revert b. induction a as [|x a IH]; intros [|y b] Hlen;
    try discriminate; [reflexivity|].
  rewrite sum_sq_diff_cons. unfold square in *.
  cbn [subtract map fold_right].
  rewrite IH by (cbn in Hlen; lia).
  rewrite Z.pow_2_r. reflexivity.
Qed.

Lemma same_shape_length (x y : ndarray) :
  same_shape x y = true -> length (values x) = length (values y).
Proof.
  unfold same_shape. intros H. apply andb_prop in H as [_ H].
  now apply Nat.eqb_eq.
Qed.

Lemma same_shape_refl (x : ndarray) : same_shape x x = true.
Proof.
  unfold same_shape, shape_eqb.
  destruct (list_eq_dec Z.eq_dec (shape x) (shape x)); [|contradiction].
  now rewrite Nat.eqb_refl.
Qed.

Lemma same_shape_sym (x y : ndarray) : same_shape x y = same_shape y x.
Proof.
  unfold same_shape, shape_eqb. rewrite (Nat.eqb_sym (length (values x))).
  destruct (list_eq_dec Z.eq_dec (shape x) (shape y)),
           (list_eq_dec Z.eq_dec (shape y) (shape x)); congruence.
Qed.

Lemma sum_sq_diff_sym (a b : list Z) :
  length a = length b -> sum_sq_diff a b = sum_sq_diff b a.
Proof.
  revert b. induction a as [|x a IH]; intros [|y b] Hlen;
    try discriminate; [reflexivity|].
  rewrite !sum_sq_diff_cons, IH by (cbn in Hlen; lia).
  rewrite !Z.pow_2_r. lia.
Qed.

Lemma sum_sq_diff_diag (a : list Z) : sum_sq_diff a a = 0.
Proof.
  induction a as [|x a IH]; [reflexivity|].
  rewrite sum_sq_diff_cons, IH, Z.sub_diag. reflexivity.
Qed.

Lemma error_same_shape (x y : ndarray) :
  same_shape x y = true ->
  error x y = Ok (sum_sq_diff (values x) (values y)).
Proof.
  intros H. unfold error. rewrite H.
  now rewrite np_sum_square_subtract by now apply same_shape_length.
Qed.

(** ** Rounding to binary64 *)

Lemma binary64_exact (z : Z) : Z.abs z < 2 ^ 53 -> binary64 z = z.
Proof.
  intros H. unfold binary64.
  assert ((Z.abs z <? 2 ^ 53) = true) as -> by now apply Z.ltb_lt.
  reflexivity.
Qed.

Lemma binary64_opp (z : Z) : binary64 (- z) = - binary64 z.
Proof.
  unfold binary64. rewrite Z.abs_opp, Z.sgn_opp.
  destruct (Z.abs z <? 2 ^ 53); [reflexivity|].
  cbv zeta. lia.
Qed.

Lemma binary64_rounded (z : Z) :
  2 ^ 53 <= Z.abs z ->
  exists q e, 0 < q /\ 0 < 2 ^ e /\ binary64 z = Z.sgn z * (q * 2 ^ e).
Proof.
  intros H. unfold binary64.
  assert ((Z.abs z <? 2 ^ 53) = false) as -> by now apply Z.ltb_ge.
  cbv zeta.
  set (a := Z.abs z) in *. set (e := Z.log2 a - 52).
  assert (Ha : 0 < a) by (assert (0 < 2 ^ 53) by reflexivity; lia).
  assert (Hlog : 53 <= Z.log2 a).
  { apply Z.log2_le_pow2; assumption. }
  assert (He : 0 <= e) by (unfold e; lia).
  assert (Hpe : 0 < 2 ^ e) by (apply Z.pow_pos_nonneg; lia).
  assert (Hq : 0 < a / 2 ^ e).
  { apply Z.div_str_pos. split; [assumption|].
    transitivity (2 ^ Z.log2 a).
    - apply Z.pow_le_mono_r; unfold e; lia.
    - now apply Z.log2_spec. }
  set (q := a / 2 ^ e) in *.
  exists (if a mod 2 ^ e <? 2 ^ (e - 1) then q
          else if 2 ^ (e - 1) <? a mod 2 ^ e then q + 1
          else if Z.even q then q else q + 1), e.
  repeat split; try assumption.
  destruct (_ <? _); [assumption|].
  destruct (_ <? _); [lia|]. destruct (Z.even q); lia.
Qed.

(** From 2^53 on, [binary64 z] is a multiple of the unit in the last
    place, 2^e, with a significand of at most 53 bits, and lies at most
    half that unit from [z]. *)
Lemma binary64_nearest (z : Z) :
  2 ^ 53 <= Z.abs z ->
  let e := Z.log2 (Z.abs z) - 52 in
  exists q, binary64 z = q * 2 ^ e
            /\ Z.abs q <= 2 ^ 53
            /\ 2 * Z.abs (binary64 z - z) <= 2 ^ e.
Proof.
  intros H e. unfold binary64.
  assert ((Z.abs z <? 2 ^ 53) = false) as -> by now apply Z.ltb_ge.
  cbv zeta. fold e.
  set (a := Z.abs z) in *.
  assert (H53 : 2 ^ 53 = 9007199254740992) by reflexivity.
  assert (Ha : 0 < a) by lia.
  assert (Hlog : 53 <= Z.log2 a) by (apply Z.log2_le_pow2; lia).
  assert (He : 1 <= e) by (unfold e; lia).
  assert (Hpe : 2 ^ e = 2 * 2 ^ (e - 1)).
  { replace e with (Z.succ (e - 1)) at 1 by lia.
    apply Z.pow_succ_r. lia. }
  assert (Hhalf : 0 < 2 ^ (e - 1)) by (apply Z.pow_pos_nonneg; lia).
  pose proof (Z.div_mod a (2 ^ e) ltac:(lia)) as Hdm.
  pose proof (Z.mod_pos_bound a (2 ^ e) ltac:(lia)) as Hr.
  assert (Hq : a / 2 ^ e < 2 ^ 53).
  { apply Z.div_lt_upper_bound; [lia|].
    rewrite <- Z.pow_add_r by lia.
    replace (e + 53) with (Z.succ (Z.log2 a)) by (unfold e; lia).
    now apply Z.log2_spec. }
  assert (Hq0 : 0 <= a / 2 ^ e) by (apply Z.div_pos; lia).
  set (q := a / 2 ^ e) in *. set (r := a mod 2 ^ e) in *.
  set (half := 2 ^ (e - 1)) in *.
  set (q' := if r <? half then q
             else if half <? r then q + 1
             else if Z.even q then q else q + 1).
  assert (Hq' : (q' = q /\ r <= half) \/ (q' = q + 1 /\ half <= r)).
  { unfold q'. destruct (Z.ltb_spec r half); [left; lia|].
    destruct (Z.ltb_spec half r); [right; lia|].
    destruct (Z.even q); [left|right]; lia. }
  exists (Z.sgn z * q'). split; [ring|].
  assert (Hz : z = Z.sgn z * a) by (unfold a; now destruct z).
  assert (Hs : Z.sgn z = 1 \/ Z.sgn z = -1).
  { destruct (Z.sgn_spec z) as [[? Hs]|[[? Hs]|[? Hs]]]; [now left| |now right].
    unfold a in Ha. subst z. discriminate. }
  split.
  - destruct Hs as [->| ->], Hq' as [[-> _]|[-> _]]; lia.
  - rewrite Hz at 2. destruct Hs as [->| ->], Hq' as [[-> ?]|[-> ?]]; lia.
Qed.

(** Ties go to the even significand. *)
Example binary64_tie_to_even :
  binary64 (2 ^ 53 + 1) = 2 ^ 53 /\ binary64 (2 ^ 53 + 3) = 2 ^ 53 + 4
  /\ binary64 (2 ^ 53 + 2) = 2 ^ 53 + 2
  /\ binary64 (- (2 ^ 53 + 1)) = - 2 ^ 53.
Proof. repeat split; vm_compute; reflexivity. Qed.

Lemma binary64_sgn (z : Z) : Z.sgn (binary64 z) = Z.sgn z.
Proof.
  destruct (Z_lt_ge_dec (Z.abs z) (2 ^ 53)) as [H|H].
  - now rewrite binary64_exact.
  - destruct (binary64_rounded z) as (q & e & Hq & He & ->); [lia|].
    rewrite Z.sgn_mul, (Z.sgn_pos (q * 2 ^ e)) by nia.
    rewrite Z.sgn_sgn. lia.
Qed.

Lemma binary64_nonneg (z : Z) : 0 <= z -> 0 <= binary64 z.
Proof.
  intros H. apply Z.sgn_nonneg. rewrite binary64_sgn.
  now apply Z.sgn_nonneg.
Qed.

Lemma binary64_zero (z : Z) : binary64 z = 0 <-> z = 0.
Proof.
  rewrite <- (Z.sgn_null_iff (binary64 z)), binary64_sgn.
  apply Z.sgn_null_iff.
Qed.

Lemma squared_difference64_nonneg (a b : Z) :
  0 <= squared_difference64 a b.
Proof. apply binary64_nonneg, Z.square_nonneg. Qed.

Lemma squared_difference64_sym (a b : Z) :
  squared_difference64 a b = squared_difference64 b a.
Proof.
  unfold squared_difference64.
  replace (binary64 a - binary64 b) with (- (binary64 b - binary64 a))
    by lia.
  rewrite binary64_opp. f_equal. lia.
Qed.

Lemma squared_difference64_diag (a : Z) : squared_difference64 a a = 0.
Proof.
  unfold squared_difference64. now rewrite Z.sub_diag.
Qed.

Lemma squared_difference64_exact (a b : Z) :
  0 <= a <= 255 -> 0 <= b <= 255 ->
  squared_difference64 a b = (a - b) ^ 2 /\ (a - b) ^ 2 <= 65025.
Proof.
  intros Ha Hb. unfold squared_difference64.
  assert (H53 : 2 ^ 53 = 9007199254740992) by reflexivity.
  rewrite (binary64_exact a), (binary64_exact b) by lia.
  rewrite (binary64_exact (a - b)) by lia.
  rewrite Z.pow_2_r.
  assert (0 <= (a - b) * (a - b)) by apply Z.square_nonneg.
  assert (0 <= (255 - (a - b)) * (255 + (a - b)))
    by (apply Z.mul_nonneg_nonneg; lia).
  split; [apply binary64_exact|]; lia.
Qed.

Lemma squared_difference64_zero (a b : Z) :
  - 2 ^ 31 <= a < 2 ^ 31 -> - 2 ^ 31 <= b < 2 ^ 31 ->
  squared_difference64 a b = 0 <-> a = b.
Proof.
  intros Ha Hb. unfold squared_difference64.
  assert (H31 : 2 ^ 31 = 2147483648) by reflexivity.
  assert (H53 : 2 ^ 53 = 9007199254740992) by reflexivity.
  rewrite (binary64_exact a), (binary64_exact b) by lia.
  rewrite (binary64_exact (a - b)) by lia.
  rewrite binary64_zero. split; [nia|].
  intros ->. now rewrite Z.sub_diag.
Qed.

(** ** Sums in binary64 *)

Lemma exact_sum_app (l1 l2 : list Z) :
  exact_sum (l1 ++ l2) = exact_sum l1 + exact_sum l2.
Proof.
  unfold exact_sum. induction l1 as [|x l1 IH]; cbn; [reflexivity|].
  cbn in IH. rewrite IH. lia.
Qed.

Lemma exact_sum_perm (l l' : list Z) :
  Permutation l l' -> exact_sum l = exact_sum l'.
Proof.
  unfold exact_sum. induction 1; cbn in *; lia.
Qed.

Lemma exact_sum_nonneg (l : list Z) :
  Forall (fun v => 0 <= v) l -> 0 <= exact_sum l.
Proof.
  unfold exact_sum. induction 1; cbn in *; lia.
Qed.

Lemma sum64_exists (l : list Z) : exists s, sum64 l s.
Proof.
  induction l as [|x [|y l] IH].
  - exists 0. constructor.
  - exists x. constructor.
  - destruct IH as [s Hs]. exists (binary64 (x + s)).
    apply (sum64_add [x] (y :: l)); try discriminate; [constructor|assumption].
Qed.

Lemma sum64_nonneg (l : list Z) (s : Z) :
  sum64 l s -> Forall (fun v => 0 <= v) l -> 0 <= s.
Proof.
  induction 1 as [|v|l1 l2 s1 s2 _ _ _ IH1 _ IH2|l l' s Hp _ IH]; intros Hl.
  - lia.
  - now inversion Hl.
  - apply Forall_app in Hl as [H1 H2].
    specialize (IH1 H1). specialize (IH2 H2).
    apply binary64_nonneg. lia.
  - apply IH. eapply Permutation_Forall; [|exact Hl].
    now apply Permutation_sym.
Qed.

Lemma sum64_zero (l : list Z) (s : Z) :
  sum64 l s -> Forall (fun v => 0 <= v) l ->
  s = 0 <-> Forall (fun v => v = 0) l.
Proof.
  induction 1 as [|v|l1 l2 s1 s2 _ _ H1 IH1 H2 IH2|l l' s Hp _ IH];
    intros Hl.
  - split; [constructor|reflexivity].
  - split.
    + intros ->. now repeat constructor.
    + intros H. now inversion H.
  - apply Forall_app in Hl as [Hl1 Hl2].
    pose proof (sum64_nonneg _ _ H1 Hl1).
    pose proof (sum64_nonneg _ _ H2 Hl2).
    rewrite binary64_zero, Forall_app, <- (IH1 Hl1), <- (IH2 Hl2). lia.
  - assert (Hl' : Forall (fun v => 0 <= v) l).
    { eapply Permutation_Forall; [|exact Hl]. now apply Permutation_sym. }
    rewrite (IH Hl'). split; intros H.
    + eapply Permutation_Forall; eassumption.
    + eapply Permutation_Forall; [|exact H]. now apply Permutation_sym.
Qed.

Lemma sum64_exact (l : list Z) (s : Z) :
  sum64 l s -> Forall (fun v => 0 <= v) l -> exact_sum l < 2 ^ 53 ->
  s = exact_sum l.
Proof.
  induction 1 as [|v|l1 l2 s1 s2 _ _ _ IH1 _ IH2|l l' s Hp _ IH];
    intros Hl Hb.
  - reflexivity.
  - unfold exact_sum. cbn. lia.
  - apply Forall_app in Hl as [Hl1 Hl2]. rewrite exact_sum_app in *.
    pose proof (exact_sum_nonneg _ Hl1). pose proof (exact_sum_nonneg _ Hl2).
    rewrite IH1, IH2 by (assumption || lia).
    apply binary64_exact. lia.
  - rewrite <- (exact_sum_perm _ _ Hp) in *. apply IH; [|assumption].
    eapply Permutation_Forall; [|exact Hl]. now apply Permutation_sym.
Qed.

Lemma sum64_single (v s : Z) : sum64 [v] s -> s = v.
Proof.
  intros H. remember [v] as l eqn:El. revert v El.
  induction H as [|w|l1 l2 s1 s2 N1 N2 _ _ _ _|l l' s Hp _ IH];
    intros v El.
  - discriminate.
  - now injection El.
  - destruct l1 as [|a l1]; [contradiction|].
    destruct l2 as [|b l2]; [contradiction|].
    destruct l1; discriminate.
  - subst l'. apply IH. apply Permutation_sym in Hp.
    now apply Permutation_length_1_inv in Hp.
Qed.

(** ** The terms of [error] *)

Lemma terms64_nonneg (x y : list Z) :
  Forall (fun v => 0 <= v) (terms64 x y).
Proof.
  revert y. induction x as [|a x IH]; intros [|b y]; cbn; constructor.
  - apply squared_difference64_nonneg.
  - apply IH.
Qed.

Lemma terms64_sym (x y : list Z) : terms64 x y = terms64 y x.
Proof.
  revert y. induction x as [|a x IH]; intros [|b y]; cbn; try reflexivity.
  now rewrite squared_difference64_sym, IH.
Qed.

Lemma terms64_diag (x : list Z) : Forall (fun v => v = 0) (terms64 x x).
Proof.
  induction x as [|a x IH]; cbn; constructor; [|assumption].
  apply squared_difference64_diag.
Qed.

Lemma terms64_zero (x y : list Z) :
  length x = length y -> int32 x -> int32 y ->
  Forall (fun v => v = 0) (terms64 x y) <-> x = y.
Proof.
  unfold int32. revert y. induction x as [|a x IH]; intros [|b y] Hlen Hx Hy;
    try discriminate.
  - split; [reflexivity|constructor].
  - inversion Hx as [|? ? Ha Hx']; inversion Hy as [|? ? Hb Hy']; subst.
    cbn [terms64]. split.
    + intros H. inversion H as [|? ? H0 H']; subst.
      apply (squared_difference64_zero a b Ha Hb) in H0.
      apply IH in H'; [congruence|cbn in Hlen; lia|assumption..].
    + intros H. injection H as -> ->. constructor.
      * apply squared_difference64_diag.
      * apply terms64_diag.
Qed.

Lemma terms64_exact (x y : list Z) :
  length x = length y ->
  Forall (fun v => 0 <= v <= 255) x -> Forall (fun v => 0 <= v <= 255) y ->
  exact_sum (terms64 x y) = sum_sq_diff x y
  /\ exact_sum (terms64 x y) <= 65025 * Z.of_nat (length x).
Proof.
  revert y. induction x as [|a x IH]; intros [|b y] Hlen Hx Hy;
    try discriminate.
  - split; [reflexivity|cbn; lia].
  - inversion Hx as [|? ? Ha Hx']; inversion Hy as [|? ? Hb Hy']; subst.
    assert (Hlen' : length x = length y) by (cbn in Hlen; lia).
    destruct (IH y Hlen' Hx' Hy') as [IH1 IH2].
    rewrite sum_sq_diff_cons. cbn [terms64 length].
    unfold exact_sum in IH1, IH2 |- *. cbn [fold_right].
    destruct (squared_difference64_exact a b Ha Hb) as [-> Hsq].
    rewrite IH1. split; [reflexivity|].
    rewrite <- IH1. lia.
Qed.

(** The possible results of [error] in binary64, on operands of one shape
    and of 8-bit samples: only the exact sum of the squared
    differences, which is what [error] computes. *)
Lemma error64_exact (x y : ndarray) (r : Z) :
  eight_bit (values x) -> eight_bit (values y) ->
  error64 x y r ->
  r = sum_sq_diff (values x) (values y) /\ error x y = Ok r.
Proof.
  intros [Hx Hnx] [Hy _] [Hshape Hsum].
  pose proof (same_shape_length x y Hshape) as Hlen.
  destruct (terms64_exact _ _ Hlen Hx Hy) as [Hterms Hbound].
  assert (r = sum_sq_diff (values x) (values y)) as ->.
  { rewrite <- Hterms. apply sum64_exact; [assumption| |lia].
    apply terms64_nonneg. }
  split; [reflexivity|]. now apply error_same_shape.
Qed.

(** C6.  On operands of one shape whose samples are integers of at most
    32 bits, [error], computed in binary64 in whatever order numpy adds
    the terms, has a result; every result is nonnegative and is a
    result for the operands exchanged, which give the same terms; an
    operand is at distance 0 from itself.  On operands of 8-bit samples
    the result is the sum over all positions and channels of the
    squared difference of the two values, the value of [error]. *)
Theorem error_sum_of_squared_differences (x y : ndarray) :
  same_shape x y = true ->
  int32 (values x) -> int32 (values y) ->
  (exists r, error64 x y r)
  /\ (forall r, error64 x y r -> 0 <= r /\ error64 y x r)
  /\ terms64 (values x) (values y) = terms64 (values y) (values x)
  /\ (forall r, error64 x x r -> r = 0)
  /\ (eight_bit (values x) -> eight_bit (values y) ->
      forall r, error64 x y r ->
        r = sum_sq_diff (values x) (values y) /\ error x y = Ok r).
Proof.
  intros Hshape _ _. split.
  { destruct (sum64_exists (terms64 (values x) (values y))) as [r Hr].
    exists r. now split. }
  split.
  { intros r [_ Hr]. split.
    - eapply sum64_nonneg; [exact Hr|apply terms64_nonneg].
    - split; [now rewrite same_shape_sym|now rewrite terms64_sym]. }
  split; [apply terms64_sym|]. split.
  { intros r [_ Hr].
    apply (sum64_zero _ _ Hr (terms64_nonneg _ _)), terms64_diag. }
  intros Hx Hy r. now apply error64_exact.
Qed.

Lemma error_sum_of_squared_differences_witness :
  let x := asarray Demo.grey_a in
  let y := asarray Demo.grey_b in
  (same_shape x y = true /\ int32 (values x) /\ int32 (values y)
   /\ eight_bit (values x) /\ eight_bit (values y))
  /\ (exists r, error64 x y r)
  /\ (forall r, error64 x y r ->
        0 <= r /\ error64 y x r /\ r = 120000 /\ error x y = Ok r)
  /\ (forall r, error64 x x r -> r = 0).
Proof.
  assert (Hx32 : int32 (values (asarray Demo.grey_a)))
    by (repeat constructor; discriminate).
  assert (Hy32 : int32 (values (asarray Demo.grey_b)))
    by (repeat constructor; discriminate).
  assert (Hx8 : eight_bit (values (asarray Demo.grey_a)))
    by (split; [repeat constructor; discriminate|reflexivity]).
  assert (Hy8 : eight_bit (values (asarray Demo.grey_b)))
    by (split; [repeat constructor; discriminate|reflexivity]).
  destruct (error_sum_of_squared_differences
              (asarray Demo.grey_a) (asarray Demo.grey_b)
              eq_refl Hx32 Hy32)
    as (Hex & Hnn & _ & Hdiag & Hexact).
  split.
  { split; [reflexivity|]. split; [exact Hx32|]. split; [exact Hy32|].
    split; [exact Hx8|exact Hy8]. }
  split; [exact Hex|]. split; [|exact Hdiag].
  intros r Hr. destruct (Hnn r Hr) as [H0 Hsym].
  destruct (Hexact Hx8 Hy8 r Hr) as [Hsum Herr].
  split; [exact H0|]. split; [exact Hsym|].
  split; [exact Hsum|exact Herr].
Defined.

(** One sample 134217729 = 2^27 + 1 against one sample 0, as in two
    pictures of one pixel in mode 'I': the squared difference
    2^54 + 2^28 + 1 has 55 bits, and [error] returns the binary64
    value next to it, not the sum of the squared differences. *)
Lemma error_rounds_counterexample :
  let x := {| shape := [1; 1]; values := [134217729] |} in
  let y := {| shape := [1; 1]; values := [0] |} in
  same_shape x y = true
  /\ int32 (values x) /\ int32 (values y)
  /\ error64 x y 18014398777917440
  /\ (forall r, error64 x y r -> r = 18014398777917440)
  /\ sum_sq_diff (values x) (values y) = 18014398777917441.
Proof.
  split; [reflexivity|].
  split; [repeat constructor; discriminate|].
  split; [repeat constructor; discriminate|].
  split; [split; [reflexivity|apply sum64_one]|].
  split; [|reflexivity].
  intros r [_ Hr]. now apply sum64_single in Hr.
Qed.

(** ** First minima *)

Section FirstMin.

Context {A : Type} (score : A -> Z).

Lemma first_min_unique (l : list A) (k k' : nat) (x x' : A) :
  first_min score l k x -> first_min score l k' x' -> k = k' /\ x = x'.
Proof.
  intros (Hk & Hmin & Hlt) (Hk' & Hmin' & Hlt').
  assert (k = k') as ->.
  { destruct (Nat.lt_trichotomy k k') as [H|[H|H]]; [|assumption|].
    - specialize (Hlt' k x H Hk). specialize (Hmin k' x' Hk'). lia.
    - specialize (Hlt k' x' H Hk'). specialize (Hmin' k x Hk). lia. }
  split; congruence.
Qed.

Lemma first_min_keep (seen : list A) (k : nat) (x y : A) :
  first_min score seen k x -> score x <= score y ->
  first_min score (seen ++ [y]) k x.
Proof.
  intros (Hk & Hmin & Hlt) Hle.
  assert (k < length seen)%nat by (apply nth_error_Some; congruence).
  split; [rewrite nth_error_app1; assumption|]. split.
  - intros j z Hj. destruct (Nat.lt_ge_cases j (length seen)) as [Hin|Hout].
    + rewrite nth_error_app1 in Hj by assumption. eauto.
    + rewrite nth_error_app2 in Hj by assumption.
      destruct (j - length seen)%nat as [|n]; cbn in Hj.
      * now inversion Hj; subst.
      * now destruct n.
  - intros j z Hjk Hj. rewrite nth_error_app1 in Hj by lia. eauto.
Qed.

Lemma first_min_replace (seen : list A) (k : nat) (x y : A) :
  first_min score seen k x -> score y < score x ->
  first_min score (seen ++ [y]) (length seen) y.
Proof.
  intros (Hk & Hmin & Hlt) Hyx.
  split; [now rewrite nth_error_app2, Nat.sub_diag by lia|]. split.
  - intros j z Hj. destruct (Nat.lt_ge_cases j (length seen)) as [Hin|Hout].
    + rewrite nth_error_app1 in Hj by assumption.
      specialize (Hmin j z Hj). lia.
    + rewrite nth_error_app2 in Hj by assumption.
      destruct (j - length seen)%nat as [|n]; cbn in Hj.
      * inversion Hj; subst. lia.
      * now destruct n.
  - intros j z Hjk Hj. rewrite nth_error_app1 in Hj by assumption.
    specialize (Hmin j z Hj). lia.
Qed.

Lemma first_min_single (y : A) : first_min score [y] 0 y.
Proof.
  split; [reflexivity|]. split.
  - intros [|[|j]] z Hj; cbn in Hj; try discriminate.
    inversion Hj; subst. lia.
  - intros j z Hj. lia.
Qed.

(** One step of a scan keeps what it knows up to date. *)
Lemma scanned_step (seen : list A) (min_err : number) (best : option A)
    (y : A) :
  scanned score seen min_err best ->
  scanned score (seen ++ [y])
    (if lt (score y) min_err then Fin (score y) else min_err)
    (if lt (score y) min_err then Some y else best).
Proof.
  intros [(-> & -> & ->)|(k & x & Hfm & -> & ->)]; right; cbn.
  - exists 0%nat, y. split; [apply first_min_single|auto].
  - destruct (Z.ltb_spec (score y) (score x)) as [Hlt|Hge].
    + exists (length seen), y. split; [|auto].
      now apply first_min_replace with (k := k) (x := x).
    + exists k, x. split; [|auto]. apply first_min_keep; [assumption|lia].
Qed.

Lemma best_of_scanned (l seen : list A) (min_err : number)
    (best : option A) :
  scanned score seen min_err best ->
  scanned score (seen ++ l) Inf None
  \/ exists k x, first_min score (seen ++ l) k x
                 /\ best_of score l min_err best = Some x.
Proof.
  revert seen min_err best.
  induction l as [|y l IH]; intros seen min_err best Hs.
  - rewrite app_nil_r. cbn.
    destruct Hs as [(-> & -> & ->)|(k & x & Hfm & -> & ->)].
    + left. now left.
    + right. now exists k, x.
  - apply scanned_step with (y := y) in Hs.
    apply IH in Hs. rewrite <- app_assoc in Hs. cbn [app] in Hs.
    cbn [best_of]. destruct (lt (score y) min_err); exact Hs.
Qed.

(** A scan of a non-empty list from [float('inf')] returns its first
    minimum. *)
Lemma best_of_first_min (l : list A) :
  l <> [] ->
  exists k x, best_of score l Inf None = Some x /\ first_min score l k x.
Proof.
  intros Hne.
  destruct (best_of_scanned l [] Inf None) as [H|(k & x & Hfm & Hb)].
  - left. auto.
  - cbn in H. destruct H as [(H & _)|(k & x & _ & H & _)];
      [contradiction|discriminate].
  - exists k, x. auto.
Qed.

Lemma first_min_exists (l : list A) :
  l <> [] -> exists k x, first_min score l k x.
Proof.
  intros H. destruct (best_of_first_min l H) as (k & x & _ & Hfm).
  now exists k, x.
Qed.

End FirstMin.

(** ** The scans of [find_best_match] *)

Section Matching.

Context {E : Env}.

Lemma avg_rgb_ok (image : Image) : avg_rgb image = Ok (avg_colour image).
Proof. reflexivity. Qed.

Lemma error_colours (a b : colour) :
  length b = length a ->
  error (asarray_colour a) (asarray_colour b) = Ok (sum_sq_diff a b).
Proof.
  intros H. apply error_same_shape.
  unfold same_shape, shape_eqb, asarray_colour. cbn [shape values].
  rewrite H, Nat.eqb_refl.
  now destruct (list_eq_dec Z.eq_dec _ _).
Qed.

Lemma dissimilarity_avg (target tile : Image) :
  dissimilarity "avg" target tile
  = sum_sq_diff (avg_colour target) (avg_colour tile).
Proof. reflexivity. Qed.

Lemma dissimilarity_diff (target tile : Image) :
  dissimilarity "diff" target tile
  = sum_sq_diff (data target) (data tile).
Proof. reflexivity. Qed.

Lemma scan_diff_best_of (target : Image) (tiles : list Image)
    (min_err : number) (best : option Image) :
  Forall (comparable "diff" target) tiles ->
  scan_diff target tiles min_err best
  = Ok (best_of (dissimilarity "diff" target) tiles min_err best).
Proof.
  intros Hall. revert min_err best.
  induction Hall as [|tile tiles Hc _ IH]; intros min_err best;
    [reflexivity|].
  cbn [scan_diff best_of]. change (comparable "diff" target tile)
    with (same_shape (asarray target) (asarray tile) = true) in Hc.
  rewrite (error_same_shape _ _ Hc). cbn [obind].
  rewrite dissimilarity_diff. cbn [asarray values].
  destruct (lt _ min_err); apply IH.
Qed.

Lemma scan_first_best_of (target : Image) (tiles : list Image)
    (min_err : number) (best : option Image) (s : state) :
  Forall (comparable "avg" target) tiles ->
  scan_first (avg_colour target) tiles min_err best s
  = (Ok (best_of (dissimilarity "avg" target) tiles min_err best),
     {| cached_avgs := cached_avgs s ++ averages tiles;
        trace := trace s |}).
Proof.
  intros Hall. revert min_err best s.
  induction Hall as [|tile tiles Hc _ IH]; intros min_err best s.
  - cbn. rewrite app_nil_r. now destruct s.
  - change (comparable "avg" target tile)
      with (length (avg_colour tile) = length (avg_colour target)) in Hc.
    cbn [scan_first best_of]. unfold bind at 1. rewrite avg_rgb_ok.
    unfold lift at 1. unfold bind at 1. unfold cached_append at 1.
    unfold bind at 1. unfold lift at 1. rewrite (error_colours _ _ Hc).
    rewrite dissimilarity_avg.
    destruct (lt _ min_err); rewrite IH; cbn [cached_avgs trace averages map];
      now rewrite <- app_assoc.
Qed.

Lemma index_unseen (x : colour) (seen rest : list colour) :
  ~ In x seen -> index x (seen ++ x :: rest) = Some (length seen).
Proof.
  induction seen as [|y seen IH]; intros Hnot; cbn.
  - unfold colour_eqb. now destruct (list_eq_dec Z.eq_dec x x).
  - unfold colour_eqb at 1.
    destruct (list_eq_dec Z.eq_dec y x) as [->|_].
    + exfalso. apply Hnot. now left.
    + rewrite IH; [reflexivity|]. intros H. apply Hnot. now right.
Qed.

(** The scan over a populated cache visits the cached colours, keeps
    the first one of minimal score, and answers with the tile at that
    colour's position: a colour that improves on the running minimum
    was not seen before, so [index] finds it where the loop stands.
    The lookup in [tiles] fails when [tiles] is too short. *)
Lemma scan_cached_first_min (target_avg : colour) (tiles : list Image)
    (cached : list colour) :
  Forall (fun c => length c = length target_avg) cached ->
  forall (avgs seen : list colour) (min_err : number)
         (best : option Image),
  cached = seen ++ avgs ->
  cached <> [] ->
  (seen = [] /\ min_err = Inf /\ best = None
   \/ exists k c tile, first_min (sum_sq_diff target_avg) seen k c
                       /\ min_err = Fin (sum_sq_diff target_avg c)
                       /\ nth_error tiles k = Some tile
                       /\ best = Some tile) ->
  exists k c, first_min (sum_sq_diff target_avg) cached k c
    /\ scan_cached target_avg tiles cached avgs min_err best
       = match nth_error tiles k with
         | Some tile => Ok (Some tile)
         | None => Raise IndexError
         end.
Proof.
  intros Hlen. induction avgs as [|avg avgs IH];
    intros seen min_err best Hcached Hne Hinv.
  - rewrite app_nil_r in Hcached. subst seen. cbn [scan_cached].
    destruct Hinv as [(-> & _)|(k & c & tile & Hfm & _ & Hk & ->)];
      [contradiction|].
    exists k, c. now rewrite Hk.
  - assert (Hin : In avg cached)
      by (rewrite Hcached; apply in_or_app; right; now left).
    assert (Havg : length avg = length target_avg)
      by (rewrite Forall_forall in Hlen; now apply Hlen).
    cbn [scan_cached]. rewrite (error_colours _ _ Havg). cbn [obind].
    assert (Hcached' : cached = (seen ++ [avg]) ++ avgs)
      by (now rewrite <- app_assoc).
    assert (Hindex : ~ In avg seen ->
                     index avg cached = Some (length seen))
      by (rewrite Hcached; apply index_unseen).
    destruct Hinv as [(-> & -> & ->)|(k & c & tile & Hfm & -> & Hk & ->)].
    + cbn [lt]. rewrite Hindex by auto. cbn [length].
      destruct (nth_error tiles 0) as [tile|] eqn:H0.
      * apply (IH [avg]); [assumption|assumption|]. right.
        exists 0%nat, avg, tile. split; [apply first_min_single|auto].
      * destruct (first_min_exists (sum_sq_diff target_avg) cached Hne)
          as (k & c & Hfm).
        exists k, c. split; [assumption|].
        destruct tiles; [now destruct k|discriminate].
    + cbn [lt].
      destruct (Z.ltb_spec (sum_sq_diff target_avg avg)
                           (sum_sq_diff target_avg c)) as [Hlt|Hge].
      * assert (Hnot : ~ In avg seen).
        { intros Hseen. apply In_nth_error in Hseen as (j & Hj).
          destruct Hfm as (_ & Hmin & _). specialize (Hmin j avg Hj). lia. }
        rewrite Hindex by assumption.
        destruct (nth_error tiles (length seen)) as [tile'|] eqn:Hl.
        -- apply (IH (seen ++ [avg])); [assumption|assumption|]. right.
           exists (length seen), avg, tile'.
           split; [|auto]. now apply first_min_replace with (k := k) (x := c).
        -- destruct (first_min_exists (sum_sq_diff target_avg) cached Hne)
             as (k' & c' & Hfm').
           exists k', c'. split; [assumption|].
           assert (Hk' : (length seen <= k')%nat).
           { destruct (Nat.lt_ge_cases k' (length seen)) as [Hlow|]; [|assumption].
             exfalso. destruct Hfm' as (Hk' & Hmin' & _).
             rewrite Hcached, nth_error_app1 in Hk' by assumption.
             destruct Hfm as (_ & Hmin & _). specialize (Hmin k' c' Hk').
             apply In_nth_error in Hin as (j & Hj).
             specialize (Hmin' j avg Hj). lia. }
           apply nth_error_None in Hl.
           assert (nth_error tiles k' = None) as -> by (apply nth_error_None; lia).
           reflexivity.
      * apply (IH (seen ++ [avg])); [assumption|assumption|]. right.
        exists k, c, tile. split; [|auto].
        apply first_min_keep; [assumption|lia].
Qed.

Lemma first_min_averages (target : Image) (tiles : list Image)
    (k : nat) (c : colour) :
  first_min (sum_sq_diff (avg_colour target)) (averages tiles) k c ->
  exists tile, nth_error tiles k = Some tile
               /\ first_min (dissimilarity "avg" target) tiles k tile.
Proof.
  intros (Hk & Hmin & Hlt). unfold averages in *.
  rewrite nth_error_map in Hk.
  destruct (nth_error tiles k) as [tile|] eqn:Htile; [|discriminate].
  cbn in Hk. inversion Hk; subst c. exists tile. split; [reflexivity|].
  split; [assumption|]. split.
  - intros j y Hj. rewrite !dissimilarity_avg.
    apply (Hmin j). now rewrite nth_error_map, Hj.
  - intros j y Hjk Hj. rewrite !dissimilarity_avg.
    apply (Hlt j); [assumption|]. now rewrite nth_error_map, Hj.
Qed.

Lemma find_best_match_avg_fresh (target : Image) (tiles : list Image)
    (s : state) :
  cached_avgs s = [] ->
  find_best_match target tiles "avg" s
  = scan_first (avg_colour target) tiles Inf None s.
Proof.
  intros H. unfold find_best_match. cbn [String.eqb Ascii.eqb Bool.eqb].
  unfold bind, lift, get_cached. rewrite avg_rgb_ok, H. reflexivity.
Qed.

Lemma find_best_match_avg_cached (target : Image) (tiles : list Image)
    (s : state) :
  cached_avgs s <> [] ->
  find_best_match target tiles "avg" s
  = (scan_cached (avg_colour target) tiles (cached_avgs s) (cached_avgs s)
       Inf None, s).
Proof.
  intros H. unfold find_best_match. cbn [String.eqb Ascii.eqb Bool.eqb].
  unfold bind, lift, get_cached. rewrite avg_rgb_ok.
  destruct (cached_avgs s); [contradiction|reflexivity].
Qed.

Lemma find_best_match_diff (target : Image) (tiles : list Image)
    (s : state) :
  find_best_match target tiles "diff" s
  = (scan_diff target tiles Inf None, s).
Proof. reflexivity. Qed.

Lemma averages_comparable (target : Image) (tiles : list Image) :
  Forall (comparable "avg" target) tiles ->
  Forall (fun c => length c = length (avg_colour target)) (averages tiles).
Proof.
  intros H. unfold averages. apply Forall_map.
  eapply Forall_impl; [|exact H]. intros tile Hc. exact Hc.
Qed.

(** The scan over a cache holding the averages of [tiles] returns the
    first tile of minimal dissimilarity. *)
Lemma find_best_match_avg_warm (target : Image) (tiles : list Image)
    (s : state) :
  tiles <> [] ->
  Forall (comparable "avg" target) tiles ->
  cached_avgs s = averages tiles ->
  exists k best,
    first_min (dissimilarity "avg" target) tiles k best
    /\ find_best_match target tiles "avg" s = (Ok (Some best), s).
Proof.
  intros Hne Hall Hcache.
  assert (Hne' : cached_avgs s <> []).
  { rewrite Hcache. destruct tiles; [contradiction|discriminate]. }
  rewrite find_best_match_avg_cached by assumption.
  destruct (scan_cached_first_min (avg_colour target) tiles (cached_avgs s))
    with (avgs := cached_avgs s) (seen := @nil colour)
         (min_err := Inf) (best := @None Image)
    as (k & c & Hfm & Hscan); auto.
  { rewrite Hcache. now apply averages_comparable. }
  rewrite Hcache in Hfm.
  apply first_min_averages in Hfm as (tile & Hk & Hfm).
  exists k, tile. split; [assumption|]. now rewrite Hscan, Hk.
Qed.

(** The first scan returns the first tile of minimal dissimilarity and
    leaves the averages of [tiles] in the cache. *)
Lemma find_best_match_avg_cold (target : Image) (tiles : list Image)
    (s : state) :
  tiles <> [] ->
  Forall (comparable "avg" target) tiles ->
  cached_avgs s = [] ->
  exists k best,
    first_min (dissimilarity "avg" target) tiles k best
    /\ find_best_match target tiles "avg" s
       = (Ok (Some best),
          {| cached_avgs := averages tiles; trace := trace s |}).
Proof.
  intros Hne Hall Hcache.
  rewrite find_best_match_avg_fresh, scan_first_best_of, Hcache by assumption.
  destruct (best_of_first_min (dissimilarity "avg" target) tiles Hne)
    as (k & best & -> & Hfm).
  now exists k, best.
Qed.

Lemma error_colours_mismatch (a b : colour) :
  length b <> length a ->
  error (asarray_colour a) (asarray_colour b) = Raise ValueError_shape.
Proof.
  intros H. unfold error, same_shape, shape_eqb, asarray_colour.
  cbn [shape values].
  destruct (list_eq_dec Z.eq_dec _ _) as [Heq|_]; [|reflexivity].
  exfalso. apply H. injection Heq as Heq. lia.
Qed.

(** The two scans of the 'avg' branch step together: over the tiles
    in one, over their cached averages in the other.  They find the
    same improvements, look up the same tiles, and stop with the same
    exception at the first tile whose average cannot be compared. *)
Lemma scan_first_scan_cached (target : Image) (tiles : list Image) :
  forall (rest seen : list Image) (min_err : number)
         (best : option Image) (s : state),
  tiles = seen ++ rest ->
  scanned (dissimilarity "avg" target) seen min_err best ->
  fst (scan_first (avg_colour target) rest min_err best s)
  = scan_cached (avg_colour target) tiles (averages tiles)
      (averages rest) min_err best.
Proof.
  induction rest as [|tile rest IH]; intros seen min_err best s Htiles Hs;
    [reflexivity|].
  cbn [scan_first averages map scan_cached].
  unfold bind at 1, lift at 1. rewrite avg_rgb_ok.
  unfold bind at 1, cached_append at 1. unfold bind at 1, lift at 1.
  destruct (Nat.eq_dec (length (avg_colour tile))
                       (length (avg_colour target))) as [Hc|Hc].
  - rewrite (error_colours _ _ Hc). cbn [obind].
    pose proof (scanned_step _ _ _ _ tile Hs) as Hstep.
    rewrite <- dissimilarity_avg.
    assert (Htiles' : tiles = (seen ++ [tile]) ++ rest)
      by (now rewrite <- app_assoc).
    destruct (lt (dissimilarity "avg" target tile) min_err) eqn:Hlt.
    + assert (Hnot : ~ In (avg_colour tile) (averages seen)).
      { intros Hin. apply in_map_iff in Hin as (y & Havg & Hy).
        destruct Hs as [(-> & _)|(k & x & (_ & Hmin & _) & -> & _)];
          [contradiction|].
        apply In_nth_error in Hy as (j & Hj). specialize (Hmin j y Hj).
        cbn [lt] in Hlt. apply Z.ltb_lt in Hlt.
        rewrite !dissimilarity_avg in *. rewrite Havg in Hmin. lia. }
      assert (Hidx : index (avg_colour tile) (averages tiles)
                     = Some (length seen)).
      { rewrite Htiles. unfold averages in *. rewrite map_app. cbn [map].
        rewrite index_unseen by assumption. now rewrite length_map. }
      rewrite Hidx.
      assert (nth_error tiles (length seen) = Some tile) as ->
        by (now rewrite Htiles, nth_error_app2, Nat.sub_diag by lia).
      now apply (IH (seen ++ [tile])).
    + now apply (IH (seen ++ [tile])).
  - now rewrite (error_colours_mismatch _ _ Hc).
Qed.

(** In 'avg' mode a call from an empty cache and a call from the cache
    that holds the averages of the same tiles end alike, for every
    collection of tiles: with the same tile, or with the same exception. *)
Lemma avg_cache_same_outcome (target : Image) (tiles : list Image)
    (tr : list event) :
  fst (find_best_match target tiles "avg"
         {| cached_avgs := []; trace := tr |})
  = fst (find_best_match target tiles "avg"
           {| cached_avgs := averages tiles; trace := tr |}).
Proof.
  destruct tiles as [|tile tiles]; [reflexivity|].
  rewrite find_best_match_avg_fresh by reflexivity.
  rewrite find_best_match_avg_cached by discriminate.
  cbn [fst cached_avgs].
  apply (scan_first_scan_cached target (tile :: tiles) (tile :: tiles) []);
    [reflexivity|now left].
Qed.

(** Under either method the dissimilarity of a tile of 8-bit samples to
    a cell of 8-bit samples is what [error] returns in binary64 for
    the two operands of [find_best_match]. *)
Lemma dissimilarity_exact (method : string) (target tile : Image) (r : Z) :
  eight_bit (compared method target) ->
  eight_bit (compared method tile) ->
  error64 (operand method target) (operand method tile) r ->
  r = dissimilarity method target tile.
Proof.
  unfold compared, operand, dissimilarity.
  destruct (String.eqb method "avg"); intros Hc Ht Hr.
  - now destruct (error64_exact (asarray_colour (avg_colour target))
                    (asarray_colour (avg_colour tile)) r Hc Ht Hr).
  - now destruct (error64_exact (asarray target) (asarray tile) r Hc Ht Hr).
Qed.

(** C4.  For a cell and a non-empty collection of tiles that can be
    compared with it, all of 8-bit samples, [find_best_match] returns
    in 'diff' mode, and in 'avg' mode when the cache is empty or holds
    the averages of these tiles, a tile of minimal dissimilarity, and
    among those the one at the lowest position: every tile before it is
    strictly worse.  On such samples the dissimilarity of every tile is
    the value [error] has for it in binary64. *)
Theorem find_best_match_first_minimum (target : Image)
    (tiles : list Image) (method : string) (s : state) :
  method = "avg"%string \/ method = "diff"%string ->
  tiles <> [] ->
  Forall (comparable method target) tiles ->
  eight_bit (compared method target) ->
  Forall (fun tile => eight_bit (compared method tile)) tiles ->
  (method = "avg"%string ->
   cached_avgs s = [] \/ cached_avgs s = averages tiles) ->
  (exists k best s',
     find_best_match target tiles method s = (Ok (Some best), s')
     /\ nth_error tiles k = Some best
     /\ (forall j tile, nth_error tiles j = Some tile ->
          dissimilarity method target best
          <= dissimilarity method target tile)
     /\ (forall j tile, (j < k)%nat -> nth_error tiles j = Some tile ->
          dissimilarity method target best
          < dissimilarity method target tile))
  /\ (forall tile r, In tile tiles ->
        error64 (operand method target) (operand method tile) r ->
        r = dissimilarity method target tile).
Proof.
  intros Hmethod Hne Hall Hcell Htiles Hcache. split.
  - destruct Hmethod as [->| ->].
    + destruct (Hcache eq_refl) as [Hcold|Hwarm].
      * destruct (find_best_match_avg_cold target tiles s Hne Hall Hcold)
          as (k & best & Hfm & Hrun).
        exists k, best. eexists. split; [exact Hrun|exact Hfm].
      * destruct (find_best_match_avg_warm target tiles s Hne Hall Hwarm)
          as (k & best & Hfm & Hrun).
        exists k, best, s. split; [exact Hrun|exact Hfm].
    + rewrite find_best_match_diff, scan_diff_best_of by assumption.
      destruct (best_of_first_min (dissimilarity "diff" target) tiles Hne)
        as (k & best & -> & Hfm).
      exists k, best, s. split; [reflexivity|exact Hfm].
  - intros tile r Hin. apply dissimilarity_exact; [assumption|].
    rewrite Forall_forall in Htiles. now apply Htiles.
Qed.

(** C1.  In 'avg' mode, matching a cell against a non-empty collection
    of tiles ends alike from an empty cache, where the scan computes and
    appends every tile's average, and from a cache that already holds
    those averages in order, where the winner is looked up with
    [index]: the same tile is returned, also when tiles share an
    average colour.  When the averages can be compared with the cell's,
    that tile is the first of minimal dissimilarity, and either way the
    cache ends as the averages of the tiles. *)
Theorem avg_cache_equivalence (target : Image) (tiles : list Image)
    (tr : list event) :
  tiles <> [] ->
  fst (find_best_match target tiles "avg"
         {| cached_avgs := []; trace := tr |})
  = fst (find_best_match target tiles "avg"
           {| cached_avgs := averages tiles; trace := tr |})
  /\ (Forall (comparable "avg" target) tiles ->
      exists k best,
        first_min (dissimilarity "avg" target) tiles k best
        /\ find_best_match target tiles "avg"
             {| cached_avgs := []; trace := tr |}
           = (Ok (Some best),
              {| cached_avgs := averages tiles; trace := tr |})
        /\ find_best_match target tiles "avg"
             {| cached_avgs := averages tiles; trace := tr |}
           = (Ok (Some best),
              {| cached_avgs := averages tiles; trace := tr |})).
Proof.
  intros Hne. split; [apply avg_cache_same_outcome|]. intros Hall.
  destruct (find_best_match_avg_cold target tiles
              {| cached_avgs := []; trace := tr |} Hne Hall eq_refl)
    as (k & best & Hfm & Hcold).
  destruct (find_best_match_avg_warm target tiles
              {| cached_avgs := averages tiles; trace := tr |}
              Hne Hall eq_refl)
    as (k' & best' & Hfm' & Hwarm).
  destruct (first_min_unique _ _ _ _ _ _ Hfm Hfm') as (<- & <-).
  exists k, best. auto.
Qed.

End Matching.

Lemma find_best_match_first_minimum_witness :
  let target := Demo.dark_cell in
  let tiles := Demo.palette in
  let s := {| cached_avgs := averages (E := Demo.plain) tiles;
              trace := [] |} in
  (tiles <> []
   /\ Forall (comparable (E := Demo.plain) "avg" target) tiles
   /\ eight_bit (compared (E := Demo.plain) "avg" target)
   /\ Forall (fun tile => eight_bit (compared (E := Demo.plain) "avg" tile))
        tiles)
  /\ (exists k best s',
        find_best_match (E := Demo.plain) target tiles "avg" s
        = (Ok (Some best), s')
        /\ nth_error tiles k = Some best
        /\ (forall j tile, nth_error tiles j = Some tile ->
            dissimilarity (E := Demo.plain) "avg" target best
            <= dissimilarity (E := Demo.plain) "avg" target tile)
        /\ (forall j tile, (j < k)%nat -> nth_error tiles j = Some tile ->
            dissimilarity (E := Demo.plain) "avg" target best
            < dissimilarity (E := Demo.plain) "avg" target tile))
  /\ (forall tile r, In tile tiles ->
        error64 (operand (E := Demo.plain) "avg" target)
          (operand (E := Demo.plain) "avg" tile) r ->
        r = dissimilarity (E := Demo.plain) "avg" target tile).
Proof.
  assert (Hne : Demo.palette <> []) by discriminate.
  assert (Hall : Forall (comparable (E := Demo.plain) "avg" Demo.dark_cell)
                   Demo.palette)
    by (repeat constructor).
  assert (Hcell : eight_bit (compared (E := Demo.plain) "avg" Demo.dark_cell))
    by (split; [repeat constructor; discriminate|reflexivity]).
  assert (Htiles : Forall (fun tile =>
                             eight_bit (compared (E := Demo.plain) "avg" tile))
                     Demo.palette)
    by (repeat constructor; discriminate).
  split.
  { split; [exact Hne|]. split; [exact Hall|].
    split; [exact Hcell|exact Htiles]. }
  apply (find_best_match_first_minimum (E := Demo.plain)
           Demo.dark_cell Demo.palette "avg"
           {| cached_avgs := averages (E := Demo.plain) Demo.palette;
              trace := [] |});
    [now left|exact Hne|exact Hall|exact Hcell|exact Htiles|].
  intros _. now right.
Defined.

(** The scan of 'diff' mode, on the same cell and tiles. *)
Example find_best_match_diff_first_minimum :
  find_best_match (E := Demo.plain) Demo.dark_cell Demo.palette "diff"
    initial
  = (Ok (best_tile (E := Demo.plain) "diff" Demo.palette Demo.dark_cell),
     initial).
Proof. vm_compute. reflexivity. Qed.

(** A cache populated from [red; blue] and a later call, in 'avg' mode,
    with [blue; red]: the cell is matched with the blue tile, the one at
    the position the cached average of the red tile has, although the red
    tile is in the collection and is strictly nearer to the cell. *)
Lemma find_best_match_stale_cache_counterexample :
  let cell := Demo.reddish_cell in
  let tiles := [Demo.blue; Demo.red] in
  snd (find_best_match (E := Demo.plain) cell [Demo.red; Demo.blue] "avg"
         initial) = Demo.stale
  /\ tiles <> []
  /\ Forall (comparable (E := Demo.plain) "avg" cell) tiles
  /\ find_best_match (E := Demo.plain) cell tiles "avg" Demo.stale
     = (Ok (Some Demo.blue), Demo.stale)
  /\ nth_error tiles 1 = Some Demo.red
  /\ dissimilarity (E := Demo.plain) "avg" cell Demo.red
     < dissimilarity (E := Demo.plain) "avg" cell Demo.blue.
Proof.
  split; [vm_compute; reflexivity|].
  split; [discriminate|].
  split; [repeat constructor|].
  split; [vm_compute; reflexivity|].
  split; [reflexivity|]. vm_compute. reflexivity.
Qed.

Lemma avg_cache_equivalence_witness :
  let target := Demo.dark_cell in
  let tiles := Demo.palette in
  (tiles <> [] /\ Forall (comparable (E := Demo.plain) "avg" target) tiles)
  /\ fst (find_best_match (E := Demo.plain) target tiles "avg"
            {| cached_avgs := []; trace := [] |})
     = fst (find_best_match (E := Demo.plain) target tiles "avg"
              {| cached_avgs := averages (E := Demo.plain) tiles;
                 trace := [] |})
  /\ exists k best,
       first_min (dissimilarity (E := Demo.plain) "avg" target) tiles k best
       /\ find_best_match (E := Demo.plain) target tiles "avg"
            {| cached_avgs := []; trace := [] |}
          = (Ok (Some best),
             {| cached_avgs := averages (E := Demo.plain) tiles;
                trace := [] |})
       /\ find_best_match (E := Demo.plain) target tiles "avg"
            {| cached_avgs := averages (E := Demo.plain) tiles;
               trace := [] |}
          = (Ok (Some best),
             {| cached_avgs := averages (E := Demo.plain) tiles;
                trace := [] |}).
Proof.
  assert (Hne : Demo.palette <> []) by discriminate.
  assert (Hall : Forall (comparable (E := Demo.plain) "avg" Demo.dark_cell)
                   Demo.palette)
    by (repeat constructor).
  split; [split; assumption|].
  destruct (avg_cache_equivalence (E := Demo.plain)
              Demo.dark_cell Demo.palette [] Hne) as (Hsame & Hbest).
  split; [exact Hsame|exact (Hbest Hall)].
Defined.

(** Two tiles of one average colour: the first of them is returned from
    an empty cache and from a populated one. *)
Example shared_average_same_tile :
  averages (E := Demo.plain) [Demo.grey_a; Demo.grey_b]
  = [[100; 100; 100]; [100; 100; 100]]
  /\ Demo.grey_a <> Demo.grey_b
  /\ fst (find_best_match (E := Demo.plain) Demo.dark_cell Demo.palette "avg"
            initial)
     = Ok (Some Demo.grey_a)
  /\ fst (find_best_match (E := Demo.plain) Demo.dark_cell Demo.palette "avg"
            {| cached_avgs := averages (E := Demo.plain) Demo.palette;
               trace := [] |})
     = Ok (Some Demo.grey_a).
Proof.
  split; [reflexivity|]. split; [discriminate|].
  split; vm_compute; reflexivity.
Qed.

(** ** The cache across calls *)

Section Cache.

Context {E : Env}.

Lemma stable_ret {A : Type} (a : A) : stable (ret a).
Proof. intros s. exists []. cbn. now rewrite app_nil_r. Qed.

Lemma stable_lift {A : Type} (o : outcome A) : stable (lift o).
Proof. intros s. exists []. cbn. now rewrite app_nil_r. Qed.

Lemma stable_raise {A : Type} (e : exn) : stable (@raise A e).
Proof. intros s. exists []. cbn. now rewrite app_nil_r. Qed.

Lemma stable_emit (e : event) : stable (emit e).
Proof. intros s. exists []. cbn. now rewrite app_nil_r. Qed.

Lemma stable_bind {A B : Type} (c : M A) (k : A -> M B) :
  stable c -> (forall a, stable (k a)) -> stable (bind c k).
Proof.
  intros Hc Hk s. unfold bind.
  destruct (Hc s) as (added & Hadd & Hkeep).
  destruct (c s) as [[a|e] s1]; cbn [snd] in *.
  - destruct (Hk a s1) as (added' & Hadd' & Hkeep').
    exists (added ++ added'). split.
    + now rewrite Hadd', Hadd, app_assoc.
    + intros Hne. rewrite (Hkeep Hne) in *. rewrite app_nil_r in Hadd.
      rewrite Hkeep'; [reflexivity|congruence].
  - now exists added.
Qed.

Create HintDb stable.
#[local] Hint Resolve stable_ret stable_lift stable_raise stable_emit
  : stable.

Ltac stable_steps :=
  repeat first
    [ apply stable_bind; [|intros ?]
    | solve [auto with stable] ].

Lemma stable_update (p : ProgressCounter) : stable (update p).
Proof. unfold update. stable_steps. Qed.

Lemma stable_get_target (image : string) (tile_size : Z * Z) (scale : Z) :
  stable (get_target image tile_size scale).
Proof.
  unfold get_target. stable_steps.
  destruct (_ || _); auto with stable.
Qed.

Lemma stable_get_tiles_loop (tiles_path : string) (tile_size : Z * Z)
    (m : string) (files : list string) :
  forall tiles progress,
    stable (get_tiles_loop tiles_path tile_size m files tiles progress).
Proof.
  induction files as [|file files IH]; intros tiles progress;
    cbn [get_tiles_loop]; [auto with stable|].
  stable_steps.
Qed.

Lemma stable_get_tiles (tiles_path : string) (tile_size : Z * Z)
    (m : string) : stable (get_tiles tiles_path tile_size m).
Proof.
  unfold get_tiles, print. stable_steps. apply stable_get_tiles_loop.
Qed.

(** The first scan only appends. *)
Lemma scan_first_appends (target_avg : colour) (tiles : list Image) :
  forall min_err best s, exists added,
    cached_avgs (snd (scan_first target_avg tiles min_err best s))
    = cached_avgs s ++ added.
Proof.
  induction tiles as [|tile tiles IH]; intros min_err best s.
  - exists []. cbn. now rewrite app_nil_r.
  - cbn [scan_first]. unfold bind at 1, lift at 1.
    destruct (avg_rgb tile) as [tile_avg|e]; [|exists []; cbn; now rewrite app_nil_r].
    unfold bind at 1, cached_append at 1. unfold bind at 1, lift at 1.
    destruct (error _ _) as [err|e].
    + destruct (lt err min_err);
        match goal with
        | |- context [scan_first _ _ ?m ?b ?s'] =>
            destruct (IH m b s') as (added & Hadd)
        end;
        exists ([tile_avg] ++ added); rewrite Hadd; cbn [cached_avgs];
        now rewrite <- app_assoc.
    + exists [tile_avg]. reflexivity.
Qed.

Lemma stable_find_best_match (target : Image) (tiles : list Image)
    (method : string) : stable (find_best_match target tiles method).
Proof.
  unfold find_best_match.
  destruct (String.eqb method "avg").
  - intros s. unfold bind at 1, lift at 1.
    destruct (avg_rgb target) as [target_avg|e];
      [|exists []; cbn; now rewrite app_nil_r].
    unfold bind, get_cached. destruct (cached_avgs s) as [|c cached] eqn:Hc.
    + destruct (scan_first_appends target_avg tiles Inf None s)
        as (added & Hadd).
      exists added. rewrite Hadd, Hc. split; [reflexivity|congruence].
    + exists []. cbn [lift snd]. rewrite Hc, app_nil_r. auto.
  - destruct (String.eqb method "diff"); unfold print; stable_steps.
Qed.

Lemma stable_match_row (tiles : list Image) (method : string)
    (row : list Image) :
  forall mosaic_row, stable (match_row row tiles method mosaic_row).
Proof.
  induction row as [|cell row IH]; intros mosaic_row; cbn [match_row];
    [auto with stable|].
  apply stable_bind; [apply stable_find_best_match|intros ?; apply IH].
Qed.

Lemma stable_match_grid (tiles : list Image) (method : string)
    (grid : list (list Image)) :
  forall mosaic_tiles progress,
    stable (match_grid grid tiles method mosaic_tiles progress).
Proof.
  induction grid as [|row grid IH]; intros mosaic_tiles progress;
    cbn [match_grid]; [auto with stable|].
  apply stable_bind; [apply stable_match_row|intros ?].
  apply stable_bind; [apply stable_update|intros ?; apply IH].
Qed.

Lemma stable_mosaic (image : Image) (tiles : list Image)
    (tile_size : Z * Z) (out_file m method : string) :
  stable (mosaic image tiles tile_size out_file m method).
Proof.
  unfold mosaic, print. destruct tile_size as [tile_w tile_h].
  apply stable_bind; [auto with stable|intros grid].
  apply stable_bind; [auto with stable|intros _].
  apply stable_bind; [apply stable_match_grid|intros mosaic_tiles].
  stable_steps.
Qed.

Lemma stable_main (argv : list string) : stable (main argv).
Proof.
  unfold main, usage, print.
  destruct argv as [|prog [|image [|tiles_path [|out_file [|a4 [|a5
    [|method [|extra argv]]]]]]]];
    try solve [stable_steps].
  apply stable_bind; [auto with stable|intros size].
  apply stable_bind; [auto with stable|intros scale].
  destruct (_ && _); [stable_steps|].
  apply stable_bind; [apply stable_get_target|intros target].
  destruct (_ >? _); [stable_steps|].
  apply stable_bind; [apply stable_get_tiles|intros tiles].
  apply stable_bind; [apply stable_mosaic|intros _]. auto with stable.
Qed.

(** C10.  No call clears or overwrites the cache: [find_best_match],
    [mosaic] and [main] leave it as it was or append to it, and leave a
    populated cache untouched, so it persists from call to call.  With a
    populated cache the 'avg' branch decides by the cached colours
    alone, whatever collection they came from: it finds the first
    cached colour nearest to the cell's average and answers with the
    tile at that position of the collection it was given, or raises
    [IndexError] when that collection is too short. *)
Theorem cache_persists_and_decides (target : Image) (tiles : list Image)
    (method : string) (s : state) :
  (exists added,
     cached_avgs (snd (find_best_match target tiles method s))
     = cached_avgs s ++ added
     /\ (cached_avgs s <> [] -> added = []))
  /\ (forall image tile_size out_file m,
        stable (mosaic image tiles tile_size out_file m method))
  /\ (forall argv, stable (main argv))
  /\ (cached_avgs s <> [] ->
      Forall (fun c => length c = length (avg_colour target))
        (cached_avgs s) ->
      exists k c,
        first_min (sum_sq_diff (avg_colour target)) (cached_avgs s) k c
        /\ find_best_match target tiles "avg" s
           = (match nth_error tiles k with
              | Some tile => Ok (Some tile)
              | None => Raise IndexError
              end, s)).
Proof.
  split; [apply stable_find_best_match|].
  split; [intros; apply stable_mosaic|].
  split; [apply stable_main|].
  intros Hne Hlen. rewrite find_best_match_avg_cached by assumption.
  destruct (scan_cached_first_min (avg_colour target) tiles (cached_avgs s)
              Hlen (cached_avgs s) [] Inf None eq_refl Hne)
    as (k & c & Hfm & Hscan); [now left|].
  exists k, c. split; [assumption|]. now rewrite Hscan.
Qed.

End Cache.

Lemma cache_persists_and_decides_witness :
  let target := Demo.reddish_cell in
  let tiles := [Demo.blue; Demo.red] in
  let s := Demo.stale in
  (cached_avgs s <> []
   /\ Forall (fun c => length c = length (avg_colour (E := Demo.plain) target))
        (cached_avgs s))
  /\ exists k c,
       first_min (sum_sq_diff (avg_colour (E := Demo.plain) target))
         (cached_avgs s) k c
       /\ find_best_match (E := Demo.plain) target tiles "avg" s
          = (match nth_error tiles k with
             | Some tile => Ok (Some tile)
             | None => Raise IndexError
             end, s).
Proof.
  assert (Hne : cached_avgs Demo.stale <> []) by discriminate.
  assert (Hlen : Forall (fun c => length c
                   = length (avg_colour (E := Demo.plain) Demo.reddish_cell))
                   (cached_avgs Demo.stale))
    by (repeat constructor).
  split; [split; assumption|].
  destruct (cache_persists_and_decides (E := Demo.plain) Demo.reddish_cell
              [Demo.blue; Demo.red] "avg" Demo.stale)
    as (_ & _ & _ & Hdecides).
  exact (Hdecides Hne Hlen).
Defined.

(** A cache populated from [red; blue] and a later call with
    [blue; red]: the reddish cell is matched with the blue tile, the
    one at the position of the cached red, although the red tile is in
    the collection; with the cache empty the red tile is returned. *)
Example stale_cache_wrong_tile :
  snd (find_best_match (E := Demo.plain) Demo.reddish_cell
         [Demo.red; Demo.blue] "avg" initial) = Demo.stale
  /\ find_best_match (E := Demo.plain) Demo.reddish_cell
       [Demo.blue; Demo.red] "avg" Demo.stale
     = (Ok (Some Demo.blue), Demo.stale)
  /\ fst (find_best_match (E := Demo.plain) Demo.reddish_cell
            [Demo.blue; Demo.red] "avg" initial)
     = Ok (Some Demo.red)
  /\ fst (find_best_match (E := Demo.plain) Demo.reddish_cell
            [Demo.blue] "avg" Demo.stale)
     = Ok (Some Demo.blue)
  /\ fst (find_best_match (E := Demo.plain) Demo.reddish_cell
            [] "avg" Demo.stale)
     = Raise IndexError.
Proof. repeat split; vm_compute; reflexivity. Qed.

(** ** Sizes: the prepared target, the tile box, the output *)

Section Geometry.

Context {E : Env}.

(** What is left of a length [w] when half the remainder modulo [t],
    rounded down, is cut from each end. *)
Lemma trim_remainder (w t : Z) :
  0 < t -> (w - 2 * (w mod t / 2)) mod t = (w mod t) mod 2.
Proof.
  intros Ht. pose proof (Z.mod_pos_bound w t Ht) as Hr.
  pose proof (Z.div_mod w t) as Hw.
  pose proof (Z.div_mod (w mod t) 2) as Hr2.
  pose proof (Z.mod_pos_bound (w mod t) 2) as Hb.
  replace (w - 2 * (w mod t / 2)) with ((w mod t) mod 2 + (w / t) * t) by lia.
  rewrite Z.mod_add by lia. apply Z.mod_small. lia.
Qed.

(** [get_target] on a readable, non-empty picture: the target is the
    scaled picture less half of each remainder, rounded down, on every
    side. *)
Lemma get_target_size (image : string) (tile_size : Z * Z) (scale : Z)
    (s : state) (img : Image) :
  image_open image = Ok img ->
  0 < width img -> 0 < height img -> 0 < scale ->
  fst tile_size <> 0 ->
  exists target,
    get_target image tile_size scale s
    = (Ok target, {| cached_avgs := cached_avgs s;
                     trace := trace s ++ [Opened image] |})
    /\ width target
       = width img * scale
         - 2 * ((width img * scale) mod fst tile_size / 2)
    /\ height target
       = height img * scale
         - 2 * ((height img * scale) mod fst tile_size / 2).
Proof.
  intros Hopen Hw Hh Hs Ht. unfold get_target.
  unfold bind at 1, emit at 1. unfold bind at 1, lift at 1. rewrite Hopen.
  unfold bind at 1, lift at 1, resize. cbn [fst snd].
  assert ((width img * scale <? 1) = false) as -> by (apply Z.ltb_ge; nia).
  assert ((height img * scale <? 1) = false) as -> by (apply Z.ltb_ge; nia).
  cbn [orb]. unfold bind at 1, lift at 1, modulo.
  assert (Ht' : (fst tile_size =? 0) = false) by (now apply Z.eqb_neq).
  rewrite Ht'. unfold bind at 1, lift at 1.
  set (w := width img * scale). set (h := height img * scale).
  set (t := fst tile_size).
  destruct (truthy (w mod t / 2) || truthy (h mod t / 2)) eqn:Hcrop.
  - eexists. split; [reflexivity|]. cbn [crop width height]. lia.
  - eexists. split; [reflexivity|]. cbn [width height].
    apply orb_false_elim in Hcrop as [Hwr Hhr]. unfold truthy in *.
    apply negb_false_iff in Hwr, Hhr. apply Z.eqb_eq in Hwr, Hhr.
    rewrite Hwr, Hhr. subst w h. lia.
Qed.


End Geometry.

(** C2.  A 7 x 7 picture prepared for tiles of size 4 at scale 1:
    the remainder 3 is odd, one pixel is cut from each side, and the
    target [get_target] returns is 5 x 5, one more than a multiple of
    the tile size on both axes. *)
Theorem get_target_odd_remainder :
  exists target s,
    get_target (E := Demo.bare) "target.png" (4, 4) 1 initial
    = (Ok target, s)
    /\ size target = (5, 5)
    /\ (width target) mod 4 = 1
    /\ (height target) mod 4 = 1.
Proof.
  destruct (get_target_size (E := Demo.bare) "target.png" (4, 4) 1 initial
              Demo.picture eq_refl)
    as (target & Hrun & Hw & Hh); try (cbn; lia).
  exists target. eexists. split; [exact Hrun|].
  unfold size. rewrite Hw, Hh. repeat split.
Qed.

(** C5.  A 5 x 2 tile: the box [process_tile] resizes from is
    (1, 0, 4, 2), a region of 3 x 2 pixels and no 2 x 2 square. *)
Theorem process_tile_box_odd_difference :
  process_tile_box Demo.banner = (1, 0, 4, 2)
  /\ (forall sz, process_tile (E := Demo.plain) Demo.banner sz
                 = resize (E := Demo.plain) Demo.banner sz (1, 0, 4, 2))
  /\ Z.min (width Demo.banner) (height Demo.banner) = 2
  /\ 4 - 1 <> 2.
Proof.
  assert (Hbox : process_tile_box Demo.banner = (1, 0, 4, 2)) by reflexivity.
  split; [exact Hbox|]. split.
  - intros sz. unfold process_tile. now rewrite Hbox.
  - split; [reflexivity|lia].
Qed.

(** ** The compositor *)

Section Compositor.

Context {E : Env}.

Lemma bind_ok {A B : Type} (c : M A) (k : A -> M B) (s s' : state)
    (b : B) :
  bind c k s = (Ok b, s') ->
  exists a s1, c s = (Ok a, s1) /\ k a s1 = (Ok b, s').
Proof.
  unfold bind. destruct (c s) as [[a|e] s1]; intros H;
    [now exists a, s1|discriminate].
Qed.

Lemma paste_size (out out' : Image) (im : option Image) (xy : Z * Z) :
  paste out im xy = Ok out' -> size out' = size out.
Proof.
  destruct im as [tile|]; [|discriminate]. destruct xy as [x0 y0].
  cbn. intros H. inversion H. reflexivity.
Qed.

Lemma paste_row_size (row : list (option Image)) (tile_w tile_h i : Z) :
  forall out out' j,
    paste_row out row tile_w tile_h i j = Ok out' -> size out' = size out.
Proof.
  induction row as [|tile row IH]; intros out out' j H; cbn in H.
  - now inversion H.
  - destruct (paste out tile _) as [out1|e] eqn:Hp; [|discriminate].
    cbn in H. apply IH in H. apply paste_size in Hp. congruence.
Qed.

Lemma paste_grid_size (rows : list (list (option Image)))
    (tile_w tile_h : Z) :
  forall out out' i,
    paste_grid out rows tile_w tile_h i = Ok out' -> size out' = size out.
Proof.
  induction rows as [|row rows IH]; intros out out' i H; cbn in H.
  - now inversion H.
  - destruct (paste_row out row _ _ _ _) as [out1|e] eqn:Hp; [|discriminate].
    cbn in H. apply IH in H. apply paste_row_size in Hp. congruence.
Qed.

(** The grid has [height // tile_h] rows of [width // tile_w] cells. *)
Lemma gridify_dims (image : Image) (tile_w tile_h : Z)
    (grid : list (list Image)) :
  gridify image (tile_w, tile_h) = Ok grid ->
  length grid = Z.to_nat (height image / tile_h)
  /\ Forall (fun row => length row = Z.to_nat (width image / tile_w)) grid.
Proof.
  unfold gridify, floordiv.
  destruct (tile_h =? 0); [discriminate|].
  destruct (tile_w =? 0); [discriminate|]. cbn [obind].
  intros H. inversion H. split.
  - unfold range. now rewrite !length_map, length_seq.
  - apply Forall_map, Forall_forall. intros i _.
    unfold range. now rewrite !length_map, length_seq.
Qed.

(** A run of [mosaic] that comes to an end saved a picture of the
    size of the image it was given, and of the size of its grid times
    the tile size exactly when the tile size divides both
    dimensions. *)
Lemma mosaic_saved (image : Image) (tiles : list Image)
    (tile_w tile_h : Z) (out_file m method : string) (s s' : state) :
  mosaic image tiles (tile_w, tile_h) out_file m method s = (Ok tt, s') ->
  exists tr out grid,
    trace s' = tr ++ [Saved out_file out; Print "Done."]
    /\ size out = size image
    /\ gridify image (tile_w, tile_h) = Ok grid.
Proof.
  unfold mosaic. intros H.
  apply bind_ok in H as (grid & s1 & Hgrid & H).
  apply bind_ok in H as ([] & s2 & _ & H).
  apply bind_ok in H as (mosaic_tiles & s3 & _ & H).
  apply bind_ok in H as ([] & s4 & _ & H).
  apply bind_ok in H as ([] & s5 & _ & H).
  apply bind_ok in H as (out & s6 & Hpaste & H).
  apply bind_ok in H as ([] & s7 & Hsave & H).
  apply bind_ok in H as ([] & s8 & Hemit & H).
  unfold lift in Hgrid, Hpaste, Hsave. unfold emit in Hemit.
  unfold print, emit in H.
  injection Hgrid as Hgrid _. injection Hpaste as Hpaste _.
  injection Hsave as _ Hs7. injection Hemit as Hs8. injection H as Hs'.
  subst s' s8 s7. cbn [trace].
  exists (trace s6), out, grid. split; [now rewrite <- app_assoc|].
  split; [|assumption].
  now apply paste_grid_size in Hpaste.
Qed.

(** C3, as the code has it.  The picture [mosaic] saves has the size
    of the prepared target it was given ([image.size], line 139); the
    grid has [height // tile_h] rows of [width // tile_w] cells, and the
    output is the grid times the tile size exactly when the tile
    size divides the target's width and height. *)
Theorem mosaic_output_has_target_size (image : Image)
    (tiles : list Image) (tile_w tile_h : Z)
    (out_file m method : string) (s s' : state) :
  0 < tile_w -> 0 < tile_h ->
  mosaic image tiles (tile_w, tile_h) out_file m method s = (Ok tt, s') ->
  exists tr out grid,
    trace s' = tr ++ [Saved out_file out; Print "Done."]
    /\ size out = size image
    /\ gridify image (tile_w, tile_h) = Ok grid
    /\ length grid = Z.to_nat (height image / tile_h)
    /\ Forall (fun row => length row = Z.to_nat (width image / tile_w)) grid
    /\ (size out = (width image / tile_w * tile_w,
                    height image / tile_h * tile_h)
        <-> (width image) mod tile_w = 0 /\ (height image) mod tile_h = 0).
Proof.
  intros Hw Hh Hrun.
  destruct (mosaic_saved _ _ _ _ _ _ _ _ _ Hrun)
    as (tr & out & grid & Htrace & Hsize & Hgrid).
  destruct (gridify_dims _ _ _ _ Hgrid) as (Hrows & Hcols).
  exists tr, out, grid. repeat (split; [assumption|]).
  rewrite Hsize. unfold size.
  pose proof (Z.div_mod (width image) tile_w).
  pose proof (Z.div_mod (height image) tile_h).
  split.
  - intros Heq. inversion Heq. lia.
  - intros [H1 H2]. f_equal; lia.
Qed.

End Compositor.

Lemma mosaic_output_has_target_size_witness :
  exists s',
    (0 < 4 /\ 0 < 4
     /\ mosaic (E := Demo.plain) Demo.prepared [Demo.tile4] (4, 4)
          "out.png" "RGB" "diff" initial = (Ok tt, s'))
    /\ exists tr out grid,
         trace s' = tr ++ [Saved "out.png" out; Print "Done."]
         /\ size out = size Demo.prepared
         /\ gridify Demo.prepared (4, 4) = Ok grid
         /\ length grid = Z.to_nat (height Demo.prepared / 4)
         /\ Forall (fun row => length row
                               = Z.to_nat (width Demo.prepared / 4)) grid
         /\ (size out = (width Demo.prepared / 4 * 4,
                         height Demo.prepared / 4 * 4)
             <-> (width Demo.prepared) mod 4 = 0
                 /\ (height Demo.prepared) mod 4 = 0).
Proof.
  eexists. split.
  - split; [lia|]. split; [lia|]. vm_compute. reflexivity.
  - apply (mosaic_output_has_target_size (E := Demo.plain) Demo.prepared
             [Demo.tile4] 4 4 "out.png" "RGB" "diff" initial); try lia.
    vm_compute. reflexivity.
Defined.

(** C3, as stated, fails: the 5 x 5 target prepared from the 7 x 7
    picture has a grid of one cell for tiles of size 4, and the output
    [mosaic] allocates and saves is 5 x 5, not 4 x 4. *)
Lemma mosaic_output_size_counterexample :
  exists s' tr out cell,
    mosaic (E := Demo.plain) Demo.prepared [Demo.tile4] (4, 4)
      "out.png" "RGB" "diff" initial = (Ok tt, s')
    /\ trace s' = tr ++ [Saved "out.png" out; Print "Done."]
    /\ gridify Demo.prepared (4, 4) = Ok [[cell]]
    /\ size out = (5, 5)
    /\ size out <> (1 * 4, 1 * 4).
Proof.
  eexists. eexists. eexists. eexists.
  split; [vm_compute; reflexivity|].
  split; [cbn [trace]; instantiate (2 := [_; _; _; _]); reflexivity|].
  split; [vm_compute; reflexivity|].
  split; [reflexivity|discriminate].
Qed.

(** ** Whole runs *)

Section Runs.

Context {E : Env}.

(** [get_target] opens the picture and does nothing else to the
    state. *)
Lemma get_target_state (image : string) (tile_size : Z * Z) (scale : Z)
    (s s' : state) (o : outcome Image) :
  get_target image tile_size scale s = (o, s') ->
  s' = {| cached_avgs := cached_avgs s;
          trace := trace s ++ [Opened image] |}.
Proof.
  unfold get_target, bind, emit, lift, ret.
  destruct (image_open image) as [img|e]; [|now intros [= _ <-]].
  destruct (resize img _ _) as [img_large|e]; [|now intros [= _ <-]].
  destruct (modulo (width img * scale) _) as [w_mod|e]; [|now intros [= _ <-]].
  destruct (modulo (height img * scale) _) as [h_mod|e]; [|now intros [= _ <-]].
  destruct (_ || _); now intros [= _ <-].
Qed.

Lemma find_best_match_no_tiles (target : Image) (method : string)
    (s : state) :
  method = "diff"%string
  \/ (method = "avg"%string /\ cached_avgs s = []) ->
  find_best_match target [] method s = (Ok None, s).
Proof.
  intros [->|[-> Hc]]; [reflexivity|].
  now rewrite find_best_match_avg_fresh.
Qed.

Lemma match_row_no_tiles (method : string) (s : state) (row : list Image) :
  method = "diff"%string
  \/ (method = "avg"%string /\ cached_avgs s = []) ->
  forall mosaic_row,
    match_row row [] method mosaic_row s
    = (Ok (mosaic_row ++ repeat None (length row)), s).
Proof.
  intros Hm. induction row as [|cell row IH]; intros mosaic_row.
  - cbn. now rewrite app_nil_r.
  - cbn [match_row]. unfold bind.
    rewrite (find_best_match_no_tiles cell method s Hm), IH.
    cbn [length repeat]. now rewrite <- app_assoc.
Qed.

Lemma update_run (n c : Z) (s : state) :
  n <> 0 ->
  update {| total := n; counter := c |} s
  = (Ok {| total := n; counter := c + 1 |},
     {| cached_avgs := cached_avgs s;
        trace := trace s ++ [Percent (100 * (c + 1) / n)] |}).
Proof.
  intros Hn. unfold update, bind, lift, emit, ret, floordiv.
  cbn [total counter].
  now assert ((n =? 0) = false) as -> by (now apply Z.eqb_neq).
Qed.

Lemma match_grid_no_tiles (method : string) (n : Z)
    (grid : list (list Image)) :
  n <> 0 ->
  forall (s : state) (mosaic_tiles : list (list (option Image))) (c : Z),
    method = "diff"%string
    \/ (method = "avg"%string /\ cached_avgs s = []) ->
    match_grid grid [] method mosaic_tiles {| total := n; counter := c |} s
    = (Ok (mosaic_tiles
           ++ map (fun row => repeat None (length row)) grid),
       {| cached_avgs := cached_avgs s;
          trace := trace s
                   ++ map (fun i => Percent (100 * (c + Z.of_nat (S i)) / n))
                        (seq 0 (length grid)) |}).
Proof.
  intros Hn. induction grid as [|row grid IH]; intros s mosaic_tiles c Hm.
  - cbn. rewrite !app_nil_r. now destruct s.
  - cbn [match_grid]. unfold bind at 1.
    rewrite (match_row_no_tiles method s row Hm). cbn [app].
    unfold bind at 1. rewrite update_run by assumption.
    rewrite IH by (destruct Hm as [?|[? ?]]; auto).
    cbn [cached_avgs trace length seq map].
    rewrite <- seq_shift, map_map, <- !app_assoc. cbn [app].
    replace (c + Z.of_nat 1) with (c + 1) by lia.
    rewrite (map_ext
               (fun i => Percent (100 * (c + 1 + Z.of_nat (S i)) / n))
               (fun i => Percent (100 * (c + Z.of_nat (S (S i))) / n)))
      by (intros i; do 2 f_equal; lia).
    reflexivity.
Qed.

Lemma paste_grid_none (out : Image) (row : list (option Image))
    (rows : list (list (option Image))) (tile_w tile_h i : Z) :
  paste_grid out ((None :: row) :: rows) tile_w tile_h i
  = Raise ValueError_paste.
Proof. reflexivity. Qed.

(** [get_tiles] on an empty directory. *)
Lemma get_tiles_empty (tiles_path : string) (tile_size : Z * Z)
    (m : string) (s : state) :
  listdir tiles_path = Ok [] ->
  get_tiles tiles_path tile_size m s
  = (Ok [], {| cached_avgs := cached_avgs s;
               trace := trace s ++ [Print "Getting tiles...";
                                    Listed tiles_path; Print "Done."] |}).
Proof.
  intros H. unfold get_tiles, print, bind, emit, lift. rewrite H.
  cbn. now rewrite <- !app_assoc.
Qed.

(** [mosaic] without tiles on a target that holds at least one cell:
    every cell is matched with [None], and the first paste raises. *)
Lemma mosaic_no_tiles (image : Image) (size : Z)
    (out_file m method : string) (s : state) :
  method = "diff"%string
  \/ (method = "avg"%string /\ cached_avgs s = []) ->
  0 < size -> size <= Z.min (width image) (height image) ->
  mosaic image [] (size, size) out_file m method s
  = (Raise ValueError_paste,
     {| cached_avgs := cached_avgs s;
        trace := trace s
                 ++ [Print "Finding best matches..."]
                 ++ percents (Z.to_nat (height image / size))
                 ++ [Print "Done."; Print "Creating mosaic..."] |}).
Proof.
  intros Hm Hpos Hle.
  assert (Hrows : 1 <= height image / size)
    by (apply Z.div_le_lower_bound; lia).
  assert (Hcols : 1 <= width image / size)
    by (apply Z.div_le_lower_bound; lia).
  unfold mosaic, gridify, floordiv.
  assert ((size =? 0) = false) as -> by (apply Z.eqb_neq; lia).
  cbn [obind]. unfold bind at 1, lift at 1.
  unfold bind at 1, print at 1, emit at 1.
  set (grid := map _ (range (height image / size))).
  assert (Hlen : length grid = Z.to_nat (height image / size)).
  { unfold grid, range. now rewrite !length_map, length_seq. }
  unfold bind at 1, ProgressCounter_init.
  rewrite match_grid_no_tiles
    by (cbn [cached_avgs]; first [lia | assumption
                                 | rewrite Hlen; lia]).
  cbn [app]. unfold bind at 1, print at 1, emit at 1.
  unfold bind at 1, print at 1, emit at 1. cbn [cached_avgs trace].
  assert (Hfirst : exists row rows,
             map (fun row : list Image => repeat (@None Image) (length row))
               grid = (None :: row) :: rows).
  { unfold grid, range.
    destruct (Z.to_nat (height image / size)) as [|r] eqn:Hr; [lia|].
    destruct (Z.to_nat (width image / size)) as [|c] eqn:Hc; [lia|].
    cbn [seq map length repeat]. rewrite !length_map, length_seq.
    cbn [repeat]. eauto. }
  destruct Hfirst as (row & rows & ->).
  unfold bind at 1, lift at 1. rewrite paste_grid_none.
  rewrite <- !app_assoc. cbn [app]. rewrite Hlen. unfold percents.
  reflexivity.
Qed.

End Runs.

(** A command line of six arguments with an unknown method never gets
    as far as a picture or a directory, whatever [int] makes of the
    tile size and the scale: the run ends with an exception, having
    printed the unknown-method message or nothing. *)
Lemma unknown_method_opens_nothing {E : Env}
    (prog image tiles_path out_file a4 a5 method : string) (s : state) :
  method <> "avg"%string -> method <> "diff"%string ->
  exists e tr,
    main [prog; image; tiles_path; out_file; a4; a5; method] s
    = (Raise e, {| cached_avgs := cached_avgs s; trace := trace s ++ tr |})
    /\ (tr = [] \/ tr = [Print (unknown_method method)]).
Proof.
  intros Havg Hdiff. apply String.eqb_neq in Havg, Hdiff.
  unfold main. unfold bind at 1, lift at 1.
  destruct (int a4) as [size|e].
  - unfold bind at 1, lift at 1. destruct (int a5) as [scale|e].
    + rewrite Havg, Hdiff. exists SystemExit, [Print (unknown_method method)].
      split; [reflexivity|now right].
    + exists e, []. rewrite app_nil_r. destruct s. split; [reflexivity|now left].
  - exists e, []. rewrite app_nil_r. destruct s. split; [reflexivity|now left].
Qed.

Section Main.

Context {E : Env}.

Variables (prog image tiles_path out_file a4 a5 method : string).
Variables (size scale : Z).

Hypothesis int_size : int a4 = Ok size.
Hypothesis int_scale : int a5 = Ok scale.

(** [main] up to the check of the method. *)
Lemma main_parsed (s : state) :
  main [prog; image; tiles_path; out_file; a4; a5; method] s
  = (if negb (String.eqb method "avg") && negb (String.eqb method "diff")
     then print (unknown_method method) ;; raise SystemExit
     else
       target <- get_target image (size, size) (clamp_scale scale) ;;
       if size >? Z.min (width target) (height target)
       then print "Tiles cannot be larger than the image" ;;
            raise SystemExit
       else
         tiles <- get_tiles tiles_path (size, size) (mode target) ;;
         mosaic target tiles (size, size) out_file (mode target) method ;;
         emit Print_run_time) s.
Proof.
  unfold main. unfold bind at 1, lift at 1. rewrite int_size.
  unfold bind at 1, lift at 1. rewrite int_scale. reflexivity.
Qed.

Lemma known_method :
  method = "avg"%string \/ method = "diff"%string ->
  negb (String.eqb method "avg") && negb (String.eqb method "diff") = false.
Proof. now intros [->| ->]. Qed.


(** C7.  A run that prepared its target and asks for tiles larger than
    the target's smaller dimension prints the message and exits: the
    picture was opened, no directory was listed, nothing was matched. *)
Theorem tiles_larger_than_image_exits (target : Image) (s1 : state) :
  method = "avg"%string \/ method = "diff"%string ->
  get_target image (size, size) (clamp_scale scale) initial = (Ok target, s1) ->
  size > Z.min (width target) (height target) ->
  main [prog; image; tiles_path; out_file; a4; a5; method] initial
  = (Raise SystemExit,
     {| cached_avgs := [];
        trace := [Opened image;
                  Print "Tiles cannot be larger than the image"] |}).
Proof.
  intros Hmethod Htarget Hsize.
  rewrite main_parsed, (known_method Hmethod).
  unfold bind at 1. rewrite Htarget.
  apply get_target_state in Htarget. subst s1.
  assert ((size >? Z.min (width target) (height target)) = true) as ->
    by (apply Z.gtb_lt; lia).
  reflexivity.
Qed.

(** C9.  Without tiles [find_best_match] returns [None] in 'diff' mode,
    and in 'avg' mode when the cache is empty.  A run over an empty
    directory of tiles, with a positive tile size that fits the target,
    reports no configuration error: it lists the directory, matches
    every cell of the grid, and ends with the [ValueError] of the first
    paste. *)
Theorem no_tiles_fail_at_paste (target : Image) (s1 : state) :
  method = "avg"%string \/ method = "diff"%string ->
  get_target image (size, size) (clamp_scale scale) initial = (Ok target, s1) ->
  0 < size -> size <= Z.min (width target) (height target) ->
  listdir tiles_path = Ok [] ->
  (forall cell s, (method = "avg"%string -> cached_avgs s = []) ->
                  find_best_match cell [] method s = (Ok None, s))
  /\ main [prog; image; tiles_path; out_file; a4; a5; method] initial
     = (Raise ValueError_paste,
        {| cached_avgs := [];
           trace := [Opened image; Print "Getting tiles...";
                     Listed tiles_path; Print "Done.";
                     Print "Finding best matches..."]
                    ++ percents (Z.to_nat (height target / size))
                    ++ [Print "Done."; Print "Creating mosaic..."] |}).
Proof.
  intros Hmethod Htarget Hpos Hfits Hdir. split.
  - intros cell s Hcache. apply find_best_match_no_tiles.
    destruct Hmethod as [->| ->]; auto.
  - rewrite main_parsed, (known_method Hmethod).
    unfold bind at 1. rewrite Htarget.
    apply get_target_state in Htarget. subst s1.
    assert ((size >? Z.min (width target) (height target)) = false) as ->
      by (rewrite Z.gtb_ltb; apply Z.ltb_ge; lia).
    unfold bind at 1. rewrite (get_tiles_empty _ _ _ _ Hdir).
    unfold bind at 1. rewrite mosaic_no_tiles; [reflexivity| |lia|lia].
    destruct Hmethod as [->| ->]; auto.
Qed.

End Main.


(** The tile size and the scale are converted at lines 165 and 166,
    before the method is looked at in line 171: a tile size [int]
    rejects ends the run with the exception of [int], whatever the
    method, and nothing is printed. *)
Lemma main_rejected_tile_size {E : Env}
    (prog image tiles_path out_file a4 a5 method : string) (e : exn)
    (s : state) :
  int a4 = Raise e ->
  main [prog; image; tiles_path; out_file; a4; a5; method] s = (Raise e, s).
Proof.
  intros H. unfold main. unfold bind at 1, lift at 1. now rewrite H.
Qed.


Lemma tiles_larger_than_image_exits_witness :
  let target := Demo.solid 1 1 [10; 20; 30] in
  let s1 := {| cached_avgs := []; trace := [Opened "target.png"] |} in
  (int (Env := Demo.bare) "9" = Ok 9
   /\ int (Env := Demo.bare) "1" = Ok 1
   /\ get_target (E := Demo.bare) "target.png" (9, 9) (clamp_scale 1) initial
      = (Ok target, s1)
   /\ 9 > Z.min (width target) (height target))
  /\ main (E := Demo.bare)
       ["mosaic.py"; "target.png"; "tiles"; "out.png"; "9"; "1"; "avg"]%string
       initial
     = (Raise SystemExit,
        {| cached_avgs := [];
           trace := [Opened "target.png";
                     Print "Tiles cannot be larger than the image"] |}).
Proof.
  assert (Hsize : 9 > Z.min 1 1) by reflexivity.
  split; [repeat split|].
  exact (tiles_larger_than_image_exits (E := Demo.bare)
           "mosaic.py" "target.png" "tiles" "out.png" "9" "1" "avg"
           9 1 eq_refl eq_refl (Demo.solid 1 1 [10; 20; 30])
           {| cached_avgs := []; trace := [Opened "target.png"] |}
           (or_introl eq_refl) eq_refl Hsize).
Defined.

Lemma no_tiles_fail_at_paste_witness :
  let target := Demo.prepared in
  let s1 := {| cached_avgs := []; trace := [Opened "target.png"] |} in
  (int (Env := Demo.bare) "4" = Ok 4
   /\ int (Env := Demo.bare) "1" = Ok 1
   /\ get_target (E := Demo.bare) "target.png" (4, 4) (clamp_scale 1) initial
      = (Ok target, s1)
   /\ 0 < 4 <= Z.min (width target) (height target)
   /\ listdir (Env := Demo.bare) "tiles" = Ok [])
  /\ (forall cell s, ("avg"%string = "avg"%string -> cached_avgs s = []) ->
        find_best_match (E := Demo.bare) cell [] "avg" s = (Ok None, s))
  /\ main (E := Demo.bare)
       ["mosaic.py"; "target.png"; "tiles"; "out.png"; "4"; "1"; "avg"]%string
       initial
     = (Raise ValueError_paste,
        {| cached_avgs := [];
           trace := [Opened "target.png"; Print "Getting tiles...";
                     Listed "tiles"; Print "Done.";
                     Print "Finding best matches..."]
                    ++ percents (Z.to_nat (height target / 4))
                    ++ [Print "Done."; Print "Creating mosaic..."] |}).
Proof.
  assert (Hpos : 0 < 4) by reflexivity.
  assert (Hfits : 4 <= Z.min 5 5) by discriminate.
  split; [repeat split; assumption|].
  exact (no_tiles_fail_at_paste (E := Demo.bare)
           "mosaic.py" "target.png" "tiles" "out.png" "4" "1" "avg"
           4 1 eq_refl eq_refl Demo.prepared
           {| cached_avgs := []; trace := [Opened "target.png"] |}
           (or_introl eq_refl) eq_refl Hpos Hfits eq_refl).
Defined.

(** A whole run over the 7 x 7 picture with one tile of size 4: the
    target is trimmed to 5 x 5, the grid has one cell, and the saved
    output is 5 x 5 with the tile in its upper left corner and the
    pixels of the fifth column and row left black. *)
Example run_with_odd_remainder :
  exists s' tr out,
    main (E := Demo.studio)
      ["mosaic.py"; "target.png"; "tiles"; "out.png"; "4"; "1"; "diff"]%string
      initial = (Ok tt, s')
    /\ trace s' = tr ++ [Saved "out.png" out; Print "Done."; Print_run_time]
    /\ size out = (5, 5)
    /\ getpixel out (0, 0) = [12; 18; 33]
    /\ getpixel out (3, 3) = [12; 18; 33]
    /\ getpixel out (4, 0) = [0; 0; 0]
    /\ getpixel out (0, 4) = [0; 0; 0].
Proof.
  eexists. eexists. eexists.
  split; [vm_compute; reflexivity|].
  split; [cbn [trace]; instantiate (2 := [_; _; _; _; _; _; _; _; _; _]);
          reflexivity|].
  repeat split.
Qed.

(** * Further properties *)

(** ** The grid *)

Lemma nth_error_range (n : Z) (i : nat) (z : Z) :
  nth_error (range n) i = Some z ->
  z = Z.of_nat i /\ (i < Z.to_nat n)%nat.
Proof.
  unfold range. rewrite nth_error_map.
  destruct (nth_error (seq 0 (Z.to_nat n)) i) as [k|] eqn:Hk; [|discriminate].
  intros [= <-].
  assert (Hi : (i < length (seq 0 (Z.to_nat n)))%nat)
    by (apply nth_error_Some; congruence).
  rewrite length_seq in Hi.
  apply (nth_error_nth _ _ 0%nat) in Hk. rewrite seq_nth in Hk by assumption.
  split; [now subst k|assumption].
Qed.

(** X1.  For a positive tile size [gridify] returns [height // h] rows
    of [width // w] cells; the cell in row [i] and column [j] is the
    crop of the box from (j*w, i*h) to ((j+1)*w, (i+1)*h), it has the
    tile size exactly, and its box lies inside the image: what is left
    over on the right and at the bottom is in no cell. *)
Theorem gridify_cells (image : Image) (w h : Z) :
  0 < w -> 0 < h ->
  exists grid,
    gridify image (w, h) = Ok grid
    /\ length grid = Z.to_nat (height image / h)
    /\ forall i row, nth_error grid i = Some row ->
         length row = Z.to_nat (width image / w)
         /\ forall j cell, nth_error row j = Some cell ->
              cell = crop image (Z.of_nat j * w, Z.of_nat i * h,
                                 (Z.of_nat j + 1) * w, (Z.of_nat i + 1) * h)
              /\ size cell = (w, h)
              /\ (Z.of_nat j + 1) * w <= width image
              /\ (Z.of_nat i + 1) * h <= height image.
Proof.
  intros Hw Hh. unfold gridify, floordiv.
  assert ((h =? 0) = false) as -> by (apply Z.eqb_neq; lia).
  assert ((w =? 0) = false) as -> by (apply Z.eqb_neq; lia).
  cbn [obind]. eexists. split; [reflexivity|]. split.
  { unfold range. now rewrite !length_map, length_seq. }
  intros i row Hrow. rewrite nth_error_map in Hrow.
  destruct (nth_error (range (height image / h)) i) as [zi|] eqn:Hi;
    [|discriminate].
  apply nth_error_range in Hi as [-> Hi]. injection Hrow as <-. split.
  { unfold range. now rewrite !length_map, length_seq. }
  intros j cell Hcell. rewrite nth_error_map in Hcell.
  destruct (nth_error (range (width image / w)) j) as [zj|] eqn:Hj;
    [|discriminate].
  apply nth_error_range in Hj as [-> Hj]. injection Hcell as <-.
  split; [reflexivity|]. split.
  { unfold size. cbn [crop width height]. f_equal; lia. }
  pose proof (Z.mul_div_le (width image) w Hw).
  pose proof (Z.mul_div_le (height image) h Hh).
  assert (0 < width image / w) by lia.
  assert (0 < height image / h) by lia.
  split; nia.
Qed.

Lemma gridify_cells_witness :
  (0 < 2 /\ 0 < 2)
  /\ exists grid,
       gridify Demo.prepared (2, 2) = Ok grid
       /\ length grid = Z.to_nat (height Demo.prepared / 2)
       /\ forall i row, nth_error grid i = Some row ->
            length row = Z.to_nat (width Demo.prepared / 2)
            /\ forall j cell, nth_error row j = Some cell ->
                 cell = crop Demo.prepared
                          (Z.of_nat j * 2, Z.of_nat i * 2,
                           (Z.of_nat j + 1) * 2, (Z.of_nat i + 1) * 2)
                 /\ size cell = (2, 2)
                 /\ (Z.of_nat j + 1) * 2 <= width Demo.prepared
                 /\ (Z.of_nat i + 1) * 2 <= height Demo.prepared.
Proof.
  split; [split; reflexivity|].
  apply (gridify_cells Demo.prepared 2 2); reflexivity.
Defined.

(** ** The progress counter *)

(** X2.  A counter that has counted [c] of [n] items, [c < n], counts
    one more on its next update and writes the percentage
    [100 * (c + 1) // n], and nothing else: a number from 0 to 100 that
    is 100 exactly for the last item. *)
Theorem update_percentage (n c : Z) (s : state) :
  0 <= c < n ->
  update {| total := n; counter := c |} s
  = (Ok {| total := n; counter := c + 1 |},
     {| cached_avgs := cached_avgs s;
        trace := trace s ++ [Percent (100 * (c + 1) / n)] |})
  /\ 0 <= 100 * (c + 1) / n <= 100
  /\ (100 * (c + 1) / n = 100 <-> c + 1 = n).
Proof.
  intros Hc.
  split; [apply update_run; lia|].
  assert (Hlow : 0 <= 100 * (c + 1) / n) by (apply Z.div_pos; lia).
  assert (Hup : 100 * (c + 1) / n <= 100)
    by (apply Z.div_le_upper_bound; lia).
  split; [lia|]. split.
  - intros Hp. destruct (Z.eq_dec (c + 1) n) as [|Hne]; [assumption|].
    assert (100 * (c + 1) / n < 100)
      by (apply Z.div_lt_upper_bound; lia).
    lia.
  - intros <-. rewrite Z.div_mul by lia. reflexivity.
Qed.

Lemma update_percentage_witness :
  0 <= 1 < 3
  /\ update {| total := 3; counter := 1 |} initial
     = (Ok {| total := 3; counter := 2 |},
        {| cached_avgs := []; trace := [Percent 66] |})
  /\ 0 <= 66 <= 100
  /\ (66 = 100 <-> 1 + 1 = 3).
Proof.
  split; [lia|]. apply (update_percentage 3 1 initial). lia.
Defined.

(** ** More on the dissimilarity and the match *)

Lemma sum_sq_diff_zero (a b : list Z) :
  length a = length b -> (sum_sq_diff a b = 0 <-> a = b).
Proof.
  revert b. induction a as [|x a IH]; intros [|y b] Hlen; try discriminate.
  - now split.
  - rewrite sum_sq_diff_cons.
    pose proof (sum_sq_diff_nonneg a b) as Hrest.
    assert (Hsq : 0 <= (x - y) ^ 2)
      by (rewrite Z.pow_2_r; apply Z.square_nonneg).
    injection Hlen as Hlen. specialize (IH b Hlen). split.
    + intros H0. assert (Hx : (x - y) ^ 2 = 0) by lia.
      assert (Hr : sum_sq_diff a b = 0) by lia.
      rewrite Z.pow_2_r in Hx. assert (x = y) by nia.
      apply IH in Hr. congruence.
    + intros [= -> ->]. rewrite Z.sub_diag.
      replace (sum_sq_diff b b) with 0 by (symmetry; now apply IH).
      reflexivity.
Qed.

(** X3.  On operands of one shape whose samples are integers of at most
    32 bits, [error] is 0 exactly when the two hold the same values: a
    dissimilarity of 0 means identical, and only identical operands
    reach it.  This is so of every result in binary64, since the
    samples and their differences are held exactly and a square that is
    not 0 is not rounded to 0, and of the sum in exact arithmetic. *)
Theorem error_zero_iff_equal (x y : ndarray) :
  same_shape x y = true ->
  int32 (values x) -> int32 (values y) ->
  (forall r, error64 x y r -> (r = 0 <-> values x = values y))
  /\ (error x y = Ok 0 <-> values x = values y).
Proof.
  intros H Hx Hy.
  pose proof (same_shape_length x y H) as Hlen. split.
  - intros r [_ Hr].
    rewrite (sum64_zero _ _ Hr (terms64_nonneg _ _)).
    now apply terms64_zero.
  - rewrite (error_same_shape x y H).
    pose proof (sum_sq_diff_zero (values x) (values y) Hlen) as Hzero.
    split.
    + intros [= H0]. now apply Hzero.
    + intros Heq. f_equal. now apply Hzero.
Qed.

Lemma error_zero_iff_equal_witness :
  let x := asarray Demo.grey_a in
  let y := asarray Demo.grey_b in
  (same_shape x y = true /\ int32 (values x) /\ int32 (values y))
  /\ (forall r, error64 x y r -> (r = 0 <-> values x = values y))
  /\ (error x y = Ok 0 <-> values x = values y).
Proof.
  assert (Hx : int32 (values (asarray Demo.grey_a)))
    by (repeat constructor; discriminate).
  assert (Hy : int32 (values (asarray Demo.grey_b)))
    by (repeat constructor; discriminate).
  split; [split; [reflexivity|split; [exact Hx|exact Hy]]|].
  exact (error_zero_iff_equal (asarray Demo.grey_a) (asarray Demo.grey_b)
           eq_refl Hx Hy).
Defined.

Section MoreMatching.

Context {E : Env}.

(** X4.  In 'diff' mode, when some tile has exactly the pixels of the
    cell, [find_best_match] returns the first such tile. *)
Theorem diff_finds_identical_tile (target : Image) (tiles : list Image)
    (s : state) :
  Forall (comparable "diff" target) tiles ->
  (exists tile, In tile tiles /\ data tile = data target) ->
  exists k best,
    find_best_match target tiles "diff" s = (Ok (Some best), s)
    /\ nth_error tiles k = Some best
    /\ data best = data target
    /\ forall j tile, (j < k)%nat -> nth_error tiles j = Some tile ->
                      data tile <> data target.
Proof.
  intros Hall (twin & Hin & Htwin).
  assert (Hne : tiles <> []) by (intros ->; contradiction).
  rewrite find_best_match_diff, scan_diff_best_of by assumption.
  destruct (best_of_first_min (dissimilarity "diff" target) tiles Hne)
    as (k & best & -> & Hk & Hmin & Hlt).
  assert (Hzero : dissimilarity "diff" target best = 0).
  { apply In_nth_error in Hin as (j & Hj). specialize (Hmin j twin Hj).
    rewrite !dissimilarity_diff in *. rewrite Htwin in Hmin.
    rewrite sum_sq_diff_diag in Hmin.
    pose proof (sum_sq_diff_nonneg (data target) (data best)). lia. }
  assert (Hlen : forall tile, In tile tiles ->
                              length (data target) = length (data tile)).
  { intros tile Ht. rewrite Forall_forall in Hall.
    apply (same_shape_length (asarray target) (asarray tile)).
    exact (Hall tile Ht). }
  exists k, best. split; [reflexivity|]. split; [assumption|]. split.
  - rewrite dissimilarity_diff in Hzero. symmetry.
    apply sum_sq_diff_zero; [|assumption].
    apply Hlen. eapply nth_error_In; eassumption.
  - intros j tile Hjk Hj Heq. specialize (Hlt j tile Hjk Hj).
    rewrite Hzero, dissimilarity_diff, Heq, sum_sq_diff_diag in Hlt. lia.
Qed.

Lemma scan_diff_kept (target : Image) (tiles : list Image) :
  forall min_err best r,
    scan_diff target tiles min_err best = Ok r ->
    match r with
    | Some tile => In tile tiles \/ best = Some tile
    | None => best = None /\ (tiles = [] \/ min_err <> Inf)
    end.
Proof.
  induction tiles as [|tile tiles IH]; intros min_err best r H.
  - cbn in H. injection H as <-. destruct best; auto.
  - cbn [scan_diff] in H. destruct (error _ _) as [err|e]; [|discriminate].
    cbn [obind] in H. destruct (lt err min_err) eqn:Hlt.
    + apply IH in H. destruct r as [t|].
      * destruct H as [H|[= ->]]; [left; now right|left; now left].
      * now destruct H.
    + apply IH in H. destruct r as [t|].
      * destruct H as [H|H]; [left; now right|now right].
      * destruct H as [-> _]. split; [reflexivity|]. right.
        intros ->. discriminate.
Qed.

Lemma scan_first_kept (target_avg : colour) (tiles : list Image) :
  forall min_err best s r,
    fst (scan_first target_avg tiles min_err best s) = Ok r ->
    match r with
    | Some tile => In tile tiles \/ best = Some tile
    | None => best = None /\ (tiles = [] \/ min_err <> Inf)
    end.
Proof.
  induction tiles as [|tile tiles IH]; intros min_err best s r H.
  - cbn in H. injection H as <-. destruct best; auto.
  - cbn [scan_first] in H. unfold bind at 1, lift at 1 in H.
    rewrite avg_rgb_ok in H.
    unfold bind at 1, cached_append at 1 in H.
    unfold bind at 1, lift at 1 in H.
    destruct (error _ _) as [err|e]; [|discriminate].
    destruct (lt err min_err) eqn:Hlt.
    + apply IH in H. destruct r as [t|].
      * destruct H as [H|[= ->]]; [left; now right|left; now left].
      * now destruct H.
    + apply IH in H. destruct r as [t|].
      * destruct H as [H|H]; [left; now right|now right].
      * destruct H as [-> _]. split; [reflexivity|]. right.
        intros ->. discriminate.
Qed.

Lemma scan_cached_kept (target_avg : colour) (tiles : list Image)
    (cached : list colour) (avgs : list colour) :
  forall min_err best r,
    scan_cached target_avg tiles cached avgs min_err best = Ok r ->
    match r with
    | Some tile => In tile tiles \/ best = Some tile
    | None => best = None /\ (avgs = [] \/ min_err <> Inf)
    end.
Proof.
  induction avgs as [|avg avgs IH]; intros min_err best r H.
  - cbn in H. injection H as <-. destruct best; auto.
  - cbn [scan_cached] in H. destruct (error _ _) as [err|e]; [|discriminate].
    cbn [obind] in H. destruct (lt err min_err) eqn:Hlt.
    + destruct (index avg cached) as [i|]; [|discriminate].
      destruct (nth_error tiles i) as [tile|] eqn:Hi; [|discriminate].
      apply IH in H. destruct r as [t|].
      * destruct H as [H|[= ->]]; [now left|].
        left. eapply nth_error_In; eassumption.
      * now destruct H.
    + apply IH in H. destruct r as [t|].
      * assumption.
      * destruct H as [-> _]. split; [reflexivity|]. right.
        intros ->. discriminate.
Qed.

(** X5.  Whatever the method and the cache, a tile [find_best_match]
    returns is one of the tiles it was given; it returns [None] only
    when it was given no tiles (and, in 'avg' mode, the cache was
    empty). *)
Theorem find_best_match_returns_member (target : Image)
    (tiles : list Image) (method : string) (s s' : state)
    (r : option Image) :
  find_best_match target tiles method s = (Ok r, s') ->
  match r with
  | Some best => In best tiles
  | None => tiles = [] /\ (method = "avg"%string -> cached_avgs s = [])
  end.
Proof.
  unfold find_best_match. intros H.
  destruct (String.eqb method "avg") eqn:Havg.
  - unfold bind at 1, lift at 1 in H. rewrite avg_rgb_ok in H.
    unfold bind, get_cached in H.
    destruct (cached_avgs s) as [|c cached] eqn:Hc.
    + assert (Hfst : fst (scan_first (avg_colour target) tiles Inf None s)
                     = Ok r) by (now rewrite H).
      apply scan_first_kept in Hfst. destruct r as [best|].
      * destruct Hfst as [?|?]; [assumption|discriminate].
      * destruct Hfst as [_ [->|Hinf]]; [auto|contradiction].
    + unfold lift in H. apply (f_equal fst) in H. cbn [fst] in H.
      apply scan_cached_kept in H. destruct r as [best|].
      * destruct H as [?|?]; [assumption|discriminate].
      * destruct H as [_ [?|Hinf]]; [discriminate|contradiction].
  - destruct (String.eqb method "diff") eqn:Hdiff.
    + unfold lift in H. apply (f_equal fst) in H. cbn [fst] in H.
      apply scan_diff_kept in H. destruct r as [best|].
      * destruct H as [?|?]; [assumption|discriminate].
      * destruct H as [_ [->|Hinf]]; [|contradiction].
        split; [reflexivity|]. intros ->. discriminate.
    + unfold print, bind, emit, raise in H. discriminate.
Qed.

End MoreMatching.

Lemma diff_finds_identical_tile_witness :
  (Forall (comparable (E := Demo.plain) "diff" Demo.grey_b) Demo.palette
   /\ exists tile, In tile Demo.palette /\ data tile = data Demo.grey_b)
  /\ exists k best,
       find_best_match (E := Demo.plain) Demo.grey_b Demo.palette "diff"
         initial = (Ok (Some best), initial)
       /\ nth_error Demo.palette k = Some best
       /\ data best = data Demo.grey_b
       /\ forall j tile, (j < k)%nat ->
            nth_error Demo.palette j = Some tile ->
            data tile <> data Demo.grey_b.
Proof.
  assert (Hall : Forall (comparable (E := Demo.plain) "diff" Demo.grey_b)
                   Demo.palette) by (repeat constructor).
  assert (Htwin : exists tile, In tile Demo.palette
                               /\ data tile = data Demo.grey_b)
    by (exists Demo.grey_b; split; [cbn; auto|reflexivity]).
  split; [split; assumption|].
  exact (diff_finds_identical_tile (E := Demo.plain) Demo.grey_b
           Demo.palette initial Hall Htwin).
Defined.

Lemma find_best_match_returns_member_witness :
  find_best_match (E := Demo.plain) Demo.reddish_cell
    [Demo.blue; Demo.red] "avg" Demo.stale
  = (Ok (Some Demo.blue), Demo.stale)
  /\ In Demo.blue [Demo.blue; Demo.red].
Proof.
  assert (Hrun : find_best_match (E := Demo.plain) Demo.reddish_cell
                   [Demo.blue; Demo.red] "avg" Demo.stale
                 = (Ok (Some Demo.blue), Demo.stale))
    by (vm_compute; reflexivity).
  split; [exact Hrun|].
  exact (find_best_match_returns_member (E := Demo.plain)
           Demo.reddish_cell [Demo.blue; Demo.red] "avg"
           Demo.stale Demo.stale (Some Demo.blue) Hrun).
Defined.

(** ** Preparing the target and the tiles *)

Section Preparing.

Context {E : Env}.

(** X6.  [get_target] on a readable picture, for a positive tile
    width [t]: the target keeps the mode of the picture, it is the
    scaled picture less fewer than [t] pixels on each axis, and what
    its width and height leave modulo [t] is the parity of what the
    scaled width and height leave; it is a multiple of [t] on an axis
    exactly when that remainder is even.  The tile height plays no
    part. *)
Theorem get_target_trim (image : string) (t th scale : Z) (s : state)
    (img : Image) :
  image_open image = Ok img ->
  0 < width img -> 0 < height img -> 0 < scale -> 0 < t ->
  exists target,
    get_target image (t, th) scale s
    = (Ok target, {| cached_avgs := cached_avgs s;
                     trace := trace s ++ [Opened image] |})
    /\ mode target = mode img
    /\ width img * scale - t < width target <= width img * scale
    /\ height img * scale - t < height target <= height img * scale
    /\ (width target) mod t = ((width img * scale) mod t) mod 2
    /\ (height target) mod t = ((height img * scale) mod t) mod 2
    /\ ((width target) mod t = 0
        <-> Z.even ((width img * scale) mod t) = true)
    /\ ((height target) mod t = 0
        <-> Z.even ((height img * scale) mod t) = true).
Proof.
  intros Hopen Hw Hh Hs Ht.
  destruct (get_target_size image (t, th) scale s img Hopen Hw Hh Hs)
    as (target & Hrun & Hwt & Hht); [cbn; lia|].
  cbn [fst] in Hwt, Hht. exists target. split; [exact Hrun|].
  pose proof (Z.mod_pos_bound (width img * scale) t Ht) as Hrw.
  pose proof (Z.mod_pos_bound (height img * scale) t Ht) as Hrh.
  pose proof (Z.div_mod ((width img * scale) mod t) 2) as Hdw.
  pose proof (Z.div_mod ((height img * scale) mod t) 2) as Hdh.
  pose proof (Z.mod_pos_bound ((width img * scale) mod t) 2) as Hbw.
  pose proof (Z.mod_pos_bound ((height img * scale) mod t) 2) as Hbh.
  assert (Hmw : (width target) mod t = ((width img * scale) mod t) mod 2)
    by (rewrite Hwt; now apply trim_remainder).
  assert (Hmh : (height target) mod t = ((height img * scale) mod t) mod 2)
    by (rewrite Hht; now apply trim_remainder).
  split.
  { unfold get_target, bind, emit, lift, ret in Hrun. rewrite Hopen in Hrun.
    destruct (resize img _ _) as [large|e] eqn:Hres; [|discriminate].
    assert (mode large = mode img).
    { unfold resize in Hres. destruct (_ || _); [discriminate|].
      now injection Hres as <-. }
    destruct (modulo _ _); [|discriminate].
    destruct (modulo _ _); [|discriminate].
    destruct (_ || _); injection Hrun as <-; cbn [crop mode]; assumption. }
  split; [lia|]. split; [lia|]. split; [assumption|].
  split; [assumption|].
  rewrite Hmw, Hmh, !Zmod_even.
  split; destruct (Z.even _); split; intros; (reflexivity || discriminate).
Qed.


End Preparing.

Lemma get_target_trim_witness :
  (image_open (Env := Demo.bare) "target.png" = Ok Demo.picture
   /\ 0 < width Demo.picture /\ 0 < height Demo.picture /\ 0 < 1 /\ 0 < 4)
  /\ exists target,
       get_target (E := Demo.bare) "target.png" (4, 4) 1 initial
       = (Ok target, {| cached_avgs := []; trace := [] ++ [Opened "target.png"] |})
       /\ mode target = mode Demo.picture
       /\ width Demo.picture * 1 - 4 < width target <= width Demo.picture * 1
       /\ height Demo.picture * 1 - 4 < height target
          <= height Demo.picture * 1
       /\ (width target) mod 4 = ((width Demo.picture * 1) mod 4) mod 2
       /\ (height target) mod 4 = ((height Demo.picture * 1) mod 4) mod 2
       /\ ((width target) mod 4 = 0
           <-> Z.even ((width Demo.picture * 1) mod 4) = true)
       /\ ((height target) mod 4 = 0
           <-> Z.even ((height Demo.picture * 1) mod 4) = true).
Proof.
  split; [repeat split|].
  apply (get_target_trim (E := Demo.bare) "target.png" 4 4 1 initial
           Demo.picture); reflexivity.
Defined.


Section Loading.

Context {E : Env}.

Variables (tiles_path : string) (tile_size : Z * Z) (m : string).

(** The loop of [get_tiles] over entries that load: their tiles are
    appended in order, and the loop goes on with what follows. *)
Lemma get_tiles_loop_prefix (n : Z) (rest : list string) :
  n <> 0 ->
  forall (pre : list string) (k : nat) (acc : list Image) (s : state),
    Forall (fun file => exists tile,
              loaded tiles_path tile_size m file tile) pre ->
    exists tiles,
      Forall2 (loaded tiles_path tile_size m) pre tiles
      /\ get_tiles_loop tiles_path tile_size m (pre ++ rest) acc
           {| total := n; counter := Z.of_nat k |} s
         = get_tiles_loop tiles_path tile_size m rest (acc ++ tiles)
             {| total := n; counter := Z.of_nat (k + length pre) |}
             {| cached_avgs := cached_avgs s;
                trace := trace s ++ load_events tiles_path n k pre |}.
Proof.
  intros Hn. induction pre as [|file pre IH]; intros k acc s Hall.
  - exists []. split; [constructor|]. cbn [app length].
    unfold load_events. cbn. rewrite !app_nil_r, Nat.add_0_r.
    now destruct s.
  - inversion Hall as [|? ? (tile & opened & Hopen & Htile) Hrest]; subst.
    destruct (IH (S k) (acc ++ [tile])
                {| cached_avgs := cached_avgs s;
                   trace := (trace s
                             ++ [Opened (path_join tiles_path file)])
                            ++ [Percent (100 * (Z.of_nat k + 1) / n)] |}
                Hrest) as (tiles & Hloaded & Hloop).
    exists (tile :: tiles). split.
    + constructor; [now exists opened|assumption].
    + cbn [app get_tiles_loop]. unfold bind at 1, emit at 1.
      unfold bind at 1, lift at 1. rewrite Hopen.
      unfold bind at 1, lift at 1. rewrite Htile.
      unfold bind at 1. rewrite update_run by assumption.
      cbn [cached_avgs trace].
      replace (Z.of_nat k + 1) with (Z.of_nat (S k)) in * by lia.
      rewrite Hloop. cbn [cached_avgs trace length].
      rewrite <- !app_assoc. cbn [app].
      replace (S k + length pre)%nat with (k + S (length pre))%nat by lia.
      unfold load_events. cbn [length seq combine flat_map app].
      reflexivity.
Qed.

(** Every tile made of a directory entry has the tile size. *)
Lemma loaded_size (files : list string) (tiles : list Image) :
  Forall2 (loaded tiles_path tile_size m) files tiles ->
  Forall (fun tile => size tile = tile_size) tiles.
Proof.
  induction 1 as [|file tile fs ts Hl _ IH]; [constructor|].
  constructor; [|assumption].
  destruct Hl as (opened & _ & Ht). unfold process_tile, resize in Ht.
  destruct (_ || _); [discriminate|]. injection Ht as <-.
  unfold size. cbn [width height]. now destruct tile_size.
Qed.

(** X8.  When every entry of the directory opens and the tile size is
    at least 1 x 1, [get_tiles] returns one tile per entry, in the
    order of the listing, each of the tile size exactly; it opens the
    files one after the other, writes the percentage after each, and
    leaves the cache alone. *)
Theorem get_tiles_loads_every_file (files : list string) (s : state) :
  listdir tiles_path = Ok files ->
  1 <= fst tile_size -> 1 <= snd tile_size ->
  Forall (fun file => exists opened,
            image_open (path_join tiles_path file) = Ok opened) files ->
  exists tiles,
    get_tiles tiles_path tile_size m s
    = (Ok tiles,
       {| cached_avgs := cached_avgs s;
          trace := trace s
                   ++ [Print "Getting tiles..."; Listed tiles_path]
                   ++ load_events tiles_path (Z.of_nat (length files)) 0 files
                   ++ [Print "Done."] |})
    /\ Forall2 (loaded tiles_path tile_size m) files tiles
    /\ Forall (fun tile => size tile = tile_size) tiles.
Proof.
  intros Hdir Hw Hh Hopen.
  assert (Hall : Forall (fun file => exists tile,
                           loaded tiles_path tile_size m file tile) files).
  { eapply Forall_impl; [|exact Hopen]. intros file (opened & Ho).
    unfold loaded, process_tile, resize.
    assert ((fst tile_size <? 1) = false) as -> by (apply Z.ltb_ge; lia).
    assert ((snd tile_size <? 1) = false) as -> by (apply Z.ltb_ge; lia).
    cbn [orb]. eexists. exists opened. split; [exact Ho|reflexivity]. }
  unfold get_tiles, print. unfold bind at 1, emit at 1.
  unfold bind at 1, emit at 1. unfold bind at 1, lift at 1. rewrite Hdir.
  cbn [cached_avgs trace]. unfold ProgressCounter_init.
  destruct files as [|file files].
  - exists []. cbn. split; [|split; constructor].
    now rewrite <- !app_assoc.
  - destruct (get_tiles_loop_prefix (Z.of_nat (length (file :: files))) []
                ltac:(cbn [length]; lia) (file :: files) 0 []
                {| cached_avgs := cached_avgs s;
                   trace := (trace s ++ [Print "Getting tiles..."])
                            ++ [Listed tiles_path] |} Hall)
      as (tiles & Hloaded & Hloop).
    rewrite app_nil_r in Hloop. change (Z.of_nat 0) with 0 in Hloop.
    exists tiles. split; [|split; [assumption|now apply (loaded_size (file :: files))]].
    unfold bind at 1. rewrite Hloop. cbn [get_tiles_loop ret app].
    unfold bind, emit, ret. cbn [cached_avgs trace].
    rewrite <- !app_assoc. reflexivity.
Qed.

(** X9.  The first entry of the directory that cannot be opened ends
    [get_tiles] with the exception of [Image.open]: the entries before
    it were loaded, no entry after it is opened, and no tile is
    returned. *)
Theorem get_tiles_stops_at_first_failure (pre rest : list string)
    (bad : string) (e : exn) (s : state) :
  listdir tiles_path = Ok (pre ++ bad :: rest) ->
  Forall (fun file => exists tile,
            loaded tiles_path tile_size m file tile) pre ->
  image_open (path_join tiles_path bad) = Raise e ->
  get_tiles tiles_path tile_size m s
  = (Raise e,
     {| cached_avgs := cached_avgs s;
        trace := trace s
                 ++ [Print "Getting tiles..."; Listed tiles_path]
                 ++ load_events tiles_path
                      (Z.of_nat (length (pre ++ bad :: rest))) 0 pre
                 ++ [Opened (path_join tiles_path bad)] |}).
Proof.
  intros Hdir Hall Hbad.
  unfold get_tiles, print. unfold bind at 1, emit at 1.
  unfold bind at 1, emit at 1. unfold bind at 1, lift at 1. rewrite Hdir.
  cbn [cached_avgs trace]. unfold ProgressCounter_init.
  destruct (get_tiles_loop_prefix (Z.of_nat (length (pre ++ bad :: rest)))
              (bad :: rest)
              ltac:(rewrite length_app; cbn [length]; lia) pre 0 []
              {| cached_avgs := cached_avgs s;
                 trace := (trace s ++ [Print "Getting tiles..."])
                          ++ [Listed tiles_path] |} Hall)
    as (tiles & _ & Hloop).
  change (Z.of_nat 0) with 0 in Hloop.
  unfold bind at 1. rewrite Hloop. cbn [get_tiles_loop].
  unfold bind at 1, emit at 1. unfold bind at 1, lift at 1. rewrite Hbad.
  cbn [cached_avgs trace]. rewrite <- !app_assoc. reflexivity.
Qed.

End Loading.

(** ** The matching loop of [mosaic] *)

Section MatchingLoop.

Context {E : Env}.

Variables (tiles : list Image) (method : string).

Hypothesis known : method = "avg"%string \/ method = "diff"%string.

(** One call on tiles that can be compared with the cell, from a cache
    that is empty or holds their averages: the first tile of minimal
    dissimilarity, and in 'avg' mode the cache holds the averages
    afterwards. *)
Lemma find_best_match_best_tile (cell : Image) (s : state) :
  Forall (comparable method cell) tiles ->
  (method = "avg"%string ->
   cached_avgs s = [] \/ cached_avgs s = averages tiles) ->
  find_best_match cell tiles method s
  = (Ok (best_tile method tiles cell),
     {| cached_avgs := if String.eqb method "avg" then averages tiles
                       else cached_avgs s;
        trace := trace s |}).
Proof.
  intros Hall Hcache. unfold best_tile. destruct known as [->| ->].
  - cbn [String.eqb Ascii.eqb Bool.eqb].
    destruct tiles as [|tile tiles'] eqn:Htiles.
    + assert (cached_avgs s = []) as Hc
        by (destruct (Hcache eq_refl); assumption).
      rewrite find_best_match_avg_fresh by assumption. cbn.
      rewrite <- Hc. now destruct s.
    + rewrite <- Htiles in *.
      assert (Hne : tiles <> []) by (rewrite Htiles; discriminate).
      destruct (Hcache eq_refl) as [Hcold|Hwarm].
      * now rewrite find_best_match_avg_fresh, scan_first_best_of, Hcold.
      * destruct (find_best_match_avg_warm cell tiles s Hne Hall Hwarm)
          as (k & best & Hfm & ->).
        destruct (best_of_first_min (dissimilarity "avg" cell) tiles Hne)
          as (k' & best' & -> & Hfm').
        destruct (first_min_unique _ _ _ _ _ _ Hfm Hfm') as (_ & ->).
        rewrite <- Hwarm. now destruct s.
  - rewrite find_best_match_diff, scan_diff_best_of by assumption.
    cbn. now destruct s.
Qed.

Lemma match_row_best_tiles (row : list Image) :
  forall (mosaic_row : list (option Image)) (s : state),
    Forall (fun cell => Forall (comparable method cell) tiles) row ->
    (method = "avg"%string ->
     cached_avgs s = [] \/ cached_avgs s = averages tiles) ->
    match_row row tiles method mosaic_row s
    = (Ok (mosaic_row ++ map (best_tile method tiles) row),
       {| cached_avgs := match row with
                         | [] => cached_avgs s
                         | _ :: _ => if String.eqb method "avg"
                                     then averages tiles else cached_avgs s
                         end;
          trace := trace s |}).
Proof.
  induction row as [|cell row IH]; intros mosaic_row s Hall Hcache.
  - cbn. rewrite app_nil_r. now destruct s.
  - inversion Hall as [|? ? Hcell Hrow]; subst.
    cbn [match_row]. unfold bind.
    rewrite find_best_match_best_tile by assumption.
    rewrite IH; [|assumption|].
    + cbn [cached_avgs trace map]. rewrite <- app_assoc. cbn [app].
      destruct row; destruct (String.eqb method "avg"); reflexivity.
    + intros ->. cbn. now right.
Qed.

(** The matching loop over a grid whose cells can be compared
    with the tiles, from a cache that is empty or holds the tiles'
    averages: every cell is matched with the first tile of minimal
    dissimilarity, row by row, one percentage is written per row, and
    in 'avg' mode the cache holds the averages of the tiles as soon as
    one cell was matched: each average is computed once for the whole
    grid. *)
Lemma match_grid_best_tiles (n : Z) (grid : list (list Image)) :
  n <> 0 ->
  forall (mosaic_tiles : list (list (option Image))) (c : Z) (s : state),
    Forall (Forall (fun cell => Forall (comparable method cell) tiles))
      grid ->
    (method = "avg"%string ->
     cached_avgs s = [] \/ cached_avgs s = averages tiles) ->
    match_grid grid tiles method mosaic_tiles
      {| total := n; counter := c |} s
    = (Ok (mosaic_tiles ++ map (map (best_tile method tiles)) grid),
       {| cached_avgs := match concat grid with
                         | [] => cached_avgs s
                         | _ :: _ => if String.eqb method "avg"
                                     then averages tiles else cached_avgs s
                         end;
          trace := trace s
                   ++ map (fun i => Percent (100 * (c + Z.of_nat (S i)) / n))
                        (seq 0 (length grid)) |}).
Proof.
  intros Hn. induction grid as [|row grid' IH];
    intros mosaic_tiles c s Hall Hcache.
  - cbn. rewrite !app_nil_r. now destruct s.
  - inversion Hall as [|? ? Hrow Hgrid]; subst.
    cbn [match_grid]. unfold bind at 1.
    rewrite match_row_best_tiles by assumption.
    unfold bind at 1. rewrite update_run by assumption.
    rewrite IH; [|assumption|].
    + cbn [cached_avgs trace length seq map concat].
      rewrite <- seq_shift, map_map, <- !app_assoc. cbn [app].
      replace (c + Z.of_nat 1) with (c + 1) by lia.
      rewrite (map_ext
                 (fun i => Percent (100 * (c + 1 + Z.of_nat (S i)) / n))
                 (fun i => Percent (100 * (c + Z.of_nat (S (S i))) / n)))
        by (intros i; do 2 f_equal; lia).
      f_equal. f_equal.
      destruct row as [|cell row]; cbn [app]; [reflexivity|].
      destruct (concat grid'); destruct (String.eqb method "avg");
        reflexivity.
    + cbn [cached_avgs]. intros Havg. destruct row; [auto|].
      rewrite Havg. cbn. now right.
Qed.

End MatchingLoop.

(** ** More on whole runs *)

Section MoreRuns.

Context {E : Env}.

(** X10.  A command line with any number of arguments other than six
    prints the seven lines of the usage text, with the program's name
    in the first, and exits; no argument is read, nothing is opened. *)
Theorem wrong_argument_count_prints_usage (prog : string)
    (args : list string) (s : state) :
  length args <> 6%nat ->
  main (prog :: args) s
  = (Raise SystemExit,
     {| cached_avgs := cached_avgs s;
        trace := trace s ++ map Print
          [String.append "Usage: "
             (String.append prog
                " <image> <tiles directory> <output> <tile size> <scale> <method>");
           "image - image from which the mosaic is created";
           "tiles directory - directory containing the images to be used as tiles for the mosaic";
           "output - name of the output image";
           "tile size - size of the tiles in px";
           "scale - positive integer used for scaling the image";
           "method - the method used for finding the best matches: 'avg' or 'diff'"]%string |}).
Proof.
  intros Hlen.
  assert (Husage : forall s0,
    (usage prog ;; raise SystemExit) s0
    = (@Raise unit SystemExit,
       {| cached_avgs := cached_avgs s0;
          trace := trace s0 ++ map Print
            [String.append "Usage: "
               (String.append prog
                  " <image> <tiles directory> <output> <tile size> <scale> <method>");
             "image - image from which the mosaic is created";
             "tiles directory - directory containing the images to be used as tiles for the mosaic";
             "output - name of the output image";
             "tile size - size of the tiles in px";
             "scale - positive integer used for scaling the image";
             "method - the method used for finding the best matches: 'avg' or 'diff'"]%string |})).
  { intros s0. unfold usage, print, bind, emit, raise.
    cbn [cached_avgs trace map]. now rewrite <- !app_assoc. }
  destruct args as [|a1 [|a2 [|a3 [|a4 [|a5 [|a6 [|a7 args]]]]]]];
    try apply Husage.
  now cbn in Hlen.
Qed.

(** X11.  A tile size of 0 ends the run with [ZeroDivisionError], raised
    by the remainder in [get_target]: the picture was opened, and
    nothing else was done. *)
Theorem zero_tile_size_divides_by_zero
    (prog image tiles_path out_file a4 a5 method : string) (scale : Z)
    (img : Image) :
  int a4 = Ok 0 -> int a5 = Ok scale ->
  method = "avg"%string \/ method = "diff"%string ->
  image_open image = Ok img ->
  0 < width img -> 0 < height img ->
  main [prog; image; tiles_path; out_file; a4; a5; method] initial
  = (Raise ZeroDivisionError,
     {| cached_avgs := []; trace := [Opened image] |}).
Proof.
  intros Hsize Hscale Hmethod Hopen Hw Hh.
  rewrite (main_parsed prog image tiles_path out_file a4 a5 method 0 scale
             Hsize Hscale), (known_method method Hmethod).
  unfold bind at 1, get_target.
  unfold bind at 1, emit at 1. unfold bind at 1, lift at 1. rewrite Hopen.
  unfold bind at 1, lift at 1, resize. cbn [fst snd].
  assert (Hs : 1 <= clamp_scale scale)
    by (unfold clamp_scale; destruct (Z.ltb_spec scale 1); lia).
  assert ((width img * clamp_scale scale <? 1) = false) as ->
    by (apply Z.ltb_ge; nia).
  assert ((height img * clamp_scale scale <? 1) = false) as ->
    by (apply Z.ltb_ge; nia).
  reflexivity.
Qed.

(** X12.  A run that ends without an exception had six arguments, an
    integer tile size and scale, a known method and a tile size that
    is not 0 and not larger than the prepared target; the last things
    it did were to save one picture, of the size of the prepared
    target, under the output name and to print the closing lines. *)
Theorem successful_run_saved_output (argv : list string) (s' : state) :
  main argv initial = (Ok tt, s') ->
  exists prog image tiles_path out_file a4 a5 method size scale
         target s1 tr out,
    argv = [prog; image; tiles_path; out_file; a4; a5; method]
    /\ int a4 = Ok size /\ int a5 = Ok scale
    /\ (method = "avg"%string \/ method = "diff"%string)
    /\ get_target image (size, size) (clamp_scale scale) initial
       = (Ok target, s1)
    /\ size <> 0
    /\ size <= Z.min (width target) (height target)
    /\ trace s' = tr ++ [Saved out_file out; Print "Done."; Print_run_time]
    /\ PIL.size out = PIL.size target.
Proof.
  intros Hrun.
  destruct argv as [|prog [|image [|tiles_path [|out_file [|a4 [|a5
    [|method [|extra argv]]]]]]]];
    try (unfold main in Hrun; unfold usage, print, bind, emit, raise in Hrun;
         discriminate).
  cbn [main] in Hrun.
  apply bind_ok in Hrun as (size & s0 & Hsize & Hrun).
  apply bind_ok in Hrun as (scale & s0' & Hscale & Hrun).
  unfold lift in Hsize, Hscale.
  injection Hsize as Hsize <-. injection Hscale as Hscale <-.
  destruct (negb (String.eqb method "avg") && negb (String.eqb method "diff"))
    eqn:Hmethod;
    [unfold print, bind, emit, raise in Hrun; discriminate|].
  apply bind_ok in Hrun as (target & s1 & Htarget & Hrun).
  destruct (size >? Z.min (width target) (height target)) eqn:Hfits;
    [unfold print, bind, emit, raise in Hrun; discriminate|].
  apply bind_ok in Hrun as (tiles & s2 & Htiles & Hrun).
  apply bind_ok in Hrun as ([] & s3 & Hmosaic & Hrun).
  unfold emit in Hrun. injection Hrun as <-.
  apply mosaic_saved in Hmosaic as (tr & out & grid & Htrace & Hout & Hgrid).
  exists prog, image, tiles_path, out_file, a4, a5, method, size, scale,
         target, s1, tr, out.
  repeat (split; [first [reflexivity | assumption]|]).
  split.
  { apply andb_false_iff in Hmethod as [H|H];
      apply negb_false_iff, String.eqb_eq in H; auto. }
  split; [assumption|]. split.
  { intros ->. unfold gridify, floordiv in Hgrid. discriminate. }
  split; [rewrite Z.gtb_ltb in Hfits; apply Z.ltb_ge in Hfits; lia|].
  split; [|assumption].
  cbn [trace]. rewrite Htrace, <- app_assoc. reflexivity.
Qed.

End MoreRuns.

Lemma get_tiles_loads_every_file_witness :
  (listdir (Env := Demo.studio) "tiles" = Ok ["a.png"%string]
   /\ 1 <= 4 /\ 1 <= 4
   /\ Forall (fun file => exists opened,
                image_open (Env := Demo.studio) (path_join "tiles" file)
                = Ok opened) ["a.png"%string])
  /\ exists tiles,
       get_tiles (E := Demo.studio) "tiles" (4, 4) "RGB" initial
       = (Ok tiles,
          {| cached_avgs := [];
             trace := []
                      ++ [Print "Getting tiles..."; Listed "tiles"]
                      ++ load_events "tiles" (Z.of_nat 1) 0 ["a.png"%string]
                      ++ [Print "Done."] |})
       /\ Forall2 (loaded (E := Demo.studio) "tiles" (4, 4) "RGB")
            ["a.png"%string] tiles
       /\ Forall (fun tile => size tile = (4, 4)) tiles.
Proof.
  assert (Hopen : Forall (fun file => exists opened,
                    image_open (Env := Demo.studio) (path_join "tiles" file)
                    = Ok opened) ["a.png"%string])
    by (constructor; [exists Demo.tile4; reflexivity|constructor]).
  split; [repeat split; (discriminate || assumption)|].
  apply (get_tiles_loads_every_file (E := Demo.studio) "tiles" (4, 4) "RGB"
           ["a.png"%string] initial eq_refl);
    (discriminate || assumption).
Defined.

Lemma get_tiles_stops_at_first_failure_witness :
  (listdir (Env := Demo.broken) "tiles"
   = Ok (["a.png"%string] ++ "missing.png"%string :: ["b.png"%string])
   /\ Forall (fun file => exists tile,
                loaded (E := Demo.broken) "tiles" (4, 4) "RGB" file tile)
        ["a.png"%string]
   /\ image_open (Env := Demo.broken) (path_join "tiles" "missing.png")
      = Raise (OSError "tiles/missing.png"))
  /\ get_tiles (E := Demo.broken) "tiles" (4, 4) "RGB" initial
     = (Raise (OSError "tiles/missing.png"),
        {| cached_avgs := [];
           trace := []
                    ++ [Print "Getting tiles..."; Listed "tiles"]
                    ++ load_events "tiles"
                         (Z.of_nat (length (["a.png"%string]
                                            ++ "missing.png"%string
                                            :: ["b.png"%string])))
                         0 ["a.png"%string]
                    ++ [Opened (path_join "tiles" "missing.png")] |}).
Proof.
  assert (Hpre : Forall (fun file => exists tile,
                   loaded (E := Demo.broken) "tiles" (4, 4) "RGB" file tile)
                   ["a.png"%string]).
  { constructor; [|constructor]. eexists. exists Demo.tile4.
    split; reflexivity. }
  split; [repeat split; assumption|].
  exact (get_tiles_stops_at_first_failure (E := Demo.broken) "tiles" (4, 4)
           "RGB" ["a.png"%string] ["b.png"%string] "missing.png"
           (OSError "tiles/missing.png") initial eq_refl Hpre eq_refl).
Defined.

Lemma wrong_argument_count_prints_usage_witness :
  length ["target.png"%string] <> 6%nat
  /\ main (E := Demo.bare) ["mosaic.py"; "target.png"]%string initial
     = (Raise SystemExit,
        {| cached_avgs := [];
           trace := [] ++ map Print
             ["Usage: mosaic.py <image> <tiles directory> <output> <tile size> <scale> <method>";
              "image - image from which the mosaic is created";
              "tiles directory - directory containing the images to be used as tiles for the mosaic";
              "output - name of the output image";
              "tile size - size of the tiles in px";
              "scale - positive integer used for scaling the image";
              "method - the method used for finding the best matches: 'avg' or 'diff'"]%string |}).
Proof.
  assert (Hlen : length ["target.png"%string] <> 6%nat) by discriminate.
  split; [assumption|].
  exact (wrong_argument_count_prints_usage (E := Demo.bare) "mosaic.py"
           ["target.png"%string] initial Hlen).
Defined.

Lemma zero_tile_size_divides_by_zero_witness :
  (int (Env := Demo.bare) "0" = Ok 0
   /\ int (Env := Demo.bare) "1" = Ok 1
   /\ ("avg"%string = "avg"%string \/ "avg"%string = "diff"%string)
   /\ image_open (Env := Demo.bare) "target.png" = Ok Demo.picture
   /\ 0 < width Demo.picture /\ 0 < height Demo.picture)
  /\ main (E := Demo.bare)
       ["mosaic.py"; "target.png"; "tiles"; "out.png"; "0"; "1"; "avg"]%string
       initial
     = (Raise ZeroDivisionError,
        {| cached_avgs := []; trace := [Opened "target.png"] |}).
Proof.
  split; [repeat split; now left|].
  exact (zero_tile_size_divides_by_zero (E := Demo.bare)
           "mosaic.py" "target.png" "tiles" "out.png" "0" "1" "avg" 1
           Demo.picture eq_refl eq_refl (or_introl eq_refl) eq_refl
           eq_refl eq_refl).
Defined.

Lemma successful_run_saved_output_witness :
  exists s',
    main (E := Demo.studio)
      ["mosaic.py"; "target.png"; "tiles"; "out.png"; "4"; "1"; "diff"]%string
      initial = (Ok tt, s')
    /\ exists prog image tiles_path out_file a4 a5 method size scale
              target s1 tr out,
         ["mosaic.py"; "target.png"; "tiles"; "out.png"; "4"; "1"; "diff"]%string
         = [prog; image; tiles_path; out_file; a4; a5; method]
         /\ int (Env := Demo.studio) a4 = Ok size
         /\ int (Env := Demo.studio) a5 = Ok scale
         /\ (method = "avg"%string \/ method = "diff"%string)
         /\ get_target (E := Demo.studio) image (size, size)
              (clamp_scale scale) initial = (Ok target, s1)
         /\ size <> 0
         /\ size <= Z.min (width target) (height target)
         /\ trace s' = tr ++ [Saved out_file out; Print "Done.";
                              Print_run_time]
         /\ PIL.size out = PIL.size target.
Proof.
  eexists. split; [vm_compute; reflexivity|].
  apply (successful_run_saved_output (E := Demo.studio)).
  vm_compute. reflexivity.
Defined.

(** ** Pixels: where the samples of a picture lie *)

Section Pixels.

Lemma flat_map_of_map {A B C : Type} (h : A -> B) (g : B -> list C)
    (l : list A) :
  flat_map g (map h l) = flat_map (fun a => g (h a)) l.
Proof.
  induction l as [|a l IH]; [reflexivity|]. cbn. now rewrite IH.
Qed.

Lemma flat_map_length_chunks {A B : Type} (f : A -> list B) (l : list A)
    (b : nat) :
  (forall a, In a l -> length (f a) = b) ->
  length (flat_map f l) = (length l * b)%nat.
Proof.
  induction l as [|a l IH]; intros H; [reflexivity|].
  cbn [flat_map length]. rewrite length_app, H, IH; [lia| |now left].
  intros a' Ha'. apply H. now right.
Qed.

(** In a list of chunks of one length, chunk number [k] begins after
    [k] chunk lengths. *)
Lemma chunk_at {A : Type} (b : nat) (f : nat -> list A) :
  forall (k n start : nat),
    (k < n)%nat ->
    (forall i, (start <= i < start + n)%nat -> length (f i) = b) ->
    exists tail,
      skipn (k * b) (flat_map f (seq start n)) = f (start + k)%nat ++ tail.
Proof.
  induction k as [|k IH]; intros n start Hk Hlen;
    (destruct n as [|n]; [lia|]); cbn [seq flat_map].
  - rewrite Nat.add_0_r. eexists. reflexivity.
  - rewrite skipn_app, skipn_all2 by (rewrite Hlen; lia).
    rewrite Hlen by lia. cbn [app].
    replace (S k * b - b)%nat with (k * b)%nat by lia.
    destruct (IH n (S start)) as (tail & Htail); [lia| |].
    + intros i Hi. apply Hlen. lia.
    + exists tail. rewrite Htail. f_equal. f_equal. lia.
Qed.

(** The samples of pixel (x, y) in a raster written row by row. *)
Lemma raster_pixel (b : nat) (W H : Z) (P : Z -> Z -> list Z) (x y : Z) :
  0 <= x < W -> 0 <= y < H ->
  (forall x y, 0 <= x < W -> 0 <= y < H -> length (P x y) = b) ->
  firstn b
    (skipn (Z.to_nat (y * W + x) * b)
       (flat_map (fun y => flat_map (fun x => P x y) (range W)) (range H)))
  = P x y.
Proof.
  intros Hx Hy Hlen. unfold range. rewrite flat_map_of_map.
  set (row := fun i : nat =>
         flat_map (fun x => P x (Z.of_nat i))
           (map Z.of_nat (seq 0 (Z.to_nat W)))).
  assert (Hrow : forall i, (i < Z.to_nat H)%nat ->
                 length (row i) = (Z.to_nat W * b)%nat).
  { intros i Hi. unfold row. rewrite flat_map_of_map.
    rewrite (flat_map_length_chunks _ _ b), length_seq; [reflexivity|].
    intros j Hj. apply in_seq in Hj. apply Hlen; lia. }
  replace (Z.to_nat (y * W + x) * b)%nat
    with (Z.to_nat x * b + Z.to_nat y * (Z.to_nat W * b))%nat by nia.
  rewrite <- skipn_skipn.
  destruct (chunk_at (Z.to_nat W * b) row (Z.to_nat y) (Z.to_nat H) 0)
    as (tail & ->); [lia|intros i Hi; apply Hrow; lia|].
  cbn [Nat.add]. rewrite skipn_app.
  unfold row at 1. rewrite flat_map_of_map.
  destruct (chunk_at b (fun j => P (Z.of_nat j) (Z.of_nat (Z.to_nat y)))
              (Z.to_nat x) (Z.to_nat W) 0)
    as (tail' & ->); [lia|intros i Hi; apply Hlen; lia|].
  cbn [Nat.add]. rewrite !Z2Nat.id by lia.
  rewrite <- app_assoc, firstn_app, firstn_all2 by (rewrite Hlen; lia).
  rewrite Hlen by lia. rewrite Nat.sub_diag. cbn. now rewrite app_nil_r.
Qed.

Lemma raster_length (b : nat) (W H : Z) (P : Z -> Z -> list Z) :
  0 <= W -> 0 <= H ->
  (forall x y, 0 <= x < W -> 0 <= y < H -> length (P x y) = b) ->
  length (flat_map (fun y => flat_map (fun x => P x y) (range W)) (range H))
  = (Z.to_nat (W * H) * b)%nat.
Proof.
  intros HW HH Hlen. unfold range.
  rewrite flat_map_of_map, (flat_map_length_chunks _ _ (Z.to_nat W * b)).
  - rewrite length_seq, Z2Nat.inj_mul by lia. lia.
  - intros i Hi. apply in_seq in Hi. rewrite flat_map_of_map.
    rewrite (flat_map_length_chunks _ _ b), length_seq; [reflexivity|].
    intros j Hj. apply in_seq in Hj. apply Hlen; lia.
Qed.

Lemma inside_spec (img : Image) (x y : Z) :
  inside img x y = true <-> 0 <= x < width img /\ 0 <= y < height img.
Proof.
  unfold inside. rewrite !andb_true_iff, !Z.leb_le, !Z.ltb_lt. lia.
Qed.

Lemma getpixel_length (img : Image) (x y : Z) :
  well_formed img -> inside img x y = true ->
  length (getpixel img (x, y)) = bands img.
Proof.
  intros (HW & HH & Hdata) Hin. apply inside_spec in Hin.
  unfold getpixel. rewrite length_firstn, length_skipn, Hdata.
  assert (Z.to_nat (y * width img + x) + 1
          <= Z.to_nat (width img * height img))%nat by nia.
  nia.
Qed.

End Pixels.

Section PixelsOfOperations.

Lemma skipn_repeat_zero (k n : nat) :
  skipn k (repeat 0 n) = repeat 0 (n - k).
Proof.
  revert n. induction k as [|k IH]; intros n.
  - now rewrite Nat.sub_0_r.
  - destruct n as [|n]; [reflexivity|]. cbn. apply IH.
Qed.

Lemma firstn_repeat_zero (k n : nat) :
  (k <= n)%nat -> firstn k (repeat 0 n) = repeat 0 k.
Proof.
  revert n. induction k as [|k IH]; intros n Hk; [reflexivity|].
  destruct n as [|n]; [lia|]. cbn. f_equal. apply IH. lia.
Qed.

Lemma new_well_formed (m : string) (n : nat) (w h : Z) :
  0 <= w -> 0 <= h -> well_formed (new m n (w, h)).
Proof.
  intros Hw Hh. repeat split; cbn; try assumption.
  now rewrite repeat_length.
Qed.

(** A new picture is black. *)
Lemma new_pixel (m : string) (n : nat) (w h x y : Z) :
  0 <= x < w -> 0 <= y < h ->
  getpixel (new m n (w, h)) (x, y) = repeat 0 n.
Proof.
  intros Hx Hy. unfold getpixel, new. cbn [bands data width fst snd].
  rewrite skipn_repeat_zero, firstn_repeat_zero; [reflexivity|].
  assert (Z.to_nat (y * w + x) + 1 <= Z.to_nat (w * h))%nat by nia.
  nia.
Qed.

Lemma crop_well_formed (img : Image) (l u r lo : Z) :
  well_formed img -> l <= r -> u <= lo ->
  well_formed (crop img (l, u, r, lo)).
Proof.
  intros Hwf Hlr Hul. unfold well_formed, crop.
  cbn [width height bands data].
  split; [lia|]. split; [lia|].
  rewrite !flat_map_of_map.
  rewrite (flat_map_ext _
             (fun y => flat_map
                (fun x => if inside img (l + x) (u + y)
                          then getpixel img (l + x, u + y)
                          else repeat 0 (bands img))
                (range (r - l))))
    by (intros y; apply flat_map_of_map).
  apply (raster_length (bands img) (r - l) (lo - u)
           (fun x y => if inside img (l + x) (u + y)
                       then getpixel img (l + x, u + y)
                       else repeat 0 (bands img))); try lia.
  intros x y _ _. destruct (inside img (l + x) (u + y)) eqn:Hin.
  - now apply getpixel_length.
  - apply repeat_length.
Qed.

(** A pixel of a crop is the pixel of the picture at the same place
    of the box, black where the box leaves the picture. *)
Lemma crop_pixel (img : Image) (l u r lo x y : Z) :
  well_formed img -> 0 <= x < r - l -> 0 <= y < lo - u ->
  getpixel (crop img (l, u, r, lo)) (x, y)
  = if inside img (l + x) (u + y) then getpixel img (l + x, u + y)
    else repeat 0 (bands img).
Proof.
  intros Hwf Hx Hy. unfold getpixel at 1, crop.
  cbn [width height bands data].
  rewrite !flat_map_of_map.
  rewrite (flat_map_ext _
             (fun y => flat_map
                (fun x => if inside img (l + x) (u + y)
                          then getpixel img (l + x, u + y)
                          else repeat 0 (bands img))
                (range (r - l))))
    by (intros y0; apply flat_map_of_map).
  apply (raster_pixel (bands img) (r - l) (lo - u)
           (fun x y => if inside img (l + x) (u + y)
                       then getpixel img (l + x, u + y)
                       else repeat 0 (bands img))); try lia.
  intros x0 y0 _ _. destruct (inside img (l + x0) (u + y0)) eqn:Hin.
  - now apply getpixel_length.
  - apply repeat_length.
Qed.

(** Pasting keeps the size, the mode and the bands, and a picture
    that was well formed stays so. *)
Lemma paste_well_formed (out out' tile : Image) (x0 y0 : Z) :
  well_formed out -> well_formed tile -> bands tile = bands out ->
  paste out (Some tile) (x0, y0) = Ok out' ->
  well_formed out' /\ size out' = size out /\ bands out' = bands out
  /\ mode out' = mode out.
Proof.
  intros Hwf Ht Hb Hp. cbn in Hp. injection Hp as <-.
  repeat split; try apply Hwf. cbn [width height bands data].
  pose proof Hwf as (HW & HH & _).
  apply (raster_length (bands out) (width out) (height out)
           (fun x y => if inside tile (x - x0) (y - y0)
                       then getpixel tile (x - x0, y - y0)
                       else getpixel out (x, y))); try assumption.
  intros x y Hx Hy. destruct (inside tile (x - x0) (y - y0)) eqn:Hin.
  - rewrite <- Hb. now apply getpixel_length.
  - apply getpixel_length; [assumption|]. apply inside_spec. lia.
Qed.

(** After a paste a pixel is the tile's where the tile lies and what
    it was before elsewhere. *)
Lemma paste_pixel (out out' tile : Image) (x0 y0 x y : Z) :
  well_formed out -> well_formed tile -> bands tile = bands out ->
  paste out (Some tile) (x0, y0) = Ok out' ->
  inside out x y = true ->
  getpixel out' (x, y)
  = if inside tile (x - x0) (y - y0) then getpixel tile (x - x0, y - y0)
    else getpixel out (x, y).
Proof.
  intros Hwf Ht Hb Hp Hin. cbn in Hp. injection Hp as <-.
  apply inside_spec in Hin. unfold getpixel at 1.
  cbn [width height bands data].
  apply (raster_pixel (bands out) (width out) (height out)
           (fun x y => if inside tile (x - x0) (y - y0)
                       then getpixel tile (x - x0, y - y0)
                       else getpixel out (x, y))); try lia.
  intros x1 y1 Hx1 Hy1. destruct (inside tile (x1 - x0) (y1 - y0)) eqn:Hin1.
  - rewrite <- Hb. now apply getpixel_length.
  - apply getpixel_length; [assumption|]. apply inside_spec. lia.
Qed.

End PixelsOfOperations.

(** ** The pasted picture *)

Section Pasting.

Variables (w h : Z).

Hypothesis w_pos : 0 < w.
Hypothesis h_pos : 0 < h.

(** The column of the cell a position lies in. *)
Lemma cell_index (t x j : Z) :
  0 < t -> (0 <= x - j * t < t <-> x / t = j).
Proof.
  intros Ht. split.
  - intros Hx. symmetry. apply (Z.div_unique_pos x t j (x - j * t)); lia.
  - intros <-. pose proof (Z.mod_pos_bound x t Ht).
    pose proof (Z.div_mod x t). lia.
Qed.

Lemma cell_offset (t x : Z) : 0 < t -> x - x / t * t = x mod t.
Proof. intros Ht. pose proof (Z.div_mod x t). lia. Qed.

Lemma inside_tile (tile : Image) (x y i j : Z) :
  size tile = (w, h) ->
  inside tile (x - j * w) (y - i * h)
  = (x / w =? j) && (y / h =? i).
Proof.
  intros Hsize. unfold size in Hsize. injection Hsize as Hw Hh.
  pose proof (cell_index w x j w_pos). pose proof (cell_index h y i h_pos).
  destruct ((x / w =? j) && (y / h =? i)) eqn:Hc.
  - apply andb_true_iff in Hc as [Hx Hy]. apply Z.eqb_eq in Hx, Hy.
    apply inside_spec. rewrite Hw, Hh. tauto.
  - destruct (inside tile (x - j * w) (y - i * h)) eqn:Hin; [|reflexivity].
    apply inside_spec in Hin. rewrite Hw, Hh in Hin.
    apply andb_false_iff in Hc as [Hc|Hc]; apply Z.eqb_neq in Hc; tauto.
Qed.

(** Pasting one row of tiles, from column [j0] on. *)
Lemma paste_row_pixels (i : Z) (row : list (option Image)) :
  forall (out : Image) (j0 : Z),
    well_formed out ->
    Forall (fits w h (bands out)) row ->
    exists out',
      paste_row out row w h i j0 = Ok out'
      /\ well_formed out' /\ size out' = size out
      /\ bands out' = bands out /\ mode out' = mode out
      /\ forall x y, inside out x y = true ->
           getpixel out' (x, y)
           = match (if (y / h =? i) && (j0 <=? x / w)
                    then nth_error row (Z.to_nat (x / w - j0))
                    else None) with
             | Some (Some tile) => getpixel tile (x mod w, y mod h)
             | _ => getpixel out (x, y)
             end.
Proof.
  induction row as [|o row IH]; intros out j0 Hwf Hfits.
  - exists out. cbn [paste_row]. repeat (split; [reflexivity || assumption|]).
    intros x y _. destruct (_ && _); [|reflexivity].
    now destruct (Z.to_nat (x / w - j0)).
  - inversion Hfits as [|? ? (t & -> & Ht & Hsize & Hb) Hrest]; subst.
    cbn [paste_row].
    destruct (paste out (Some t) (j0 * w, i * h)) as [out1|e] eqn:Hp;
      [|discriminate].
    destruct (paste_well_formed out out1 t _ _ Hwf Ht Hb Hp)
      as (Hwf1 & Hsize1 & Hb1 & Hm1).
    destruct (IH out1 (j0 + 1) Hwf1) as (out' & Hrow & Hwf' & Hs' & Hb' & Hm' & Hpix).
    { now rewrite Hb1. }
    exists out'. cbn [obind]. split; [exact Hrow|]. split; [assumption|].
    split; [congruence|]. split; [congruence|]. split; [congruence|].
    intros x y Hin.
    assert (Hin1 : inside out1 x y = true).
    { apply inside_spec. apply inside_spec in Hin.
      unfold size in Hsize1. injection Hsize1 as -> ->. assumption. }
    rewrite (Hpix x y Hin1).
    rewrite (paste_pixel out out1 t _ _ x y Hwf Ht Hb Hp Hin).
    rewrite (inside_tile t x y i j0 Hsize).
    destruct (y / h =? i) eqn:Hy; cbn [andb];
      [|rewrite andb_false_r; reflexivity].
    rewrite andb_true_r.
    destruct (x / w =? j0) eqn:Hx.
    + apply Z.eqb_eq in Hx. apply Z.eqb_eq in Hy.
      assert ((j0 + 1 <=? x / w) = false) as -> by (apply Z.leb_gt; lia).
      assert ((j0 <=? x / w) = true) as -> by (apply Z.leb_le; lia).
      replace (Z.to_nat (x / w - j0)) with 0%nat by lia. cbn [nth_error].
      rewrite <- Hx, <- Hy, !cell_offset by assumption. reflexivity.
    + apply Z.eqb_neq in Hx.
      destruct (j0 + 1 <=? x / w) eqn:Hle.
      * apply Z.leb_le in Hle.
        assert ((j0 <=? x / w) = true) as -> by (apply Z.leb_le; lia).
        replace (Z.to_nat (x / w - j0))
          with (S (Z.to_nat (x / w - (j0 + 1)))) by lia.
        reflexivity.
      * apply Z.leb_gt in Hle.
        assert ((j0 <=? x / w) = false) as -> by (apply Z.leb_gt; lia).
        reflexivity.
Qed.

(** Pasting the rows of a matched grid, from row [i0] on. *)
Lemma paste_grid_pixels (rows : list (list (option Image))) :
  forall (out : Image) (i0 : Z),
    well_formed out ->
    Forall (Forall (fits w h (bands out))) rows ->
    exists out',
      paste_grid out rows w h i0 = Ok out'
      /\ well_formed out' /\ size out' = size out
      /\ bands out' = bands out /\ mode out' = mode out
      /\ forall x y, inside out x y = true ->
           getpixel out' (x, y)
           = match (if i0 <=? y / h
                    then tile_at rows (y / h - i0) (x / w)
                    else None) with
             | Some tile => getpixel tile (x mod w, y mod h)
             | None => getpixel out (x, y)
             end.
Proof.
  induction rows as [|row rows IH]; intros out i0 Hwf Hfits.
  - exists out. cbn [paste_grid]. repeat (split; [reflexivity || assumption|]).
    intros x y _. unfold tile_at. destruct (_ <=? _); [|reflexivity].
    now destruct (Z.to_nat (y / h - i0)).
  - inversion Hfits as [|? ? Hrow Hrest]; subst. cbn [paste_grid].
    destruct (paste_row_pixels i0 row out 0 Hwf Hrow)
      as (out1 & -> & Hwf1 & Hsize1 & Hb1 & Hm1 & Hpix1).
    destruct (IH out1 (i0 + 1) Hwf1)
      as (out' & Hgrid & Hwf' & Hs' & Hb' & Hm' & Hpix).
    { now rewrite Hb1. }
    exists out'. cbn [obind]. split; [exact Hgrid|]. split; [assumption|].
    split; [congruence|]. split; [congruence|]. split; [congruence|].
    intros x y Hin.
    assert (Hin1 : inside out1 x y = true).
    { apply inside_spec. apply inside_spec in Hin.
      unfold size in Hsize1. injection Hsize1 as -> ->. assumption. }
    rewrite (Hpix x y Hin1), (Hpix1 x y Hin).
    assert (Hx : 0 <= x / w)
      by (apply inside_spec in Hin; apply Z.div_pos; lia).
    assert ((0 <=? x / w) = true) as -> by (now apply Z.leb_le).
    rewrite andb_true_r, Z.sub_0_r. unfold tile_at.
    destruct (y / h =? i0) eqn:Hy.
    + apply Z.eqb_eq in Hy.
      assert ((i0 + 1 <=? y / h) = false) as -> by (apply Z.leb_gt; lia).
      assert ((i0 <=? y / h) = true) as -> by (apply Z.leb_le; lia).
      replace (Z.to_nat (y / h - i0)) with 0%nat by lia. cbn [nth_error].
      destruct (nth_error row (Z.to_nat (x / w))) as [[t|]|]; reflexivity.
    + apply Z.eqb_neq in Hy.
      destruct (i0 + 1 <=? y / h) eqn:Hle.
      * apply Z.leb_le in Hle.
        assert ((i0 <=? y / h) = true) as -> by (apply Z.leb_le; lia).
        replace (Z.to_nat (y / h - i0))
          with (S (Z.to_nat (y / h - (i0 + 1)))) by lia.
        reflexivity.
      * apply Z.leb_gt in Hle.
        assert ((i0 <=? y / h) = false) as -> by (apply Z.leb_gt; lia).
        reflexivity.
Qed.

End Pasting.

(** ** The cells of the grid and the finished mosaic *)

Section Cells.

Variables (image : Image) (w h : Z).

Hypothesis w_pos : 0 < w.
Hypothesis h_pos : 0 < h.
Hypothesis image_well_formed : well_formed image.

Lemma nth_error_map_range {A : Type} (f : Z -> A) (n : Z) (k : nat) :
  nth_error (map f (range n)) k
  = if (k <? Z.to_nat n)%nat then Some (f (Z.of_nat k)) else None.
Proof.
  unfold range. rewrite map_map, nth_error_map.
  destruct (Nat.ltb_spec k (Z.to_nat n)) as [Hk|Hk].
  - rewrite (nth_error_nth' _ 0%nat) by (now rewrite length_seq).
    now rewrite seq_nth.
  - assert (nth_error (seq 0 (Z.to_nat n)) k = None) as ->
      by (apply nth_error_None; now rewrite length_seq).
    reflexivity.
Qed.

Lemma gridify_grid :
  gridify image (w, h)
  = Ok (map (fun i => map (fun j => grid_cell image w h i j)
                       (range (width image / w)))
          (range (height image / h))).
Proof.
  unfold gridify, floordiv.
  assert ((h =? 0) = false) as -> by (apply Z.eqb_neq; lia).
  assert ((w =? 0) = false) as -> by (apply Z.eqb_neq; lia).
  reflexivity.
Qed.

Lemma covered (t n x : Z) : 0 < t -> 0 <= x -> (x < n / t * t <-> x / t < n / t).
Proof.
  intros Ht Hx. pose proof (Z.div_mod x t). pose proof (Z.mod_pos_bound x t Ht).
  split; intros; nia.
Qed.

Lemma cell_well_formed (i j : Z) :
  well_formed (grid_cell image w h i j)
  /\ size (grid_cell image w h i j) = (w, h)
  /\ bands (grid_cell image w h i j) = bands image.
Proof.
  split; [apply crop_well_formed; [assumption|lia|lia]|].
  split; [|reflexivity]. unfold size, grid_cell. cbn [crop width height].
  f_equal; lia.
Qed.

(** A pixel of a cell that lies inside the image. *)
Lemma cell_pixel (i j x y : Z) :
  0 <= i -> 0 <= j ->
  (j + 1) * w <= width image -> (i + 1) * h <= height image ->
  0 <= x < w -> 0 <= y < h ->
  getpixel (grid_cell image w h i j) (x, y)
  = getpixel image (j * w + x, i * h + y).
Proof.
  intros Hi Hj Hjw Hih Hx Hy. unfold grid_cell.
  rewrite crop_pixel by (assumption || lia).
  assert (inside image (j * w + x) (i * h + y) = true) as ->
    by (apply inside_spec; nia).
  reflexivity.
Qed.

(** X13.  The cells of a well-formed picture partition what the grid
    covers: a pixel (x, y) left of [cols * w] and above [rows * h] lies
    in the cell of row [y // h] and column [x // w], at the offset
    (x mod w, y mod h), and every pixel of a cell is the pixel of the
    picture at the cell's place. *)
Theorem gridify_partitions (grid : list (list Image)) :
  gridify image (w, h) = Ok grid ->
  (forall x y,
     0 <= x < width image / w * w -> 0 <= y < height image / h * h ->
     exists row c,
       nth_error grid (Z.to_nat (y / h)) = Some row
       /\ nth_error row (Z.to_nat (x / w)) = Some c
       /\ getpixel c (x mod w, y mod h) = getpixel image (x, y))
  /\ (forall i j row c,
        nth_error grid i = Some row -> nth_error row j = Some c ->
        well_formed c
        /\ forall x y, 0 <= x < w -> 0 <= y < h ->
             getpixel c (x, y)
             = getpixel image (Z.of_nat j * w + x, Z.of_nat i * h + y)).
Proof.
  rewrite gridify_grid. intros [= <-].
  pose proof (Z.mul_div_le (width image) w w_pos) as Hcw.
  pose proof (Z.mul_div_le (height image) h h_pos) as Hrh.
  split.
  - intros x y Hx Hy.
    assert (Hj : 0 <= x / w < width image / w)
      by (split; [apply Z.div_pos; lia|apply covered; lia]).
    assert (Hi : 0 <= y / h < height image / h)
      by (split; [apply Z.div_pos; lia|apply covered; lia]).
    exists (map (fun j => grid_cell image w h (y / h) j)
              (range (width image / w))),
           (grid_cell image w h (y / h) (x / w)).
    rewrite !nth_error_map_range.
    assert ((Z.to_nat (y / h) <? Z.to_nat (height image / h))%nat = true)
      as -> by (apply Nat.ltb_lt; lia).
    assert ((Z.to_nat (x / w) <? Z.to_nat (width image / w))%nat = true)
      as -> by (apply Nat.ltb_lt; lia).
    rewrite !Z2Nat.id by lia. split; [reflexivity|]. split; [reflexivity|].
    rewrite cell_pixel.
    + pose proof (Z.div_mod x w). pose proof (Z.div_mod y h).
      f_equal. f_equal; lia.
    + lia.
    + lia.
    + nia.
    + nia.
    + apply Z.mod_pos_bound; lia.
    + apply Z.mod_pos_bound; lia.
  - intros i j row c Hrow Hc. rewrite nth_error_map_range in Hrow.
    destruct (Nat.ltb_spec i (Z.to_nat (height image / h))) as [Hi|];
      [|discriminate].
    injection Hrow as <-. rewrite nth_error_map_range in Hc.
    destruct (Nat.ltb_spec j (Z.to_nat (width image / w))) as [Hj|];
      [|discriminate].
    injection Hc as <-. split; [apply cell_well_formed|].
    intros x y Hx Hy. apply cell_pixel; try lia; nia.
Qed.

End Cells.

Section Finished.

Context {E : Env}.

Variables (image : Image) (tiles : list Image) (w h : Z).
Variables (out_file method : string).

Hypothesis w_fits : 0 < w <= width image.
Hypothesis h_fits : 0 < h <= height image.
Hypothesis image_well_formed : well_formed image.
Hypothesis some_tiles : tiles <> [].
Hypothesis tiles_fit :
  Forall (fun tile => fits w h (bands image) (Some tile)) tiles.
Hypothesis known : method = "avg"%string \/ method = "diff"%string.

(** In 'avg' mode the average colours of tiles and cells must have one
    number of channels: the filter of the environment decides that. *)
Hypothesis averages_comparable :
  method = "avg"%string ->
  forall i j, Forall (comparable "avg" (grid_cell image w h i j)) tiles.

Lemma best_tile_fits (c : Image) :
  fits w h (bands image) (best_tile method tiles c).
Proof.
  unfold best_tile.
  destruct (best_of_first_min (dissimilarity method c) tiles some_tiles)
    as (k & best & -> & Hk & _).
  apply nth_error_In in Hk. rewrite Forall_forall in tiles_fit.
  now apply tiles_fit.
Qed.

Lemma cell_comparable (i j : Z) :
  Forall (comparable method (grid_cell image w h i j)) tiles.
Proof.
  destruct known as [->| ->]; [now apply averages_comparable|].
  rewrite Forall_forall in *. intros tile Hin.
  destruct (tiles_fit tile Hin) as (t & [= <-] & Hwf & Hsize & Hb).
  destruct (cell_well_formed image w h ltac:(lia) ltac:(lia)
              image_well_formed i j) as (Hcwf & Hcsize & Hcb).
  change (same_shape (asarray (grid_cell image w h i j)) (asarray tile)
          = true).
  assert (Hw : width tile = w) by exact (f_equal fst Hsize).
  assert (Hh : height tile = h) by exact (f_equal snd Hsize).
  assert (Hcw : width (grid_cell image w h i j) = w)
    by exact (f_equal fst Hcsize).
  assert (Hch : height (grid_cell image w h i j) = h)
    by exact (f_equal snd Hcsize).
  unfold same_shape, shape_eqb, asarray. cbn [shape values].
  destruct (list_eq_dec Z.eq_dec _ _) as [_|Hne].
  - destruct Hwf as (_ & _ & ->). destruct Hcwf as (_ & _ & ->).
    rewrite Hw, Hh, Hcw, Hch, Hb, Hcb. apply Nat.eqb_refl.
  - exfalso. apply Hne. rewrite Hw, Hh, Hcw, Hch, Hb, Hcb. reflexivity.
Qed.

(** X14.  A run of [mosaic] as [main] starts it, with the mode of the
    picture, on a well-formed picture that holds at least one cell,
    with tiles of that mode, of the tile size and of the picture's
    bands, cells and tiles being of 8-bit samples, so that the
    dissimilarity of a tile to a cell is the value [error] has in
    binary64, from a cache that is empty or holds the tiles'
    averages: every cell is matched, one percentage is
    written per row, and the saved picture has the size of the picture
    it was given.  A pixel the grid covers is the pixel, at its offset
    in the cell, of the first tile of minimal dissimilarity to its
    cell; the pixels right of and below the grid are black.  The saved
    picture is the same from the empty and from the populated cache,
    and in 'avg' mode the cache holds the averages of the tiles
    afterwards. *)
Theorem mosaic_pixels :
  Forall (fun tile => mode tile = mode image) tiles ->
  (forall i j, 0 <= i < height image / h -> 0 <= j < width image / w ->
     eight_bit (compared method (grid_cell image w h i j))) ->
  Forall (fun tile => eight_bit (compared method tile)) tiles ->
  (forall out, image_save out out_file = Ok tt) ->
  (exists out,
     (forall s,
        (method = "avg"%string ->
         cached_avgs s = [] \/ cached_avgs s = averages tiles) ->
        mosaic image tiles (w, h) out_file (mode image) method s
        = (Ok tt,
           {| cached_avgs := if String.eqb method "avg" then averages tiles
                             else cached_avgs s;
              trace := trace s
                       ++ [Print "Finding best matches..."]
                       ++ percents (Z.to_nat (height image / h))
                       ++ [Print "Done."; Print "Creating mosaic...";
                           Saved out_file out; Print "Done."] |}))
     /\ mode out = mode image
     /\ size out = size image
     /\ forall x y, 0 <= x < width image -> 0 <= y < height image ->
          if (x <? width image / w * w) && (y <? height image / h * h)
          then exists tile,
                 best_tile method tiles (grid_cell image w h (y / h) (x / w))
                 = Some tile
                 /\ getpixel out (x, y) = getpixel tile (x mod w, y mod h)
          else getpixel out (x, y) = repeat 0 (bands image))
  /\ (forall i j tile r,
        0 <= i < height image / h -> 0 <= j < width image / w ->
        In tile tiles ->
        error64 (operand method (grid_cell image w h i j))
          (operand method tile) r ->
        r = dissimilarity method (grid_cell image w h i j) tile).
Proof.
  intros _ Hcells8 Htiles8 Hsave. split.
  2:{ intros i j tile r Hi Hj Hin.
      apply dissimilarity_exact; [now apply Hcells8|].
      rewrite Forall_forall in Htiles8. now apply Htiles8. }
  assert (Hw : 0 < w) by lia. assert (Hh : 0 < h) by lia.
  assert (Hrows : 1 <= height image / h)
    by (apply Z.div_le_lower_bound; lia).
  assert (Hcols : 1 <= width image / w)
    by (apply Z.div_le_lower_bound; lia).
  set (grid := map (fun i => map (fun j => grid_cell image w h i j)
                                 (range (width image / w)))
                 (range (height image / h))).
  assert (Hlen : length grid = Z.to_nat (height image / h))
    by (unfold grid, range; now rewrite !length_map, length_seq).
  assert (Hcells : Forall (Forall (fun c =>
                      Forall (comparable method c) tiles)) grid).
  { unfold grid. apply Forall_map, Forall_forall. intros i _.
    apply Forall_map, Forall_forall. intros j _. apply cell_comparable. }
  assert (Hsome : exists c cs, concat grid = c :: cs).
  { unfold grid, range.
    destruct (Z.to_nat (height image / h)) as [|r] eqn:Hr; [lia|].
    destruct (Z.to_nat (width image / w)) as [|c] eqn:Hc; [lia|].
    cbn [seq map concat app]. eauto. }
  destruct Hsome as (c0 & cs & Hconcat).
  set (matched := map (map (best_tile method tiles)) grid).
  assert (Hfits : Forall (Forall (fits w h (bands image))) matched).
  { unfold matched. apply Forall_map, Forall_forall. intros row _.
    apply Forall_map, Forall_forall. intros c _. apply best_tile_fits. }
  destruct image_well_formed as (HW & HH & Hdata).
  destruct (paste_grid_pixels w h Hw Hh matched
              (mosaic_output (mode image) image) 0)
    as (out & Hpaste & _ & Hsize & _ & Hmode & Hpix).
  { apply new_well_formed; assumption. }
  { exact Hfits. }
  exists out. split; [|split; [exact Hmode|split; [exact Hsize|]]].
  - intros s Hcache.
    unfold mosaic. rewrite (gridify_grid image w h Hw Hh).
    unfold bind at 1, lift at 1. unfold bind at 1, print at 1, emit at 1.
    unfold bind at 1, ProgressCounter_init. fold grid.
    rewrite (match_grid_best_tiles tiles method known) by
      (first [rewrite Hlen; lia | assumption]).
    cbn [app]. fold matched. rewrite Hconcat.
    unfold bind at 1, print at 1, emit at 1.
    unfold bind at 1, print at 1, emit at 1.
    unfold bind at 1, lift at 1. rewrite Hpaste.
    unfold bind at 1, lift at 1. rewrite Hsave.
    unfold bind, print, emit. cbn [cached_avgs trace].
    rewrite Hlen, <- !app_assoc. reflexivity.
  - intros x y Hx Hy.
    assert (Hin : inside (mosaic_output (mode image) image) x y = true)
      by (apply inside_spec; cbn; lia).
    assert (Hy0 : 0 <= y / h) by (apply Z.div_pos; lia).
    assert (Hx0 : 0 <= x / w) by (apply Z.div_pos; lia).
    pose proof (covered w (width image) x Hw ltac:(lia)) as Hcx.
    pose proof (covered h (height image) y Hh ltac:(lia)) as Hcy.
    assert (Htile : tile_at matched (y / h) (x / w)
                    = if (x <? width image / w * w)
                         && (y <? height image / h * h)
                      then best_tile method tiles
                             (grid_cell image w h (y / h) (x / w))
                      else None).
    { unfold tile_at, matched. rewrite nth_error_map. unfold grid.
      rewrite nth_error_map_range, Z2Nat.id by assumption.
      destruct (Z.ltb_spec y (height image / h * h)) as [Hyin|Hyout].
      - assert ((Z.to_nat (y / h) <? Z.to_nat (height image / h))%nat = true)
          as -> by (apply Nat.ltb_lt; lia).
        cbn [option_map]. rewrite nth_error_map, nth_error_map_range.
        rewrite Z2Nat.id by assumption.
        destruct (Z.ltb_spec x (width image / w * w)) as [Hxin|Hxout].
        + assert ((Z.to_nat (x / w) <? Z.to_nat (width image / w))%nat
                  = true) as -> by (apply Nat.ltb_lt; lia).
          reflexivity.
        + assert ((Z.to_nat (x / w) <? Z.to_nat (width image / w))%nat
                  = false) as -> by (apply Nat.ltb_ge; lia).
          reflexivity.
      - assert ((Z.to_nat (y / h) <? Z.to_nat (height image / h))%nat = false)
          as -> by (apply Nat.ltb_ge; lia).
        now rewrite andb_false_r. }
    assert (Hout : getpixel out (x, y)
                   = match tile_at matched (y / h) (x / w) with
                     | Some tile => getpixel tile (x mod w, y mod h)
                     | None => repeat 0 (bands image)
                     end).
    { rewrite (Hpix x y Hin).
      assert ((0 <=? y / h) = true) as -> by (now apply Z.leb_le).
      rewrite Z.sub_0_r. destruct (tile_at matched (y / h) (x / w));
        [reflexivity|].
      unfold mosaic_output, size. apply new_pixel; assumption. }
    rewrite Hout, Htile.
    destruct ((x <? width image / w * w) && (y <? height image / h * h));
      [|reflexivity].
    destruct (best_tile_fits (grid_cell image w h (y / h) (x / w)))
      as (tile & Htile' & _).
    rewrite Htile'. now exists tile.
Qed.

End Finished.

Lemma gridify_partitions_witness :
  (0 < 2 /\ 0 < 2 /\ well_formed Demo.prepared)
  /\ exists grid,
       gridify Demo.prepared (2, 2) = Ok grid
       /\ (forall x y,
             0 <= x < width Demo.prepared / 2 * 2 ->
             0 <= y < height Demo.prepared / 2 * 2 ->
             exists row c,
               nth_error grid (Z.to_nat (y / 2)) = Some row
               /\ nth_error row (Z.to_nat (x / 2)) = Some c
               /\ getpixel c (x mod 2, y mod 2)
                  = getpixel Demo.prepared (x, y))
       /\ (forall i j row c,
             nth_error grid i = Some row -> nth_error row j = Some c ->
             well_formed c
             /\ forall x y, 0 <= x < 2 -> 0 <= y < 2 ->
                  getpixel c (x, y)
                  = getpixel Demo.prepared
                      (Z.of_nat j * 2 + x, Z.of_nat i * 2 + y)).
Proof.
  assert (Hwf : well_formed Demo.prepared)
    by (repeat split; (discriminate || reflexivity)).
  split; [repeat split; apply Hwf|].
  eexists. split; [reflexivity|].
  apply (gridify_partitions Demo.prepared 2 2); try reflexivity.
  exact Hwf.
Defined.

(** With the filter of the small environment an average colour has as
    many channels as the picture has bands. *)
Lemma demo_average_channels (img : Image) :
  length (avg_colour (E := Demo.plain) img) = bands img.
Proof.
  unfold avg_colour, getpixel. cbn [mode width height bands data].
  change (resample img (1, 1) (full_box img))
    with (Demo.mean_colour img ++ []).
  rewrite app_nil_r. change (Z.to_nat (0 * 1 + 0) * bands img)%nat with 0%nat.
  cbn [skipn]. unfold Demo.mean_colour.
  rewrite firstn_all2; rewrite length_map, length_seq; reflexivity.
Qed.

Lemma mosaic_pixels_witness :
  let image := Demo.prepared in
  let tiles := [Demo.tile4; Demo.solid 4 4 [200; 200; 200]] in
  (0 < 4 <= width image /\ 0 < 4 <= height image
   /\ well_formed image /\ tiles <> []
   /\ Forall (fun tile => fits 4 4 (bands image) (Some tile)) tiles
   /\ ("avg"%string = "avg"%string \/ "avg"%string = "diff"%string)
   /\ ("avg"%string = "avg"%string ->
       forall i j,
         Forall (comparable (E := Demo.plain) "avg"
                   (grid_cell image 4 4 i j)) tiles)
   /\ Forall (fun tile => mode tile = mode image) tiles
   /\ (forall i j, 0 <= i < height image / 4 -> 0 <= j < width image / 4 ->
         eight_bit (compared (E := Demo.plain) "avg"
                      (grid_cell image 4 4 i j)))
   /\ Forall (fun tile => eight_bit (compared (E := Demo.plain) "avg" tile))
        tiles
   /\ (forall out, image_save (Env := Demo.plain) out "out.png" = Ok tt))
  /\ (exists out,
        (forall s,
           ("avg"%string = "avg"%string ->
            cached_avgs s = []
            \/ cached_avgs s = averages (E := Demo.plain) tiles) ->
           mosaic (E := Demo.plain) image tiles (4, 4) "out.png" "RGB" "avg" s
           = (Ok tt,
              {| cached_avgs := if String.eqb "avg" "avg"
                                then averages (E := Demo.plain) tiles
                                else cached_avgs s;
                 trace := trace s
                          ++ [Print "Finding best matches..."]
                          ++ percents (Z.to_nat (height image / 4))
                          ++ [Print "Done."; Print "Creating mosaic...";
                              Saved "out.png" out; Print "Done."] |}))
        /\ mode out = "RGB"%string
        /\ size out = size image
        /\ forall x y, 0 <= x < width image -> 0 <= y < height image ->
             if (x <? width image / 4 * 4) && (y <? height image / 4 * 4)
             then exists tile,
                    best_tile (E := Demo.plain) "avg" tiles
                      (grid_cell image 4 4 (y / 4) (x / 4)) = Some tile
                    /\ getpixel out (x, y) = getpixel tile (x mod 4, y mod 4)
             else getpixel out (x, y) = repeat 0 (bands image))
  /\ (forall i j tile r,
        0 <= i < height image / 4 -> 0 <= j < width image / 4 ->
        In tile tiles ->
        error64 (operand (E := Demo.plain) "avg" (grid_cell image 4 4 i j))
          (operand (E := Demo.plain) "avg" tile) r ->
        r = dissimilarity (E := Demo.plain) "avg" (grid_cell image 4 4 i j)
              tile).
Proof.
  set (image := Demo.prepared).
  set (tiles := [Demo.tile4; Demo.solid 4 4 [200; 200; 200]]).
  assert (Hw : 0 < 4 <= width image) by (split; [reflexivity|discriminate]).
  assert (Hh : 0 < 4 <= height image) by (split; [reflexivity|discriminate]).
  assert (Hwf : well_formed image)
    by (repeat split; (discriminate || reflexivity)).
  assert (Hne : tiles <> []) by discriminate.
  assert (Hfit : Forall (fun tile => fits 4 4 (bands image) (Some tile))
                   tiles).
  { repeat constructor; eexists; (split; [reflexivity|]);
      repeat split; (discriminate || reflexivity). }
  assert (Hknown : "avg"%string = "avg"%string \/ "avg"%string = "diff"%string)
    by (now left).
  assert (Havg : "avg"%string = "avg"%string ->
            forall i j,
              Forall (comparable (E := Demo.plain) "avg"
                        (grid_cell image 4 4 i j)) tiles).
  { intros _ i j. repeat constructor;
      change (comparable (E := Demo.plain) "avg" ?c ?t)
        with (length (avg_colour (E := Demo.plain) t)
              = length (avg_colour (E := Demo.plain) c));
      now rewrite !demo_average_channels. }
  assert (Hmodes : Forall (fun tile => mode tile = mode image) tiles)
    by (repeat constructor).
  assert (Hcells : forall i j,
            0 <= i < height image / 4 -> 0 <= j < width image / 4 ->
            eight_bit (compared (E := Demo.plain) "avg"
                         (grid_cell image 4 4 i j))).
  { intros i j Hi Hj.
    change (height image / 4) with 1 in Hi.
    change (width image / 4) with 1 in Hj.
    assert (i = 0) as -> by lia. assert (j = 0) as -> by lia.
    split; [repeat constructor; discriminate|reflexivity]. }
  assert (Htiles : Forall (fun tile =>
                             eight_bit (compared (E := Demo.plain) "avg" tile))
                     tiles)
    by (repeat constructor; discriminate).
  assert (Hsave : forall out,
            image_save (Env := Demo.plain) out "out.png" = Ok tt)
    by reflexivity.
  split.
  { split; [exact Hw|]. split; [exact Hh|]. split; [exact Hwf|].
    split; [exact Hne|]. split; [exact Hfit|]. split; [exact Hknown|].
    split; [exact Havg|]. split; [exact Hmodes|]. split; [exact Hcells|].
    split; [exact Htiles|exact Hsave]. }
  exact (mosaic_pixels (E := Demo.plain) image tiles 4 4 "out.png"
           "avg" Hw Hh Hwf Hne Hfit Hknown Havg Hmodes Hcells Htiles Hsave).
Defined.

(** ** A tile larger than the picture *)

Section TooLarge.

Context {E : Env}.

Lemma match_grid_empty_rows (tiles : list Image) (method : string) (n : Z)
    (grid : list (list Image)) :
  Forall (fun row => row = []) grid ->
  grid = [] \/ n <> 0 ->
  forall (mosaic_tiles : list (list (option Image))) (c : Z) (s : state),
    match_grid grid tiles method mosaic_tiles
      {| total := n; counter := c |} s
    = (Ok (mosaic_tiles ++ map (fun _ => []) grid),
       {| cached_avgs := cached_avgs s;
          trace := trace s
                   ++ map (fun i => Percent (100 * (c + Z.of_nat (S i)) / n))
                        (seq 0 (length grid)) |}).
Proof.
  induction 1 as [|row grid Hrow _ IH]; intros Hn mosaic_tiles c s.
  - cbn. rewrite !app_nil_r. now destruct s.
  - destruct Hn as [|Hn]; [discriminate|]. subst row.
    cbn [match_grid match_row]. unfold bind at 1, ret at 1.
    unfold bind at 1. rewrite update_run by assumption.
    rewrite IH by (now right).
    cbn [cached_avgs trace length seq map].
    rewrite <- seq_shift, map_map, <- !app_assoc. cbn [app].
    replace (c + Z.of_nat 1) with (c + 1) by lia.
    rewrite (map_ext
               (fun i => Percent (100 * (c + 1 + Z.of_nat (S i)) / n))
               (fun i => Percent (100 * (c + Z.of_nat (S (S i))) / n)))
      by (intros i; do 2 f_equal; lia).
    reflexivity.
Qed.

Lemma paste_grid_empty_rows (out : Image) (tile_w tile_h : Z)
    (rows : list (list (option Image))) :
  Forall (fun row => row = []) rows ->
  forall i, paste_grid out rows tile_w tile_h i = Ok out.
Proof.
  induction 1 as [|row rows -> _ IH]; intros i; [reflexivity|].
  cbn. apply IH.
Qed.

(** X15.  [mosaic] called, with the mode of the picture, with a tile
    wider or higher than the picture, which the check in [main] keeps
    from happening: the grid has no cell, no tile is looked at,
    whatever the tiles and the method, nothing is pasted, and the new
    picture of the picture's mode and size is saved as it was created,
    without any error; the cache is left as it was. *)
Theorem mosaic_without_cells (image : Image) (tiles : list Image)
    (tile_w tile_h : Z) (out_file method : string) (s : state) :
  0 < tile_w -> 0 < tile_h ->
  0 <= width image -> 0 <= height image ->
  width image < tile_w \/ height image < tile_h ->
  image_save (mosaic_output (mode image) image) out_file = Ok tt ->
  mosaic image tiles (tile_w, tile_h) out_file (mode image) method s
  = (Ok tt,
     {| cached_avgs := cached_avgs s;
        trace := trace s
                 ++ [Print "Finding best matches..."]
                 ++ percents (Z.to_nat (height image / tile_h))
                 ++ [Print "Done."; Print "Creating mosaic...";
                     Saved out_file (mosaic_output (mode image) image);
                     Print "Done."] |}).
Proof.
  intros Hw Hh HW HH Hsmall Hsave.
  unfold mosaic, gridify, floordiv.
  assert ((tile_h =? 0) = false) as -> by (apply Z.eqb_neq; lia).
  assert ((tile_w =? 0) = false) as -> by (apply Z.eqb_neq; lia).
  cbn [obind]. unfold bind at 1, lift at 1.
  unfold bind at 1, print at 1, emit at 1.
  set (grid := map _ (range (height image / tile_h))).
  assert (Hlen : length grid = Z.to_nat (height image / tile_h))
    by (unfold grid, range; now rewrite !length_map, length_seq).
  assert (Hempty : Forall (fun row => row = []) grid).
  { unfold grid. destruct Hsmall as [Hsmall|Hsmall].
    - rewrite (Z.div_small (width image) tile_w) by lia.
      apply Forall_map, Forall_forall. intros i _. reflexivity.
    - rewrite (Z.div_small (height image) tile_h) by lia. constructor. }
  unfold bind at 1, ProgressCounter_init.
  rewrite (match_grid_empty_rows tiles method _ grid Hempty)
    by (destruct grid; [now left|right; cbn [length]; lia]).
  cbn [app]. unfold bind at 1, print at 1, emit at 1.
  unfold bind at 1, print at 1, emit at 1.
  unfold bind at 1, lift at 1.
  rewrite paste_grid_empty_rows
    by (apply Forall_map, Forall_forall; reflexivity).
  unfold bind at 1, lift at 1. rewrite Hsave.
  unfold bind, print, emit. cbn [cached_avgs trace].
  rewrite Hlen, <- !app_assoc. reflexivity.
Qed.

End TooLarge.

Lemma mosaic_without_cells_witness :
  (0 < 9 /\ 0 < 9 /\ 0 <= width Demo.prepared /\ 0 <= height Demo.prepared
   /\ (width Demo.prepared < 9 \/ height Demo.prepared < 9)
   /\ image_save (Env := Demo.plain) (mosaic_output "RGB" Demo.prepared)
        "out.png" = Ok tt)
  /\ mosaic (E := Demo.plain) Demo.prepared [Demo.tile4] (9, 9) "out.png"
       "RGB" "avg" initial
     = (Ok tt,
        {| cached_avgs := [];
           trace := [Print "Finding best matches..."; Print "Done.";
                     Print "Creating mosaic...";
                     Saved "out.png" (mosaic_output "RGB" Demo.prepared);
                     Print "Done."] |}).
Proof.
  assert (Hsmall : width Demo.prepared < 9 \/ height Demo.prepared < 9)
    by (left; reflexivity).
  split; [repeat split; (assumption || discriminate)|].
  apply (mosaic_without_cells (E := Demo.plain) Demo.prepared [Demo.tile4]
           9 9 "out.png" "avg" initial);
    (assumption || reflexivity || discriminate).
Defined.

(** ** What a run touches *)

Section Touches.

Context {E : Env}.

Variable P : event -> Prop.

Lemma emits_only_ret {A : Type} (a : A) : emits_only P (ret a).
Proof. intros s. exists []. cbn. now rewrite app_nil_r. Qed.

Lemma emits_only_lift {A : Type} (o : outcome A) : emits_only P (lift o).
Proof. intros s. exists []. cbn. now rewrite app_nil_r. Qed.

Lemma emits_only_raise {A : Type} (e : exn) : emits_only P (@raise A e).
Proof. intros s. exists []. cbn. now rewrite app_nil_r. Qed.

Lemma emits_only_emit (e : event) : P e -> emits_only P (emit e).
Proof. intros He s. exists [e]. cbn. split; [reflexivity|now constructor]. Qed.

Lemma emits_only_bind {A B : Type} (c : M A) (k : A -> M B) :
  emits_only P c -> (forall a, emits_only P (k a)) ->
  emits_only P (bind c k).
Proof.
  intros Hc Hk s. unfold bind. destruct (Hc s) as (tr & Htr & Hall).
  destruct (c s) as [[a|e] s1]; cbn [snd] in *.
  - destruct (Hk a s1) as (tr' & Htr' & Hall').
    exists (tr ++ tr'). split.
    + now rewrite Htr', Htr, app_assoc.
    + now apply Forall_app.
  - now exists tr.
Qed.

Hypothesis percent : forall p, P (Percent p).

Lemma emits_only_update (p : ProgressCounter) : emits_only P (update p).
Proof.
  unfold update. apply emits_only_bind; [apply emits_only_lift|intros pct].
  apply emits_only_bind; [now apply emits_only_emit|intros _].
  apply emits_only_ret.
Qed.

Lemma emits_only_scan_first (target_avg : colour) (tiles : list Image) :
  forall min_err best, emits_only P (scan_first target_avg tiles min_err best).
Proof.
  induction tiles as [|tile tiles IH]; intros min_err best;
    cbn [scan_first]; [apply emits_only_ret|].
  apply emits_only_bind; [apply emits_only_lift|intros tile_avg].
  apply emits_only_bind.
  { intros s. exists []. cbn. now rewrite app_nil_r. }
  intros _. apply emits_only_bind; [apply emits_only_lift|intros err].
  destruct (lt err min_err); apply IH.
Qed.

Lemma emits_only_find_best_match (target : Image) (tiles : list Image)
    (method : string) :
  method = "avg"%string \/ method = "diff"%string ->
  emits_only P (find_best_match target tiles method).
Proof.
  intros [->| ->]; unfold find_best_match;
    cbn [String.eqb Ascii.eqb Bool.eqb]; [|apply emits_only_lift].
  apply emits_only_bind; [apply emits_only_lift|intros target_avg].
  apply emits_only_bind.
  { intros s. exists []. cbn. now rewrite app_nil_r. }
  intros [|c cached]; [apply emits_only_scan_first|apply emits_only_lift].
Qed.

Lemma emits_only_match_row (tiles : list Image) (method : string)
    (row : list Image) :
  method = "avg"%string \/ method = "diff"%string ->
  forall mosaic_row, emits_only P (match_row row tiles method mosaic_row).
Proof.
  intros Hm. induction row as [|c row IH]; intros mosaic_row;
    cbn [match_row]; [apply emits_only_ret|].
  apply emits_only_bind; [now apply emits_only_find_best_match|].
  intros best. apply IH.
Qed.

Lemma emits_only_match_grid (tiles : list Image) (method : string)
    (grid : list (list Image)) :
  method = "avg"%string \/ method = "diff"%string ->
  forall mosaic_tiles progress,
    emits_only P (match_grid grid tiles method mosaic_tiles progress).
Proof.
  intros Hm. induction grid as [|row grid IH]; intros mosaic_tiles progress;
    cbn [match_grid]; [apply emits_only_ret|].
  apply emits_only_bind; [now apply emits_only_match_row|intros mosaic_row].
  apply emits_only_bind; [apply emits_only_update|intros progress'].
  apply IH.
Qed.

End Touches.

Section Permitted.

Context {E : Env}.

Variables (image tiles_path out_file : string).

Lemma permitted_get_target (tile_size : Z * Z) (scale : Z) :
  emits_only (permitted image tiles_path out_file) (get_target image tile_size scale).
Proof.
  unfold get_target.
  apply emits_only_bind; [apply emits_only_emit; now left|intros _].
  apply emits_only_bind; [apply emits_only_lift|intros img].
  apply emits_only_bind; [apply emits_only_lift|intros img_large].
  apply emits_only_bind; [apply emits_only_lift|intros w_mod].
  apply emits_only_bind; [apply emits_only_lift|intros h_mod].
  destruct (_ || _); apply emits_only_ret.
Qed.

Lemma permitted_get_tiles_loop (tile_size : Z * Z) (m : string)
    (listing : list string) :
  listdir tiles_path = Ok listing ->
  forall files tiles progress,
    incl files listing ->
    emits_only (permitted image tiles_path out_file)
      (get_tiles_loop tiles_path tile_size m files tiles progress).
Proof.
  intros Hdir. induction files as [|file files IH];
    intros tiles progress Hincl; cbn [get_tiles_loop];
    [apply emits_only_ret|].
  apply emits_only_bind.
  { apply emits_only_emit. right. exists listing, file.
    split; [assumption|]. split; [apply Hincl; now left|reflexivity]. }
  intros _. apply emits_only_bind; [apply emits_only_lift|intros opened].
  apply emits_only_bind; [apply emits_only_lift|intros tile].
  apply emits_only_bind; [now apply emits_only_update|intros progress'].
  apply IH. intros f Hf. apply Hincl. now right.
Qed.

Lemma permitted_get_tiles (tile_size : Z * Z) (m : string) :
  emits_only (permitted image tiles_path out_file) (get_tiles tiles_path tile_size m).
Proof.
  unfold get_tiles, print.
  apply emits_only_bind; [apply emits_only_emit; discriminate|intros _].
  apply emits_only_bind; [now apply emits_only_emit|intros _].
  intros s. unfold bind at 1, lift at 1.
  destruct (listdir tiles_path) as [files|e] eqn:Hdir.
  - revert s. apply emits_only_bind.
    + apply (permitted_get_tiles_loop tile_size m files Hdir).
      apply incl_refl.
    + intros tiles. apply emits_only_bind;
        [apply emits_only_emit; discriminate|intros _].
      apply emits_only_ret.
  - exists []. cbn. now rewrite app_nil_r.
Qed.

Lemma permitted_mosaic (target : Image) (tiles : list Image)
    (tile_size : Z * Z) (m method : string) :
  method = "avg"%string \/ method = "diff"%string ->
  emits_only (permitted image tiles_path out_file)
    (mosaic target tiles tile_size out_file m method).
Proof.
  intros Hm. unfold mosaic, print. destruct tile_size as [tile_w tile_h].
  apply emits_only_bind; [apply emits_only_lift|intros grid].
  apply emits_only_bind; [apply emits_only_emit; discriminate|intros _].
  apply emits_only_bind; [now apply emits_only_match_grid|intros matched].
  apply emits_only_bind; [apply emits_only_emit; discriminate|intros _].
  apply emits_only_bind; [apply emits_only_emit; discriminate|intros _].
  apply emits_only_bind; [apply emits_only_lift|intros out].
  apply emits_only_bind; [apply emits_only_lift|intros _].
  apply emits_only_bind; [now apply emits_only_emit|intros _].
  apply emits_only_emit. discriminate.
Qed.

(** X16.  Whatever the arguments, the files and the outcome, a run on
    six arguments opens nothing but the picture and the entries the
    tile directory lists, lists nothing but that directory and saves
    nothing but the output; and it never prints the unknown-method
    message of [find_best_match], whose last branch [main]'s own check
    of the method makes unreachable. *)
Theorem main_touches_only (prog a4 a5 method : string) (s : state) :
  exists tr,
    trace (snd (main [prog; image; tiles_path; out_file; a4; a5; method] s))
    = trace s ++ tr
    /\ Forall (permitted image tiles_path out_file) tr.
Proof.
  revert s. change (emits_only (permitted image tiles_path out_file)
    (main [prog; image; tiles_path; out_file; a4; a5; method])).
  unfold main.
  apply emits_only_bind; [apply emits_only_lift|intros size].
  apply emits_only_bind; [apply emits_only_lift|intros scale].
  destruct (negb (String.eqb method "avg") && negb (String.eqb method "diff"))
    eqn:Hmethod.
  - apply emits_only_bind; [|intros _; apply emits_only_raise].
    apply emits_only_emit. unfold unknown_method. cbn. discriminate.
  - assert (Hm : method = "avg"%string \/ method = "diff"%string).
    { apply andb_false_iff in Hmethod as [H|H];
        apply negb_false_iff, String.eqb_eq in H; auto. }
    apply emits_only_bind; [apply permitted_get_target|intros target].
    destruct (_ >? _).
    + apply emits_only_bind; [|intros _; apply emits_only_raise].
      apply emits_only_emit. discriminate.
    + apply emits_only_bind; [apply permitted_get_tiles|intros tiles].
      apply emits_only_bind; [now apply permitted_mosaic|intros _].
      now apply emits_only_emit.
Qed.

End Permitted.
